(** * Mod application engine of the HoN mod manager

    A shallow embedding of [ModApplicator] (ModManager19.py and
    ModManager26.py carry the same class, line for line): the patch directive
    interpreter of [_process_mod], the working file table [modified_files],
    the lazy base-archive load of [_load_base_file] and the write / commit
    sequence of [apply_mods].

    Python values are modelled as follows.
    - [str] is a list of code points, [bytes] a list of byte values, both
      over [Z]; offsets, the cursor and the [-1] sentinel of [match_start]
      are [Z] as well.
    - [print] appends an [event] to a log.
    - an archive is the list of its members; a member reads as its
      content, or its read raises.
    - the file system is a finite map from paths to nodes; an operating
      system call raises exactly when the run's [Oracle] says so. *)

From Stdlib Require Import ZArith Lia String Ascii.
From stdpp Require Import base option list gmap strings.

Open Scope Z_scope.

(** ** Python strings *)

Definition str := list Z.
Definition bytes := list Z.

(** A literal of the source, written as a Rocq string. *)
Definition lit (x : string) : str :=
  map (fun a => Z.of_nat (nat_of_ascii a)) (list_ascii_of_string x).

Definition py_len (s : str) : Z := Z.of_nat (length s).

Definition str_eqb (a b : str) : bool := bool_decide (a = b).

(** [s.startswith(sub)] at the head of [s]. *)
Fixpoint startswith (s sub : str) {struct sub} : bool :=
  match sub with
  | [] => true
  | c :: sub' =>
      match s with
      | [] => false
      | d :: s' => (c =? d) && startswith s' sub'
      end
  end.

(** A slice bound as Python adjusts it: a negative bound counts from the
    end, and every bound is clamped to [0, n]. *)
Definition slice_index (n i : Z) : Z :=
  if i <? 0 then Z.max 0 (i + n) else Z.min i n.

(** [s[:j]] and [s[i:]]. *)
Definition slice_to (s : str) (j : Z) : str :=
  take (Z.to_nat (slice_index (py_len s) j)) s.

Definition slice_from (s : str) (i : Z) : str :=
  drop (Z.to_nat (slice_index (py_len s) i)) s.

(** [s[i:j]] *)
Definition slice (s : str) (i j : Z) : str :=
  let i' := slice_index (py_len s) i in
  let j' := slice_index (py_len s) j in
  take (Z.to_nat (j' - i')) (drop (Z.to_nat i') s).

(** Lowest offset, counted from [i], at which [sub] starts in [s]. *)
Fixpoint find_scan (s sub : str) (i : Z) : Z :=
  if startswith s sub then i
  else match s with
       | [] => -1
       | _ :: r => find_scan r sub (i + 1)
       end.

(** [s.find(sub, start)]. *)
Definition str_find (s sub : str) (start : Z) : Z :=
  let st := if start <? 0 then Z.max 0 (start + py_len s) else start in
  if py_len s <? st then -1
  else find_scan (drop (Z.to_nat st) s) sub st.

(** Highest offset, counted from [i], at which [sub] starts in [s];
    [acc] is the best offset seen so far. *)
Fixpoint rfind_scan (s sub : str) (i acc : Z) : Z :=
  let acc' := if startswith s sub then i else acc in
  match s with
  | [] => acc'
  | _ :: r => rfind_scan r sub (i + 1) acc'
  end.

(** [s.rfind(sub, 0, stop)]: the occurrence has to lie inside [s[0:stop]]. *)
Definition str_rfind (s sub : str) (stop : Z) : Z :=
  rfind_scan (slice_to s stop) sub 0 (-1).

(** [sub in s]. *)
Definition str_contains (s sub : str) : bool :=
  negb (find_scan s sub 0 =? -1).

(** [s.replace(old, new)]: occurrences are replaced left to right without
    overlap; [skip] counts the characters of an occurrence still to drop. *)
Fixpoint replace_scan (old new s : str) (skip : nat) : str :=
  match s with
  | [] => []
  | c :: r =>
      match skip with
      | S k => replace_scan old new r k
      | O =>
          if startswith s old
          then new ++ replace_scan old new r (length old - 1)
          else c :: replace_scan old new r 0
      end
  end.

Definition str_replace (s old new : str) : str :=
  match old with
  | [] => new ++ flat_map (fun c => c :: new) s
  | _ => replace_scan old new s 0
  end.

Arguments str_replace : simpl never.
Arguments lit : simpl never.

(** [s.lower()] on the letters A-Z.  The engine compares lowered names only
    with literals made of '.' and of letters a-z other than k; outside A-Z
    the only code points whose lowering holds such a letter are U+212A
    (to k) and U+0130 (to i followed by U+0307), so these comparisons come
    out as with the full [str.lower]. *)
Definition lower_char (c : Z) : Z :=
  if (65 <=? c) && (c <=? 90) then c + 32 else c.

Definition str_lower (s : str) : str := map lower_char s.

(** ** XML elements ([xml.etree.ElementTree.Element]) *)

#[warnings="-register-all"]
Inductive Element : Type :=
  Elem (tag : str) (attrib : list (str * str)) (text : option str)
       (children : list Element).

Definition elem_tag (e : Element) : str :=
  match e with Elem t _ _ _ => t end.
Definition elem_attrib (e : Element) : list (str * str) :=
  match e with Elem _ a _ _ => a end.
Definition elem_text (e : Element) : option str :=
  match e with Elem _ _ t _ => t end.
Definition elem_children (e : Element) : list Element :=
  match e with Elem _ _ _ c => c end.

Fixpoint assoc_get (k : str) (l : list (str * str)) : option str :=
  match l with
  | [] => None
  | (k', v) :: r => if str_eqb k k' then Some v else assoc_get k r
  end.

(** [e.get(key)] *)
Definition elem_get (e : Element) (key : str) : option str :=
  assoc_get key (elem_attrib e).

(** ** Console output *)

Inductive event : Type :=
  | UsingZstd
  | FallbackDeflated
  | NoModsEnabled
  | Starting (n : nat)
  | Processing (name : str)
  | AssetInjected (fname : str)
  | FindMatch (idx : Z)
  | FindMiss (shown : str)
  | FindUpMatch (idx : Z)
  | FindUpMiss (shown : str)
  | ReplaceApplied
  | ReplaceSkipped
  | InsertedBefore
  | InsertedAfter
  | InsertSkipped
  | EditFailed (target : str)
  | ModFailed (name : str)
  | BaseFileNotFound (fname : str)
  | BaseReadFailed
  | ApplyFailed (e : str).

(** ** The patch directive interpreter *)

Record MatchState : Type := mkState {
  text_content : str;
  cursor : Z;
  match_start : Z;
  match_end : Z
}.

Definition CR : Z := 13.
Definition LF : Z := 10.

(** The line ending of the target file: CRLF when one occurs in it. *)
Definition detect_newline (text : str) : str :=
  if str_contains text [CR; LF] then [CR; LF] else [LF].

(** [raw_text.replace("\r\n", "\n").replace("\n", newline_mode)] *)
Definition normalize (newline_mode raw_text : str) : str :=
  str_replace (str_replace raw_text [CR; LF] [LF]) [LF] newline_mode.

(** The text of [child], empty when there is none, normalised. *)
Definition search_text_of (newline_mode : str) (child : Element) : str :=
  normalize newline_mode (default [] (elem_text child)).

Definition do_find (search_text : str) (st : MatchState)
  : MatchState * list event :=
  let found_idx := str_find (text_content st) search_text (cursor st) in
  if negb (found_idx =? -1) then
    let ms := found_idx in
    let me := found_idx + py_len search_text in
    (mkState (text_content st) me ms me, [FindMatch ms])
  else (st, [FindMiss (slice_to search_text 20)]).

Definition do_findup (search_text : str) (position : option str)
  (st : MatchState) : MatchState * list event :=
  let start_pos :=
    if negb (bool_decide (position = Some (lit "end")))
    then cursor st else py_len (text_content st) in
  let found_idx := str_rfind (text_content st) search_text start_pos in
  if negb (found_idx =? -1) then
    let ms := found_idx in
    let me := found_idx + py_len search_text in
    (mkState (text_content st) me ms me, [FindUpMatch ms])
  else (st, [FindUpMiss (slice_to search_text 20)]).

Definition do_replace (search_text : str) (st : MatchState)
  : MatchState * list event :=
  if negb (match_start st =? -1) then
    let text' := slice_to (text_content st) (match_start st)
                 ++ search_text
                 ++ slice_from (text_content st) (match_end st) in
    let me := match_start st + py_len search_text in
    (mkState text' me (match_start st) me, [ReplaceApplied])
  else (st, [ReplaceSkipped]).

Definition do_insert (search_text : str) (position : option str)
  (st : MatchState) : MatchState * list event :=
  if negb (match_start st =? -1) then
    if bool_decide (default (lit "after") position = lit "before") then
      let text' := slice_to (text_content st) (match_start st)
                   ++ search_text
                   ++ slice_from (text_content st) (match_start st) in
      let shift := py_len search_text in
      (mkState text' (cursor st + shift) (match_start st + shift)
               (match_end st + shift), [InsertedBefore])
    else
      let text' := slice_to (text_content st) (match_end st)
                   ++ search_text
                   ++ slice_from (text_content st) (match_end st) in
      (mkState text' (cursor st + py_len search_text) (match_start st)
               (match_end st), [InsertedAfter])
  else (st, [InsertSkipped]).

(** One iteration of [for child in edit_node]. *)
Definition process_child (newline_mode : str) (st : MatchState)
  (child : Element) : MatchState * list event :=
  let tag := str_lower (elem_tag child) in
  let search_text := search_text_of newline_mode child in
  if str_eqb tag (lit "find") then do_find search_text st
  else if str_eqb tag (lit "findup") then
    do_findup search_text (elem_get child (lit "position")) st
  else if str_eqb tag (lit "replace") then do_replace search_text st
  else if str_eqb tag (lit "insert") then
    do_insert search_text (elem_get child (lit "position")) st
  else (st, []).

(** The whole loop, with the output of every iteration in order. *)
Fixpoint run_children (newline_mode : str) (cs : list Element)
  (st : MatchState) : MatchState * list event :=
  match cs with
  | [] => (st, [])
  | c :: r =>
      let '(st1, out1) := process_child newline_mode st c in
      let '(st2, out2) := run_children newline_mode r st1 in
      (st2, out1 ++ out2)
  end.

(** The state at block entry. *)
Definition initial_state (text : str) : MatchState := mkState text 0 (-1) (-1).

(** ** Text codecs *)

Definition is_cont (b : Z) : bool := (128 <=? b) && (b <=? 191).

Definition is_surrogate (c : Z) : bool := (55296 <=? c) && (c <=? 57343).

(** [b.decode('utf-8')]; [None] stands for [UnicodeDecodeError].  Overlong
    forms, surrogates and values above U+10FFFF are refused. *)
Fixpoint utf8_decode (b : bytes) : option str :=
  match b with
  | [] => Some []
  | b0 :: r0 =>
      if b0 <? 128 then cons b0 <$> utf8_decode r0
      else if b0 <? 194 then None
      else if b0 <? 224 then
        match r0 with
        | b1 :: r1 =>
            if is_cont b1
            then cons ((b0 - 192) * 64 + (b1 - 128)) <$> utf8_decode r1
            else None
        | _ => None
        end
      else if b0 <? 240 then
        match r0 with
        | b1 :: b2 :: r2 =>
            let c := (b0 - 224) * 4096 + (b1 - 128) * 64 + (b2 - 128) in
            if is_cont b1 && is_cont b2 && (2048 <=? c)
               && negb (is_surrogate c)
            then cons c <$> utf8_decode r2
            else None
        | _ => None
        end
      else if b0 <? 245 then
        match r0 with
        | b1 :: b2 :: b3 :: r3 =>
            let c := (b0 - 240) * 262144 + (b1 - 128) * 4096
                     + (b2 - 128) * 64 + (b3 - 128) in
            if is_cont b1 && is_cont b2 && is_cont b3
               && (65536 <=? c) && (c <=? 1114111)
            then cons c <$> utf8_decode r3
            else None
        | _ => None
        end
      else None
  end.

(** The UTF-8 form of one code point; [None] stands for
    [UnicodeEncodeError] (a surrogate) or a value that is no code point. *)
Definition utf8_encode_char (c : Z) : option bytes :=
  if c <? 0 then None
  else if c <? 128 then Some [c]
  else if c <? 2048 then Some [192 + c / 64; 128 + c mod 64]
  else if c <? 65536 then
    if is_surrogate c then None
    else Some [224 + c / 4096; 128 + (c / 64) mod 64; 128 + c mod 64]
  else if c <? 1114112 then
    Some [240 + c / 262144; 128 + (c / 4096) mod 64;
          128 + (c / 64) mod 64; 128 + c mod 64]
  else None.

(** [s.encode('utf-8')] *)
Fixpoint utf8_encode (s : str) : option bytes :=
  match s with
  | [] => Some []
  | c :: r =>
      match utf8_encode_char c, utf8_encode r with
      | Some bs, Some rest => Some (bs ++ rest)
      | _, _ => None
      end
  end.

(** [b.decode('latin-1')]: every byte is the code point of its value. *)
Definition latin1_decode (b : bytes) : str := b.

(** The [try: utf-8 / except UnicodeDecodeError: latin-1] of the source. *)
Definition decode_content (b : bytes) : str :=
  match utf8_decode b with
  | Some t => t
  | None => latin1_decode b
  end.

(** ** Zip archives and the working file table *)

(** A member of an archive.  [data] is what reading the member gives;
    [None] is a member whose reading raises (a wrong checksum, an
    encrypted member, a compression the library does not know). *)
Record ZipInfo : Type := Member { filename : str; data : option bytes }.

(** A member that reads as [content]. *)
Definition mkZipInfo (filename : str) (content : bytes) : ZipInfo :=
  Member filename (Some content).

(** An opened archive: its members in directory order. *)
Definition ZipFile := list ZipInfo.

Definition namelist (z : ZipFile) : list str := map filename z.

(** [ZipInfo.is_dir()]: the member name ends with a slash. *)
Definition is_dir (i : ZipInfo) : bool :=
  match last (filename i) with
  | Some c => c =? 47
  | None => false
  end.

(** [z.getinfo(name)]: of several members with one name the last one. *)
Fixpoint getinfo (z : ZipFile) (name : str) : option ZipInfo :=
  match z with
  | [] => None
  | i :: r =>
      match getinfo r name with
      | Some j => Some j
      | None => if str_eqb (filename i) name then Some i else None
      end
  end.

(** [z.read(name)]; [None] when it raises: no member has the name, or the
    member that has it cannot be read. *)
Definition zip_read (z : ZipFile) (name : str) : option bytes :=
  match getinfo z name with
  | Some i => data i
  | None => None
  end.

(** [modified_files]: a Python dict, keys in insertion order. *)
Definition pydict := list (str * bytes).

Fixpoint dict_get (d : pydict) (k : str) : option bytes :=
  match d with
  | [] => None
  | (k', v) :: r => if str_eqb k' k then Some v else dict_get r k
  end.

(** [k in d] *)
Definition dict_mem (d : pydict) (k : str) : bool :=
  match dict_get d k with Some _ => true | None => false end.

(** [d[k] = v]: an existing key keeps its place. *)
Fixpoint dict_set (d : pydict) (k : str) (v : bytes) : pydict :=
  match d with
  | [] => [(k, v)]
  | (k', v') :: r =>
      if str_eqb k' k then (k', v) :: r else (k', v') :: dict_set r k v
  end.

(** The archive that [writestr] builds from [modified_files.items()]. *)
Definition zip_of_dict (d : pydict) : ZipFile :=
  map (fun kv => mkZipInfo (fst kv) (snd kv)) d.

(** The content mapping of an archive: what each name reads as. *)
Definition content_mapping (z : ZipFile) : str -> option bytes := zip_read z.

(** ** The file system *)

Definition Path := list string.

Inductive Node : Type :=
  | Dir
  | Zip (z : ZipFile)
  | Garbage.

Abbreviation Disk := (gmap Path Node).

Definition exists_ (d : Disk) (p : Path) : bool :=
  match d !! p with Some _ => true | None => false end.

(** [zipfile.ZipFile(p, 'r')]; [None] when opening raises. *)
Definition open_zip (d : Disk) (p : Path) : option ZipFile :=
  match d !! p with
  | Some (Zip z) => Some z
  | _ => None
  end.

(** A directory and its ancestors, outermost first. *)
Fixpoint with_parents (p : Path) : list Path :=
  match p with
  | [] => []
  | c :: r => [c] :: map (cons c) (with_parents r)
  end.

(** [p.mkdir(parents=True)] when it does not raise: [p] and every
    ancestor of [p] that is missing are made. *)
Definition mkdir_parents (d : Disk) (p : Path) : Disk :=
  foldr (fun q d' => if exists_ d' q then d' else <[q := Dir]> d') d
        (with_parents p).

(** What the operating system does to the calls of one run: each field
    names the exception of a call that fails ([mkdir] fails, for one,
    when an ancestor of the directory is a file).  [write_raises] also
    tells whether a partial file was left at the temporary path. *)
Record Oracle : Type := mkOracle {
  mkdir_raises : option str;
  write_raises : option (str * bool);
  remove_raises : option str;
  rename_raises : option str;
  cleanup_raises : option str
}.

Definition no_faults : Oracle := mkOracle None None None None None.

(** ** Mod descriptors and the applicator *)

Record Mod : Type := mkMod {
  mod_name : str;
  enabled : bool;
  file_path : Path
}.

Record ModApplicator : Type := mkApplicator {
  game_root : Path;
  resources0_path : Path;
  mods_data : list Mod
}.

Definition output_dir (self : ModApplicator) : Path :=
  game_root self ++ ["extensions"%string].
Definition temp_output_path (self : ModApplicator) : Path :=
  output_dir self ++ ["resources0.zip"%string].
Definition final_output_path (self : ModApplicator) : Path :=
  output_dir self ++ ["resources0.jz"%string].

Inductive message : Type :=
  | AllModsDisabled
  | BaseArchiveNotFound (p : Path)
  | SuccessfullyApplied (n : nat)
  | ErrorText (e : str).

(** What a call of [apply_mods] ends with: the returned pair, or an
    exception that leaves the method. *)
Inductive outcome : Type :=
  | Returned (success : bool) (msg : message)
  | Raised (e : str).

(** ** The engine *)

(** All descendants of [e] in document order ([e] itself excluded). *)
Fixpoint descendants (e : Element) : list Element :=
  match e with
  | Elem _ _ _ cs =>
      (fix go (l : list Element) : list Element :=
         match l with
         | [] => []
         | c :: r => c :: descendants c ++ go r
         end) cs
  end.

(** [root.findall(".//editfile")] *)
Definition findall_editfile (root : Element) : list Element :=
  filter (fun e => elem_tag e = lit "editfile") (descendants root).

Definition ignored_files : list str :=
  [lit "mod.xml"; lit "icon.png"; lit "changelog.txt"; lit "icon.jpg";
   lit "thumbs.db"].

(** The asset injection loop over [z_mod.infolist()]: the table, what was
    printed, and whether [z_mod.read(fname)] raised.  The loop ends where
    a read raises: the line of that member is printed, and the table keeps
    what the members before it stored. *)
Fixpoint inject_assets (infolist : list ZipInfo) (z_mod : ZipFile)
  (modified_files : pydict) : pydict * (list event * bool) :=
  match infolist with
  | [] => (modified_files, ([], false))
  | file_info :: rest =>
      let fname := filename file_info in
      let fname_clean := str_replace fname (lit "\") (lit "/") in
      if is_dir file_info
         || bool_decide (str_lower fname_clean ∈ ignored_files)
      then inject_assets rest z_mod modified_files
      else
        match zip_read z_mod fname with
        | None => (modified_files, ([AssetInjected fname_clean], true))
        | Some content =>
            let '(tbl, (out, raised)) :=
              inject_assets rest z_mod
                (dict_set modified_files fname_clean content) in
            (tbl, (AssetInjected fname_clean :: out, raised))
        end
  end.

Section Engine.

(** The module flag set by the import of [zipfile_zstd], and the XML
    parser; [None] stands for the parser raising. *)
Variable HAS_ZSTD : bool.
Variable ET_parse : bytes -> option Element.

Variable self : ModApplicator.

(** The disk is only read while the mods are processed. *)
Variable disk : Disk.

Definition load_base_file (fname : str) (modified_files : pydict)
  : pydict * list event :=
  if dict_mem modified_files fname then (modified_files, [])
  else
    match open_zip disk (resources0_path self) with
    | Some z_base =>
        if bool_decide (fname ∈ namelist z_base)
        then
          match zip_read z_base fname with
          | Some content => (dict_set modified_files fname content, [])
          | None => (modified_files, [BaseReadFailed])
          end
        else (modified_files, [BaseFileNotFound fname])
    | None => (modified_files, [BaseReadFailed])
    end.

(** The body of [for edit_node in root.findall(".//editfile")]. *)
Definition process_edit_node (modified_files : pydict)
  (edit_node : Element) : pydict * list event :=
  match elem_get edit_node (lit "name") with
  | None | Some [] => (modified_files, [])
  | Some target_file =>
      let '(tbl, out1) :=
        if negb (dict_mem modified_files target_file)
        then load_base_file target_file modified_files
        else (modified_files, []) in
      match dict_get tbl target_file with
      | None | Some [] => (tbl, out1)
      | Some current_content_bytes =>
          let text := decode_content current_content_bytes in
          let newline_mode := detect_newline text in
          let '(st, out2) :=
            run_children newline_mode (elem_children edit_node)
                         (initial_state text) in
          match utf8_encode (text_content st) with
          | Some encoded =>
              (dict_set tbl target_file encoded, out1 ++ out2)
          | None => (tbl, out1 ++ out2 ++ [EditFailed target_file])
          end
      end
  end.

Fixpoint process_edit_nodes (nodes : list Element)
  (modified_files : pydict) : pydict * list event :=
  match nodes with
  | [] => (modified_files, [])
  | n :: r =>
      let '(tbl1, out1) := process_edit_node modified_files n in
      let '(tbl2, out2) := process_edit_nodes r tbl1 in
      (tbl2, out1 ++ out2)
  end.

(** [_process_mod]: whatever is raised inside is caught and printed,
    the table keeps what was stored before. *)
Definition process_mod (mod_ : Mod) (modified_files : pydict)
  : pydict * list event :=
  match open_zip disk (file_path mod_) with
  | None => (modified_files, [ModFailed (mod_name mod_)])
  | Some z_mod =>
      let '(tbl1, (out1, raised)) :=
        inject_assets z_mod z_mod modified_files in
      if raised then (tbl1, out1 ++ [ModFailed (mod_name mod_)])
      else if bool_decide (lit "mod.xml" ∈ namelist z_mod) then
        match zip_read z_mod (lit "mod.xml") ≫= ET_parse with
        | None => (tbl1, out1 ++ [ModFailed (mod_name mod_)])
        | Some root =>
            let '(tbl2, out2) :=
              process_edit_nodes (findall_editfile root) tbl1 in
            (tbl2, out1 ++ out2)
        end
      else (tbl1, out1)
  end.

(** [for mod in enabled_mods: print(...); self._process_mod(...)] *)
Fixpoint process_mods (mods : list Mod) (modified_files : pydict)
  : pydict * list event :=
  match mods with
  | [] => (modified_files, [])
  | m :: r =>
      let '(tbl1, out1) := process_mod m modified_files in
      let '(tbl2, out2) := process_mods r tbl1 in
      (tbl2, Processing (mod_name m) :: out1 ++ out2)
  end.

(** The rest of the [try] block of [apply_mods]: make the output
    directory and its missing ancestors, write the temporary archive,
    delete the previous final archive, rename.  [inl] is the disk after
    the rename, [inr] the exception together with the disk at the moment
    it is raised. *)
Definition write_and_commit (o : Oracle) (modified_files : pydict)
  : Disk + (str * Disk) :=
  let mk :=
    if negb (exists_ disk (output_dir self)) then
      match mkdir_raises o with
      | Some e => inr (e, disk)
      | None => inl (mkdir_parents disk (output_dir self))
      end
    else inl disk in
  match mk with
  | inr x => inr x
  | inl d1 =>
      match write_raises o with
      | Some (e, partial) =>
          inr (e, if partial
                  then <[temp_output_path self := Garbage]> d1 else d1)
      | None =>
          let d2 :=
            <[temp_output_path self := Zip (zip_of_dict modified_files)]>
              d1 in
          let rm :=
            if exists_ d2 (final_output_path self) then
              match remove_raises o with
              | Some e => inr (e, d2)
              | None => inl (delete (final_output_path self) d2)
              end
            else inl d2 in
          match rm with
          | inr x => inr x
          | inl d3 =>
              match rename_raises o with
              | Some e => inr (e, d3)
              | None =>
                  inl (<[final_output_path self :=
                           Zip (zip_of_dict modified_files)]>
                         (delete (temp_output_path self) d3))
              end
          end
      end
  end.

Definition enabled_mods : list Mod := filter (fun m => enabled m = true)
                                             (mods_data self).

(** [apply_mods]: the outcome, the disk afterwards and the output. *)
Definition apply_mods (o : Oracle) : outcome * Disk * list event :=
  let banner := if HAS_ZSTD then UsingZstd else FallbackDeflated in
  match enabled_mods with
  | [] =>
      if exists_ disk (final_output_path self) then
        match remove_raises o with
        | Some e => (Raised e, disk, [banner; NoModsEnabled])
        | None =>
            (Returned true AllModsDisabled,
             delete (final_output_path self) disk,
             [banner; NoModsEnabled])
        end
      else (Returned true AllModsDisabled, disk, [banner; NoModsEnabled])
  | _ :: _ =>
      if negb (exists_ disk (resources0_path self)) then
        (Returned false (BaseArchiveNotFound (resources0_path self)),
         disk, [banner])
      else
        let '(modified_files, out) := process_mods enabled_mods [] in
        let log := banner :: Starting (length enabled_mods) :: out in
        match write_and_commit o modified_files with
        | inl d' =>
            (Returned true (SuccessfullyApplied (length enabled_mods)),
             d', log)
        | inr (e, d') =>
            if exists_ d' (temp_output_path self) then
              match cleanup_raises o with
              | Some e' => (Raised e', d', log ++ [ApplyFailed e])
              | None =>
                  (Returned false (ErrorText e),
                   delete (temp_output_path self) d',
                   log ++ [ApplyFailed e])
              end
            else (Returned false (ErrorText e), d', log ++ [ApplyFailed e])
        end
  end.

End Engine.

(** * The window around the engine *)

(** ** The flow layout of the mod cards ([FlowLayout]) *)

Record QSize : Type := mkSize { width : Z; height : Z }.

Record QRect : Type := mkRect {
  rect_x : Z;
  rect_y : Z;
  rect_width : Z;
  rect_height : Z
}.

(** A C [int]: Qt keeps the coordinates of a rectangle in 32 bits, and a
    sum that leaves them wraps around. *)
Definition wrap32 (z : Z) : Z :=
  ((z + 2147483648) mod 4294967296) - 2147483648.

(** [QRect.right()]: the last column inside the rectangle, as Qt keeps
    it. *)
Definition rect_right (r : QRect) : Z :=
  wrap32 (rect_x r + rect_width r - 1).

(** A layout: its spacings and the size hints of its items, in order. *)
Record FlowLayout : Type := mkLayout {
  h_spacing : Z;
  v_spacing : Z;
  item_list : list QSize
}.

(** [addItem], [count], [itemAt] and [takeAt]. *)
Definition addItem (self : FlowLayout) (item : QSize) : FlowLayout :=
  mkLayout (h_spacing self) (v_spacing self) (item_list self ++ [item]).

Definition count (self : FlowLayout) : Z := Z.of_nat (length (item_list self)).

Definition itemAt (self : FlowLayout) (index : Z) : option QSize :=
  if (0 <=? index) && (index <? count self)
  then item_list self !! Z.to_nat index
  else None.

Definition takeAt (self : FlowLayout) (index : Z)
  : option QSize * FlowLayout :=
  if (0 <=? index) && (index <? count self)
  then (item_list self !! Z.to_nat index,
        mkLayout (h_spacing self) (v_spacing self)
                 (delete (Z.to_nat index) (item_list self)))
  else (None, self).

(** The loop of [_do_layout]: the geometries given to the items, and the
    [y] and [line_height] it ends with. *)
Fixpoint layout_loop (self : FlowLayout) (rect : QRect)
  (items : list QSize) (x y line_height : Z) : list QRect * (Z * Z) :=
  match items with
  | [] => ([], (y, line_height))
  | item :: rest =>
      let space_x := h_spacing self in
      let space_y := v_spacing self in
      let next_x := x + width item + space_x in
      let wrap := (next_x - space_x >? rect_right rect)
                  && (line_height >? 0) in
      let x1 := if wrap then rect_x rect else x in
      let y1 := if wrap then y + line_height + space_y else y in
      let next_x1 := if wrap then x1 + width item + space_x else next_x in
      let line_height1 := if wrap then 0 else line_height in
      let '(geoms, final) :=
        layout_loop self rect rest next_x1 y1
                    (Z.max line_height1 (height item)) in
      (mkRect x1 y1 (width item) (height item) :: geoms, final)
  end.

(** [_do_layout(rect, test_only)]: the geometries set (none when only
    testing) and the height returned. *)
Definition do_layout (self : FlowLayout) (rect : QRect) (test_only : bool)
  : list QRect * Z :=
  let '(geoms, (y, line_height)) :=
    layout_loop self rect (item_list self) (rect_x rect) (rect_y rect) 0 in
  (if test_only then [] else geoms, y + line_height - rect_y rect).

Definition heightForWidth (self : FlowLayout) (w : Z) : Z :=
  (do_layout self (mkRect 0 0 w 0) true).2.

(** ** The configuration file ([load_config], [save_config]) *)

(** What [json.load] returns.  A number keeps the text it was written
    with; nothing below looks into it. *)
#[warnings="-register-all"]
Inductive pyval : Type :=
  | PNone
  | PBool (b : bool)
  | PNum (repr : str)
  | PStr (s : str)
  | PList (l : list pyval)
  | PDict (d : list (str * pyval)).

Fixpoint py_lookup (key : str) (d : list (str * pyval)) : option pyval :=
  match d with
  | [] => None
  | (k, v) :: r => if str_eqb k key then Some v else py_lookup key r
  end.

(** [data.get(key, default)]; [None] stands for the [AttributeError] of a
    value that is no dict. *)
Definition py_get (data : pyval) (key : str) (default_ : pyval)
  : option pyval :=
  match data with
  | PDict d => Some (default default_ (py_lookup key d))
  | _ => None
  end.

Definition hashable (v : pyval) : bool :=
  match v with
  | PList _ | PDict _ => false
  | _ => true
  end.

Definition py_str (v : pyval) : option str :=
  match v with
  | PStr s => Some s
  | _ => None
  end.

(** [set(v)]; [None] stands for the [TypeError] of a value that cannot be
    iterated or of an element that cannot be hashed.  The set is asked
    about strings only ([mod_id in self.saved_enabled_mods], and the
    removal of a [mod_id]), and a string equals no value of another
    type, so the set is kept as the set of the strings in it. *)
Definition py_set (v : pyval) : option (gset str) :=
  match v with
  | PList l =>
      if forallb hashable l then Some (list_to_set (omap py_str l))
      else None
  | PStr s => Some (list_to_set (map (fun c => [c]) s))
  | PDict d => Some (list_to_set (map fst d))
  | _ => None
  end.

(** [x in s] *)
Definition in_set (x : str) (s : gset str) : bool := bool_decide (x ∈ s).

(** The file mod_config.json: absent, unreadable (opening or parsing
    raises), or holding a JSON document. *)
Inductive ConfigFile : Type :=
  | NoConfig
  | BrokenConfig
  | ConfigDoc (data : pyval).

(** [load_config]: the saved enabled ids and the developer mode. *)
Definition load_config (config : ConfigFile) : gset str * pyval :=
  match config with
  | ConfigDoc data =>
      match py_get data (lit "enabled_mods") (PList []) with
      | Some v =>
          match py_set v with
          | Some enabled_mods =>
              match py_get data (lit "dev_mode") (PBool false) with
              | Some dev_mode => (enabled_mods, dev_mode)
              | None => (∅, PBool false)
              end
          | None => (∅, PBool false)
          end
      | None => (∅, PBool false)
      end
  | _ => (∅, PBool false)
  end.

(** ** The installed mods *)

(** One entry of [INSTALLED_MODS]. *)
Record ModInfo : Type := mkInfo {
  info_id : str;
  info_name : str;
  info_author : str;
  info_version : str;
  info_category : str;
  info_enabled : bool;
  info_description : str;
  info_icon_data : option bytes;
  info_file_path : Path
}.

(** The keys of an entry that [ModApplicator] reads. *)
Definition to_mod (m : ModInfo) : Mod :=
  mkMod (info_name m) (info_enabled m) (info_file_path m).

(** What happens to the write of [save_config]. *)
Inductive SaveFault : Type :=
  | SaveOk
  | OpenFails
  | DumpFails.

(** [save_config]: the configuration file afterwards.  A failed [open]
    leaves the file, a failed [json.dump] leaves a truncated one. *)
Definition save_config (installed : list ModInfo) (dev_mode : pyval)
  (fault : SaveFault) (config : ConfigFile) : ConfigFile :=
  let enabled := map info_id (filter (fun m => info_enabled m = true)
                                     installed) in
  match fault with
  | SaveOk =>
      ConfigDoc (PDict [(lit "enabled_mods", PList (map PStr enabled));
                        (lit "dev_mode", dev_mode)])
  | OpenFails => config
  | DumpFails => BrokenConfig
  end.

(** [Path.name] and [Path.stem]. *)
Definition path_name (p : Path) : str :=
  match last p with
  | Some n => lit n
  | None => []
  end.

Definition path_stem (p : Path) : str :=
  let name := path_name p in
  let i := str_rfind name (lit ".") (py_len name) in
  if (0 <? i) && (i <? py_len name - 1) then slice_to name i else name.

(** [root.findtext(key)]: the text of the first child with that tag. *)
Fixpoint findtext_in (cs : list Element) (key : str) : option str :=
  match cs with
  | [] => None
  | c :: r =>
      if str_eqb (elem_tag c) key then Some (default [] (elem_text c))
      else findtext_in r key
  end.

Definition findtext (root : Element) (key : str) : option str :=
  findtext_in (elem_children root) key.

(** The local function [get_meta] of [parse_mod_file]. *)
Definition get_meta (root : Element) (key default_ : str) : str :=
  let val := match elem_get root key with
             | Some v => Some v
             | None => findtext root key
             end in
  match val with
  | Some (c :: r) => c :: r
  | _ => default_
  end.

(** What [parse_mod_file] ends with: the entry, nothing because there is
    no manifest, or nothing because something raised. *)
Inductive ParseOutcome : Type :=
  | Parsed (info : ModInfo)
  | NoManifest
  | ParseFailed.

Definition parsed_info (o : ParseOutcome) : option ModInfo :=
  match o with
  | Parsed info => Some info
  | _ => None
  end.

Section Library.

(** [str.lower] in full, and the XML parser. *)
Variable py_lower : str -> str.
Variable ET_parse : bytes -> option Element.

Variable saved_enabled_mods : gset str.
Variable disk : Disk.

Definition parse_mod_file (file_path_ : Path) : ParseOutcome :=
  match open_zip disk file_path_ with
  | None => ParseFailed
  | Some z =>
      if negb (bool_decide (lit "mod.xml" ∈ namelist z)) then NoManifest
      else
        match zip_read z (lit "mod.xml") ≫= ET_parse with
        | None => ParseFailed
        | Some root =>
            let name := get_meta root (lit "name") (path_stem file_path_) in
            let version := get_meta root (lit "version") (lit "1.0") in
            let author := get_meta root (lit "author") (lit "Unknown") in
            let description :=
              get_meta root (lit "description")
                       (lit "No description provided.") in
            let mod_id := str_replace (py_lower name) (lit " ") (lit "_") in
            let icon_path :=
              default (lit "icon.png") (elem_get root (lit "icon")) in
            let icon_name :=
              if bool_decide (icon_path ∈ namelist z) then Some icon_path
              else if bool_decide (lit "icon.png" ∈ namelist z)
                   then Some (lit "icon.png")
                   else None in
            let is_enabled := in_set mod_id saved_enabled_mods in
            let entry icon_data :=
              mkInfo mod_id name author version (lit "Installed")
                     is_enabled description icon_data file_path_ in
            match icon_name with
            | None => Parsed (entry None)
            | Some n =>
                match zip_read z n with
                | Some icon_data => Parsed (entry (Some icon_data))
                | None => ParseFailed
                end
            end
        end
  end.

(** [refresh_mods_library]; [honmod_files] and [zip_files] are what the
    two [glob] calls list. *)
Definition refresh_mods_library (mods_dir : option Path)
  (honmod_files zip_files : list Path) (installed : list ModInfo)
  : list ModInfo :=
  match mods_dir with
  | None => installed
  | Some d =>
      if negb (exists_ disk d) then installed
      else omap (fun f => parsed_info (parse_mod_file f))
                (honmod_files ++ zip_files)
  end.

End Library.

(** The part of [HoNModManager.__init__] from [load_config] to
    [refresh_mods_library]: the configuration is loaded,
    [update_dev_mode] saves it again with the mods installed so far, and
    the library is read.  The result is the saved ids, the developer
    mode, the configuration file and the installed mods. *)
Definition init_library (py_lower : str -> str)
  (ET_parse : bytes -> option Element) (disk : Disk)
  (mods_dir : option Path) (honmod_files zip_files : list Path)
  (installed : list ModInfo) (fault : SaveFault) (config : ConfigFile)
  : gset str * pyval * ConfigFile * list ModInfo :=
  let '(saved_enabled_mods, dev_mode) := load_config config in
  let config' := save_config installed dev_mode fault config in
  (saved_enabled_mods, dev_mode, config',
   refresh_mods_library py_lower ET_parse saved_enabled_mods disk mods_dir
                        honmod_files zip_files installed).

(** [ModCard.on_toggle] on the card of the entry at [index], followed by
    [handle_toggle]: the entry's flag is set and the configuration
    saved. *)
Definition toggle_mod (installed : list ModInfo) (index : nat)
  (checked : bool) (dev_mode : pyval) (fault : SaveFault)
  (config : ConfigFile) : list ModInfo * ConfigFile :=
  let installed' :=
    match installed !! index with
    | Some m =>
        <[index := mkInfo (info_id m) (info_name m) (info_author m)
                          (info_version m) (info_category m) checked
                          (info_description m) (info_icon_data m)
                          (info_file_path m)]> installed
    | None => installed
    end in
  (installed', save_config installed' dev_mode fault config).

(** ** Drag and drop *)

(** [s.endswith(suffix)] *)
Definition str_endswith (s suffix : str) : bool :=
  (length suffix <=? length s)%nat
  && str_eqb (drop (length s - length suffix) s) suffix.

(** [dragEnterEvent]: whether the drag is accepted. *)
Definition dragEnterEvent (urls : list str) : bool :=
  existsb (fun url => str_endswith (str_lower url) (lit ".honmod")) urls.

(** [dropEvent]: the files handed to [import_dropped_mods]. *)
Definition dropEvent (urls : list str) : list str :=
  filter (fun f => str_endswith (str_lower f) (lit ".honmod") = true) urls.

(** * Notions used in the statements *)

(** [sub] occurs in [s] at offset [k]. *)
Definition occurs_at (s sub : str) (k : Z) : Prop :=
  exists pre post, s = pre ++ sub ++ post /\ py_len pre = k.

(** The states the interpreter can be in: the cursor lies inside the
    buffer, and an active match span lies before the cursor. *)
Definition wf_state (st : MatchState) : Prop :=
  0 <= cursor st <= py_len (text_content st)
  /\ (match_start st = -1
      \/ (0 <= match_start st /\ match_start st <= match_end st
          /\ match_end st <= cursor st)).

(** The bound of a backward search. *)
Definition findup_bound (position : option str) (st : MatchState) : Z :=
  if bool_decide (position = Some (lit "end"))
  then py_len (text_content st) else cursor st.

(** The messages printed for a directive that does nothing. *)
Definition is_diagnostic (e : event) : Prop :=
  match e with
  | FindMiss _ | FindUpMiss _ | ReplaceSkipped | InsertSkipped => True
  | _ => False
  end.

(** The disk on which the temporary archive is written: the one given,
    with the output directory and its missing ancestors made when the
    directory was missing. *)
Definition with_output_dir (self : ModApplicator) (disk : Disk) : Disk :=
  if exists_ disk (output_dir self) then disk
  else mkdir_parents disk (output_dir self).

(** The working file table at the end of the mod loop of one run. *)
Definition final_table (ET_parse : bytes -> option Element)
  (self : ModApplicator) (disk : Disk) : pydict :=
  (process_mods ET_parse self disk (enabled_mods self) []).1.

(** The keys of the table, in order. *)
Definition dict_keys (d : pydict) : list str := map fst d.

(** What an edit block finds for its target: the table's content, or else
    the base archive's member of that name. *)
Definition target_content (self : ModApplicator) (disk : Disk)
  (tbl : pydict) (target : str) : option bytes :=
  match dict_get tbl target with
  | Some c => Some c
  | None =>
      match open_zip disk (resources0_path self) with
      | Some z_base =>
          if bool_decide (target ∈ namelist z_base)
          then zip_read z_base target else None
      | None => None
      end
  end.

(** A mod touches a path when its package ships a member stored under that
    path, or an edit block of its manifest names the path. *)
Definition mod_touches (ET_parse : bytes -> option Element) (disk : Disk)
  (m : Mod) (p : str) : Prop :=
  exists z_mod, open_zip disk (file_path m) = Some z_mod
    /\ ((exists i, i ∈ z_mod
           /\ str_replace (filename i) (lit "\") (lit "/") = p)
        \/ (exists root node,
              ET_parse (default [] (zip_read z_mod (lit "mod.xml")))
              = Some root
              /\ node ∈ findall_editfile root
              /\ elem_get node (lit "name") = Some p)).

(** Byte strings whose elements are bytes. *)
Definition bytes_ok (b : bytes) : Prop := Forall (fun x => 0 <= x < 256) b.

(** ** Manifest fragments used in the examples *)

Definition find_node (t : string) : Element :=
  Elem (lit "find") [] (Some (lit t)) [].
Definition findup_node (t : string) (position : option string) : Element :=
  Elem (lit "findup")
       (match position with
        | Some p => [(lit "position", lit p)]
        | None => []
        end) (Some (lit t)) [].
Definition replace_node (t : string) : Element :=
  Elem (lit "replace") [] (Some (lit t)) [].
Definition insert_node (t : string) (position : option string) : Element :=
  Elem (lit "insert")
       (match position with
        | Some p => [(lit "position", lit p)]
        | None => []
        end) (Some (lit t)) [].
Definition editfile_node (name : string) (cs : list Element) : Element :=
  Elem (lit "editfile") [(lit "name", lit name)] None cs.
Definition manifest (blocks : list Element) : Element :=
  Elem (lit "modification") [] None blocks.

(** ** A small installation used in the examples *)

Definition sample_game_root : Path := ["game"%string].
Definition sample_resources : Path :=
  ["game"%string; "heroes of newerth"%string; "resources0.jz"%string].

Definition sample_base : ZipFile :=
  [mkZipInfo (lit "ui/main.txt") (lit "hello world");
   mkZipInfo (lit "ui/other.txt") (lit "untouched");
   mkZipInfo (lit "ui/empty.txt") []].

(** Mod A ships one texture and rewrites "world" in ui/main.txt. *)
Definition manifest_A : Element :=
  manifest [editfile_node "ui/main.txt"
              [find_node "world"; replace_node "mods"]].
Definition package_A : ZipFile :=
  [mkZipInfo (lit "mod.xml") (lit "A");
   mkZipInfo (lit "textures/a.tga") (lit "pixels")].

(** Mod B looks for the text mod A put into ui/main.txt. *)
Definition manifest_B : Element :=
  manifest [editfile_node "ui/main.txt"
              [find_node "mods"; insert_node "!" None]].
Definition package_B : ZipFile := [mkZipInfo (lit "mod.xml") (lit "B")].

(** Mod E edits a file that is not there, then the zero-length file, then
    ui/main.txt. *)
Definition manifest_E : Element :=
  manifest [editfile_node "ui/missing.txt" [find_node "x"];
            editfile_node "ui/empty.txt"
              [find_node EmptyString; replace_node "filled"];
            editfile_node "ui/main.txt"
              [find_node "hello"; replace_node "bye"]].
Definition package_E : ZipFile := [mkZipInfo (lit "mod.xml") (lit "E")].

(** The parser on the three manifests above. *)
Definition sample_parse (b : bytes) : option Element :=
  if str_eqb b (lit "A") then Some manifest_A
  else if str_eqb b (lit "B") then Some manifest_B
  else if str_eqb b (lit "E") then Some manifest_E
  else None.

Definition mod_path (name : string) : Path :=
  ["game"%string; "extensions"%string; "mods"%string; name].

Definition mod_A : Mod := mkMod (lit "A") true (mod_path "a.honmod").
Definition mod_B : Mod := mkMod (lit "B") true (mod_path "b.honmod").
Definition mod_E : Mod := mkMod (lit "E") true (mod_path "e.honmod").

Definition sample_applicator (mods : list Mod) : ModApplicator :=
  mkApplicator sample_game_root sample_resources mods.

(** The archive left by an earlier run. *)
Definition previous_output : ZipFile :=
  [mkZipInfo (lit "ui/main.txt") (lit "hello old mods")].

Definition sample_disk : Disk :=
  <[sample_resources := Zip sample_base]>
  (<[mod_path "a.honmod" := Zip package_A]>
  (<[mod_path "b.honmod" := Zip package_B]>
  (<[mod_path "e.honmod" := Zip package_E]>
  (<[["game"%string; "extensions"%string] := Dir]>
  (<[["game"%string; "extensions"%string; "resources0.jz"%string]
       := Zip previous_output]> ∅))))).

(** Mod S looks for the text mod A put into ui/main.txt, and ships a
    ui/main.txt of its own. *)
Definition manifest_S : Element :=
  manifest [editfile_node "ui/main.txt" [find_node "mods"]].
Definition package_S : ZipFile :=
  [mkZipInfo (lit "mod.xml") (lit "S");
   mkZipInfo (lit "ui/main.txt") (lit "hello again")].
Definition parse_S (b : bytes) : option Element :=
  if str_eqb b (lit "S") then Some manifest_S else sample_parse b.
Definition mod_S : Mod := mkMod (lit "S") true (mod_path "s.honmod").
Definition disk_S : Disk :=
  <[mod_path "s.honmod" := Zip package_S]> sample_disk.

(** The rename of the commit is refused. *)
Definition rename_refused : Oracle :=
  mkOracle None None None (Some (lit "access denied")) None.

(** A state of the interpreter right after "foo" was found in a buffer. *)
Definition state_after_find : MatchState :=
  mkState (lit "a foo b foo") 5 2 5.

(** A state with the cursor in the buffer and no match so far. *)
Definition state_no_match : MatchState :=
  mkState (lit "a foo b foo") 4 (-1) (-1).

(** Writing the temporary archive fails half way. *)
Definition write_interrupted : Oracle :=
  mkOracle None (Some (lit "disk full", true)) None None None.

(** A file with a lone carriage return, and two blocks that use one
    literal with line feeds: the first splices it in, the second searches
    for it. *)
Definition cr_table : pydict := [(lit "ui/cr.txt", [CR; 98])].
Definition two_lines : str := [LF; 99; LF; 100].
Definition block_cr_A : Element :=
  Elem (lit "editfile") [(lit "name", lit "ui/cr.txt")] None
       [find_node "b"; Elem (lit "replace") [] (Some two_lines) []].
Definition block_cr_B : Element :=
  Elem (lit "editfile") [(lit "name", lit "ui/cr.txt")] None
       [Elem (lit "find") [] (Some two_lines) []].

(** ** Tactics for the comparisons of the codec *)

Ltac divlia := Z.div_mod_to_equations; lia.

(** Decide each comparison of the goal by arithmetic. *)
Ltac decide_tests :=
  repeat match goal with
    | |- context [?a <? ?b] =>
        first [ rewrite (proj2 (Z.ltb_lt a b)) by divlia
              | rewrite (proj2 (Z.ltb_ge a b)) by divlia ]
    | |- context [?a <=? ?b] =>
        first [ rewrite (proj2 (Z.leb_le a b)) by divlia
              | rewrite (proj2 (Z.leb_gt a b)) by divlia ]
    end.

Ltac tests_to_props :=
  repeat match goal with
    | H : (_ <? _) = true |- _ => apply Z.ltb_lt in H
    | H : (_ <? _) = false |- _ => apply Z.ltb_ge in H
    | H : (_ <=? _) = true |- _ => apply Z.leb_le in H
    | H : (_ <=? _) = false |- _ => apply Z.leb_gt in H
    end.

(** ** Notions used for the line endings *)

(** A text with every line feed written as carriage return, line feed. *)
Definition crlf_of (t : str) : str :=
  flat_map (fun c => if c =? LF then [CR; LF] else [c]) t.

(** ** Notions used for the asset injection *)

(** The key under which a package member is stored in the table. *)
Definition stored_name (i : ZipInfo) : str :=
  str_replace (filename i) (lit "\") (lit "/").

(** The members the injection loop copies: no directories, no reserved
    names. *)
Definition is_asset (i : ZipInfo) : Prop :=
  is_dir i = false /\ str_lower (stored_name i) ∉ ignored_files.

(** ** More sample data *)

(** A mod whose package is not on the disk. *)
Definition mod_missing : Mod := mkMod (lit "M") true (mod_path "m.honmod").

(** A package that stores one asset twice, the first time under a name
    with a backslash, and carries a manifest. *)
Definition asset_first : ZipInfo := mkZipInfo (lit "ui\a.txt") (lit "one").
Definition asset_last : ZipInfo := mkZipInfo (lit "ui/a.txt") (lit "two").
Definition package_twice : ZipFile :=
  [asset_first; asset_last; mkZipInfo (lit "Mod.XML") (lit "A")].

(** A table that holds ui/main.txt as the base archive has it, and a
    block whose directives change nothing there. *)
Definition main_table : pydict := [(lit "ui/main.txt", lit "hello world")].
Definition idle_block : Element :=
  editfile_node "ui/main.txt" [find_node "zzz"; replace_node "x"].

(** A file in Latin-1 and a block without directives for it. *)
Definition latin1_table : pydict := [(lit "ui/l1.txt", [233])].
Definition empty_block : Element := editfile_node "ui/l1.txt" [].

(** Three items in a layout 100 wide: two fit on the first row, the
    third starts the second row. *)
Definition sample_layout : FlowLayout :=
  mkLayout 5 5 [mkSize 40 20; mkSize 40 30; mkSize 40 10].
Definition sample_rect : QRect := mkRect 0 0 100 0.

(** A package with a manifest that names the mod and its version. *)
Definition manifest_big : Element :=
  Elem (lit "modification") [(lit "name", lit "Big Mod")] None
       [Elem (lit "version") [] (Some (lit "2.0")) []].
Definition package_big : ZipFile := [mkZipInfo (lit "mod.xml") (lit "G")].
Definition parse_big (b : bytes) : option Element :=
  if str_eqb b (lit "G") then Some manifest_big else None.
Definition library_disk : Disk :=
  <[mod_path "big.honmod" := Zip package_big]> sample_disk.
Definition info_big : ModInfo :=
  mkInfo (lit "big_mod") (lit "Big Mod") (lit "Unknown") (lit "2.0")
         (lit "Installed") true (lit "No description provided.") None
         (mod_path "big.honmod").

(** A second package of the same mod, installed and enabled as well. *)
Definition info_big_copy : ModInfo :=
  mkInfo (lit "big_mod") (lit "Big Mod") (lit "Unknown") (lit "2.0")
         (lit "Installed") true (lit "No description provided.") None
         (mod_path "big copy.honmod").

(** ** Notions used for the layout *)

(** The values of a C [int]. *)
Definition in_int32 (z : Z) : Prop := -2147483648 <= z <= 2147483647.

(** ** More sample data for the failures *)

(** A package whose second asset cannot be read. *)
Definition package_broken : ZipFile :=
  [mkZipInfo (lit "a.txt") (lit "one"); Member (lit "b.txt") None;
   mkZipInfo (lit "c.txt") (lit "three"); mkZipInfo (lit "mod.xml") (lit "A")].
Definition mod_broken : Mod :=
  mkMod (lit "K") true (mod_path "broken.honmod").
Definition disk_broken : Disk :=
  <[mod_path "broken.honmod" := Zip package_broken]> sample_disk.

(** A disk that holds the base archive and nothing else: the game
    directory itself is not there. *)
Definition bare_disk : Disk := {[sample_resources := Zip sample_base]}.

(** A rectangle 100 wide that ends past the largest C [int]. *)
Definition far_rect : QRect := mkRect 2147483600 0 100 0.

(** * The text codecs *)

(** Decoding reads back a code point that was just encoded. *)
Lemma utf8_decode_encode_char (c : Z) (bs rest : bytes) :
  utf8_encode_char c = Some bs ->
  utf8_decode (bs ++ rest) = cons c <$> utf8_decode rest.
Proof.
  unfold utf8_encode_char, is_surrogate. intros H.
  repeat case_match; simplify_eq;
    try match goal with
      | H : _ && _ = false |- _ => apply andb_false_iff in H
      end;
    tests_to_props; cbn [app utf8_decode]; unfold is_cont, is_surrogate.
  - by decide_tests.
  - decide_tests. cbn [andb]. do 2 f_equal. divlia.
  - decide_tests. cbn [andb negb].
    replace ((224 + c / 4096 - 224) * 4096
             + (128 + (c / 64) mod 64 - 128) * 64 + (128 + c mod 64 - 128))
      with c by divlia.
    decide_tests. cbn [andb negb].
    match goal with Hs : _ \/ _ |- _ => destruct Hs end; tests_to_props;
      [rewrite (proj2 (Z.leb_gt 55296 c)) by lia; cbn [andb negb]
      |rewrite (proj2 (Z.leb_gt c 57343)) by lia;
       rewrite andb_false_r; cbn [negb]]; done.
  - decide_tests. cbn [andb].
    replace ((240 + c / 262144 - 240) * 262144
             + (128 + (c / 4096) mod 64 - 128) * 4096
             + (128 + (c / 64) mod 64 - 128) * 64 + (128 + c mod 64 - 128))
      with c by divlia.
    by decide_tests.
Qed.

(** Text that encodes decodes to itself. *)
Lemma utf8_decode_encode (t : str) (b : bytes) :
  utf8_encode t = Some b -> utf8_decode b = Some t.
Proof.
  revert b. induction t as [|c t IH]; intros b; simpl.
  - by intros [= <-].
  - destruct (utf8_encode_char c) as [bs|] eqn:Ec; [|done].
    destruct (utf8_encode t) as [rest|]; [|done]. intros [= <-].
    rewrite (utf8_decode_encode_char c bs rest Ec).
    by rewrite (IH rest eq_refl).
Qed.

Lemma decode_content_encode (t : str) (b : bytes) :
  utf8_encode t = Some b -> decode_content b = t.
Proof.
  intros H. unfold decode_content. by rewrite (utf8_decode_encode t b H).
Qed.

Lemma utf8_encode_app (a b : str) :
  utf8_encode (a ++ b)
  = match utf8_encode a, utf8_encode b with
    | Some x, Some y => Some (x ++ y)
    | _, _ => None
    end.
Proof.
  induction a as [|c a IH]; simpl.
  - by destruct (utf8_encode b).
  - rewrite IH. destruct (utf8_encode_char c) as [bs|]; [|done].
    destruct (utf8_encode a), (utf8_encode b); try done.
    by rewrite (assoc_L (++)).
Qed.

Lemma utf8_encode_char_nonempty (c : Z) (bs : bytes) :
  utf8_encode_char c = Some bs -> bs <> [].
Proof.
  unfold utf8_encode_char. intros H. repeat case_match; by simplify_eq.
Qed.

(** Only the empty text encodes to no bytes. *)
Lemma utf8_encode_nil (t : str) : utf8_encode t = Some [] -> t = [].
Proof.
  destruct t as [|c t]; [done |]. simpl.
  destruct (utf8_encode_char c) as [bs|] eqn:Ec; [|done].
  destruct (utf8_encode t); [|done]. intros [= H].
  apply app_eq_nil in H as [-> _]. by apply utf8_encode_char_nonempty in Ec.
Qed.

(** Every code point that is no surrogate encodes. *)
Lemma utf8_encode_char_scalar (c : Z) :
  0 <= c < 1114112 -> is_surrogate c = false ->
  is_Some (utf8_encode_char c).
Proof.
  intros Hc Hs. unfold utf8_encode_char. rewrite Hs.
  repeat case_match; tests_to_props; try done; exfalso; lia.
Qed.

Lemma utf8_encode_cons (c : Z) (t : str) :
  is_Some (utf8_encode_char c) -> is_Some (utf8_encode t) ->
  is_Some (utf8_encode (c :: t)).
Proof. intros [x Hx] [y Hy]. simpl. by rewrite Hx, Hy. Qed.

(** What the decoder accepts can be encoded again. *)
Lemma utf8_decode_encodes (n : nat) (b : bytes) (t : str) :
  (length b <= n)%nat -> bytes_ok b ->
  utf8_decode b = Some t -> is_Some (utf8_encode t).
Proof.
  revert b t. induction n as [|n IH]; intros b t Hn Hb.
  { destruct b; [|simpl in Hn; lia]. by intros [= <-]. }
  destruct b as [|b0 r0]; [by intros [= <-] |].
  apply Forall_cons in Hb as [Hb0 Hr0]. cbn [utf8_decode].
  assert (Hstep : forall (c : Z) (r : bytes) (t0 : str),
            (length r <= n)%nat -> bytes_ok r ->
            is_Some (utf8_encode_char c) ->
            cons c <$> utf8_decode r = Some t0 ->
            is_Some (utf8_encode t0)).
  { intros c r t0 Hlen Hr Hc Hd.
    destruct (utf8_decode r) as [t'|] eqn:Er; [|done].
    injection Hd as <-. apply utf8_encode_cons; [done |].
    by apply (IH r t'). }
  simpl in Hn. unfold is_cont.
  destruct (Z.ltb_spec b0 128).
  { intros Hd. eapply Hstep; [| | |exact Hd]; [lia | done |].
    apply utf8_encode_char_scalar; [lia |].
    unfold is_surrogate. apply andb_false_iff. rewrite !Z.leb_gt. lia. }
  destruct (Z.ltb_spec b0 194); [done |].
  destruct (Z.ltb_spec b0 224).
  { destruct r0 as [|b1 r1]; [done |].
    apply Forall_cons in Hr0 as [Hb1 Hr1].
    destruct ((128 <=? b1) && (b1 <=? 191)) eqn:E1; [|done].
    apply andb_true_iff in E1 as [? ?]. tests_to_props.
    intros Hd. eapply Hstep; [| | |exact Hd]; [simpl in Hn; lia | done |].
    apply utf8_encode_char_scalar; [lia |].
    unfold is_surrogate. apply andb_false_iff. rewrite !Z.leb_gt. lia. }
  destruct (Z.ltb_spec b0 240).
  { destruct r0 as [|b1 [|b2 r2]]; [done | done |].
    apply Forall_cons in Hr0 as [Hb1 Hr1].
    apply Forall_cons in Hr1 as [Hb2 Hr2].
    destruct (_ && _) eqn:E; [|done].
    repeat match goal with
      | H : _ && _ = true |- _ => apply andb_true_iff in H as [? ?]
      end.
    tests_to_props.
    intros Hd. eapply Hstep; [| | |exact Hd]; [simpl in Hn; lia | done |].
    apply utf8_encode_char_scalar; [lia | by apply negb_true_iff]. }
  destruct (Z.ltb_spec b0 245); [|done].
  destruct r0 as [|b1 [|b2 [|b3 r3]]]; [done | done | done |].
  apply Forall_cons in Hr0 as [Hb1 Hr1].
  apply Forall_cons in Hr1 as [Hb2 Hr2].
  apply Forall_cons in Hr2 as [Hb3 Hr3].
  destruct (_ && _) eqn:E; [|done].
  repeat match goal with
    | H : _ && _ = true |- _ => apply andb_true_iff in H as [? ?]
    end.
  tests_to_props.
  intros Hd. eapply Hstep; [| | |exact Hd]; [simpl in Hn; lia | done |].
  apply utf8_encode_char_scalar; [lia |].
  unfold is_surrogate. apply andb_false_iff. rewrite !Z.leb_gt. lia.
Qed.

Lemma latin1_encodes (b : bytes) :
  bytes_ok b -> is_Some (utf8_encode (latin1_decode b)).
Proof.
  unfold latin1_decode. induction 1 as [|c b Hc Hb IH]; [done |].
  apply utf8_encode_cons; [|done]. apply utf8_encode_char_scalar; [lia |].
  unfold is_surrogate. apply andb_false_iff. rewrite !Z.leb_gt. lia.
Qed.

(** The decoded content of a file can always be stored back. *)
Lemma decode_content_encodes (b : bytes) :
  bytes_ok b -> is_Some (utf8_encode (decode_content b)).
Proof.
  intros Hb. unfold decode_content.
  destruct (utf8_decode b) as [t|] eqn:E.
  - by apply (utf8_decode_encodes (length b) b t).
  - by apply latin1_encodes.
Qed.

(** * Facts about the string primitives *)

Lemma py_len_app (a b : str) : py_len (a ++ b) = py_len a + py_len b.
Proof. unfold py_len. rewrite length_app. lia. Qed.

Lemma py_len_nonneg (s : str) : 0 <= py_len s.
Proof. unfold py_len. lia. Qed.

Lemma startswith_prefix (s sub : str) :
  startswith s sub = true <-> exists post, s = sub ++ post.
Proof.
  revert s. induction sub as [|c sub IH]; intros s; simpl.
  - split; [intros _; by exists s | reflexivity].
  - destruct s as [|d s]; simpl.
    + split; [done | intros [post H]; discriminate].
    + rewrite andb_true_iff, Z.eqb_eq, IH. split.
      * intros [-> [post ->]]. by exists post.
      * intros [post H]. injection H as -> ->. eauto.
Qed.

Lemma startswith_app (sub post : str) : startswith (sub ++ post) sub = true.
Proof. apply startswith_prefix. by exists post. Qed.

Lemma occurs_at_drop (s sub : str) (k : nat) :
  (k <= length s)%nat ->
  startswith (drop k s) sub = true <-> occurs_at s sub (Z.of_nat k).
Proof.
  intros Hk. rewrite startswith_prefix. split.
  - intros [post H]. exists (take k s), post. split.
    + by rewrite <- H, take_drop.
    + unfold py_len. rewrite length_take. lia.
  - intros (pre & post & -> & Hlen). exists post.
    unfold py_len in Hlen. apply Nat2Z.inj in Hlen. subst k.
    by rewrite drop_app_length.
Qed.

Lemma occurs_at_bounds (s sub : str) (k : Z) :
  occurs_at s sub k -> 0 <= k /\ k + py_len sub <= py_len s.
Proof.
  intros (pre & post & -> & <-). rewrite !py_len_app.
  pose proof (py_len_nonneg pre). pose proof (py_len_nonneg post). lia.
Qed.

(** What the forward scan returns. *)
Lemma find_scan_spec (sub s : str) (i : Z) :
  (exists k : nat, (k <= length s)%nat
     /\ startswith (drop k s) sub = true
     /\ find_scan s sub i = i + Z.of_nat k
     /\ forall j : nat, (j < k)%nat -> startswith (drop j s) sub = false)
  \/ ((forall k : nat, (k <= length s)%nat ->
         startswith (drop k s) sub = false)
      /\ find_scan s sub i = -1).
Proof.
  revert i. induction s as [|c s IH]; intros i.
  - simpl. destruct (startswith [] sub) eqn:E.
    + left. exists 0%nat. simpl. repeat split; [lia | done | lia | lia].
    + right. split; [|done]. intros k Hk. simpl in Hk.
      by replace k with 0%nat by lia.
  - cbn [find_scan]. destruct (startswith (c :: s) sub) eqn:E.
    + left. exists 0%nat. simpl. repeat split; [lia | done | lia | lia].
    + destruct (IH (i + 1)) as [(k & Hk & Hs & Hr & Hmin) | [Hno Hr]].
      * left. exists (S k). simpl. repeat split; [lia | done | lia |].
        intros [|j] Hj; [done | simpl; apply Hmin; lia].
      * right. split; [|done]. intros [|k] Hk; [done |].
        simpl. apply Hno. simpl in Hk. lia.
Qed.

(** What the backward scan returns. *)
Lemma rfind_scan_spec (sub s : str) (i acc : Z) :
  (exists k : nat, (k <= length s)%nat
     /\ startswith (drop k s) sub = true
     /\ rfind_scan s sub i acc = i + Z.of_nat k
     /\ forall j : nat, (j <= length s)%nat ->
          startswith (drop j s) sub = true -> (j <= k)%nat)
  \/ ((forall k : nat, (k <= length s)%nat ->
         startswith (drop k s) sub = false)
      /\ rfind_scan s sub i acc = acc).
Proof.
  revert i acc. induction s as [|c s IH]; intros i acc.
  - simpl. destruct (startswith [] sub) eqn:E.
    + left. exists 0%nat. simpl. repeat split; [lia | done | lia | lia].
    + right. split; [|done]. intros k Hk. simpl in Hk.
      by replace k with 0%nat by lia.
  - cbn [rfind_scan].
    destruct (IH (i + 1) (if startswith (c :: s) sub then i else acc))
      as [(k & Hk & Hs & Hr & Hmax) | [Hno Hr]].
    + left. exists (S k). simpl. repeat split; [lia | done | lia |].
      intros [|j] Hj Hj'; [lia |]. simpl in Hj, Hj'.
      apply le_n_S, Hmax; [lia | done].
    + rewrite Hr. destruct (startswith (c :: s) sub) eqn:E.
      * left. exists 0%nat. simpl. repeat split; [lia | done | lia |].
        intros [|j] Hj Hj'; [lia |]. simpl in Hj, Hj'.
        rewrite Hno in Hj'; [done | lia].
      * right. split; [|done]. intros [|k] Hk; [done |].
        simpl. apply Hno. simpl in Hk. lia.
Qed.

Lemma occurs_at_take (s sub : str) (n : nat) (k : Z) :
  (n <= length s)%nat ->
  occurs_at (take n s) sub k
  <-> occurs_at s sub k /\ k + py_len sub <= Z.of_nat n.
Proof.
  intros Hn. split.
  - intros (pre & post & H & Hlen). split.
    + exists pre, (post ++ drop n s). split; [|done].
      rewrite <- (take_drop n s) at 1. rewrite H.
      by rewrite <- !(assoc_L (++)).
    + apply (f_equal length) in H.
      rewrite length_take, !length_app in H. unfold py_len in *. lia.
  - intros [(pre & post & -> & Hlen) Hle].
    exists pre, (take (n - length pre - length sub) post). split; [|done].
    unfold py_len in *.
    rewrite take_app_ge by lia. f_equal.
    rewrite take_app_ge by lia. done.
Qed.

(** [s.find(sub, start)] for a start inside the string: the first
    occurrence at or after [start], or [-1] when there is none. *)
Lemma str_find_spec (s sub : str) (start : Z) :
  0 <= start <= py_len s ->
  (str_find s sub start = -1
   /\ forall k, occurs_at s sub k -> k < start)
  \/ (start <= str_find s sub start
      /\ occurs_at s sub (str_find s sub start)
      /\ forall k, occurs_at s sub k -> start <= k ->
           str_find s sub start <= k).
Proof.
  intros Hst. unfold str_find.
  destruct (Z.ltb_spec start 0) as [?|_]; [lia |].
  destruct (Z.ltb_spec (py_len s) start) as [?|_]; [lia |].
  set (n := Z.to_nat start).
  assert (Hn : (n <= length s)%nat) by (unfold py_len in Hst; lia).
  assert (En : start = Z.of_nat n) by lia.
  destruct (find_scan_spec sub (drop n s) start)
    as [(k & Hk & Hs & -> & Hmin) | [Hno ->]].
  - right. rewrite length_drop in Hk. rewrite drop_drop in Hs.
    apply occurs_at_drop in Hs; [|lia].
    replace (start + Z.of_nat k) with (Z.of_nat (n + k)) by lia.
    split; [lia |]. split; [done |].
    intros j Hj Hle. destruct (occurs_at_bounds _ _ _ Hj) as [Hj0 Hj1].
    destruct (Z.lt_ge_cases j (Z.of_nat (n + k))) as [Hlt|?]; [|lia].
    exfalso.
    assert (Hb : (Z.to_nat j - n < k)%nat) by lia.
    specialize (Hmin _ Hb). rewrite drop_drop in Hmin.
    replace (n + (Z.to_nat j - n))%nat with (Z.to_nat j) in Hmin by lia.
    replace j with (Z.of_nat (Z.to_nat j)) in Hj by lia.
    apply occurs_at_drop in Hj; [congruence |].
    pose proof (py_len_nonneg sub). unfold py_len in *. lia.
  - left. split; [done |]. intros j Hj.
    destruct (occurs_at_bounds _ _ _ Hj) as [Hj0 Hj1].
    destruct (Z.lt_ge_cases j start) as [?|Hge]; [done |]. exfalso.
    pose proof (py_len_nonneg sub).
    assert (Hb : (Z.to_nat j - n <= length (drop n s))%nat)
      by (rewrite length_drop; unfold py_len in *; lia).
    specialize (Hno _ Hb). rewrite drop_drop in Hno.
    replace (n + (Z.to_nat j - n))%nat with (Z.to_nat j) in Hno by lia.
    replace j with (Z.of_nat (Z.to_nat j)) in Hj by lia.
    apply occurs_at_drop in Hj; [congruence |].
    unfold py_len in *. lia.
Qed.

(** [s.rfind(sub, 0, stop)] for a bound inside the string: the last
    occurrence that ends at or before [stop], or [-1] when there is none. *)
Lemma str_rfind_spec (s sub : str) (stop : Z) :
  0 <= stop <= py_len s ->
  (str_rfind s sub stop = -1
   /\ forall k, occurs_at s sub k -> stop < k + py_len sub)
  \/ (occurs_at s sub (str_rfind s sub stop)
      /\ str_rfind s sub stop + py_len sub <= stop
      /\ forall k, occurs_at s sub k -> k + py_len sub <= stop ->
           k <= str_rfind s sub stop).
Proof.
  intros Hst. unfold str_rfind, slice_to, slice_index.
  destruct (Z.ltb_spec stop 0) as [?|_]; [lia |].
  rewrite Z.min_l by lia.
  set (n := Z.to_nat stop).
  assert (Hn : (n <= length s)%nat) by (unfold py_len in Hst; lia).
  assert (En : stop = Z.of_nat n) by lia.
  assert (Hlen : length (take n s) = n) by (rewrite length_take; lia).
  destruct (rfind_scan_spec sub (take n s) 0 (-1))
    as [(k & Hk & Hs & -> & Hmax) | [Hno ->]].
  - right. rewrite Hlen in Hk, Hmax.
    apply occurs_at_drop in Hs; [|lia].
    apply occurs_at_take in Hs as [Hs Hle]; [|done].
    rewrite Z.add_0_l. split; [done |]. split; [lia |].
    intros j Hj Hjle. destruct (occurs_at_bounds _ _ _ Hj) as [Hj0 Hj1].
    pose proof (py_len_nonneg sub).
    assert (Hb : (Z.to_nat j <= n)%nat) by lia.
    specialize (Hmax _ Hb).
    assert (Ho : occurs_at (take n s) sub (Z.of_nat (Z.to_nat j))).
    { apply occurs_at_take; [done |].
      replace (Z.of_nat (Z.to_nat j)) with j by lia. split; [done | lia]. }
    apply occurs_at_drop in Ho; [|lia]. specialize (Hmax Ho). lia.
  - left. split; [done |]. intros j Hj.
    destruct (occurs_at_bounds _ _ _ Hj) as [Hj0 Hj1].
    pose proof (py_len_nonneg sub).
    destruct (Z.lt_ge_cases stop (j + py_len sub)) as [?|Hge]; [done |].
    exfalso.
    assert (Hb : (Z.to_nat j <= length (take n s))%nat) by lia.
    specialize (Hno _ Hb).
    assert (Ho : occurs_at (take n s) sub (Z.of_nat (Z.to_nat j))).
    { apply occurs_at_take; [done |].
      replace (Z.of_nat (Z.to_nat j)) with j by lia. split; [done | lia]. }
    apply occurs_at_drop in Ho; [congruence | lia].
Qed.

(** * The working file table *)

Lemma str_eqb_eq (a b : str) : str_eqb a b = true <-> a = b.
Proof. unfold str_eqb. apply bool_decide_eq_true. Qed.

Lemma str_eqb_refl (a : str) : str_eqb a a = true.
Proof. by apply str_eqb_eq. Qed.

Lemma str_eqb_ne (a b : str) : a <> b -> str_eqb a b = false.
Proof. unfold str_eqb. apply bool_decide_eq_false_2. Qed.

Lemma dict_get_set_eq (d : pydict) (k : str) (v : bytes) :
  dict_get (dict_set d k v) k = Some v.
Proof.
  induction d as [|[k' v'] r IH]; simpl.
  - by rewrite str_eqb_refl.
  - destruct (str_eqb k' k) eqn:E; simpl; by rewrite E.
Qed.

Lemma dict_get_set_ne (d : pydict) (k k' : str) (v : bytes) :
  k <> k' -> dict_get (dict_set d k v) k' = dict_get d k'.
Proof.
  intros Hne. induction d as [|[k0 v0] r IH]; simpl.
  - by rewrite str_eqb_ne.
  - destruct (str_eqb k0 k) eqn:E; simpl.
    + apply str_eqb_eq in E as ->. by rewrite str_eqb_ne.
    + by rewrite IH.
Qed.

Lemma dict_set_set (d : pydict) (k : str) (v v' : bytes) :
  dict_set (dict_set d k v) k v' = dict_set d k v'.
Proof.
  induction d as [|[k0 v0] r IH]; simpl.
  - by rewrite str_eqb_refl.
  - destruct (str_eqb k0 k) eqn:E; simpl; rewrite E; [done |].
    by rewrite IH.
Qed.

Lemma dict_mem_true (d : pydict) (k : str) :
  dict_mem d k = true <-> is_Some (dict_get d k).
Proof. unfold dict_mem. destruct (dict_get d k); split; intros H; done. Qed.

Lemma dict_mem_false (d : pydict) (k : str) :
  dict_mem d k = false <-> dict_get d k = None.
Proof. unfold dict_mem. by destruct (dict_get d k). Qed.

Lemma dict_get_None_keys (d : pydict) (k : str) :
  dict_get d k = None <-> k ∉ dict_keys d.
Proof.
  induction d as [|[k' v'] r IH]; simpl.
  - split; [intros _; apply not_elem_of_nil | done].
  - rewrite not_elem_of_cons. destruct (str_eqb k' k) eqn:E.
    + apply str_eqb_eq in E as ->. split; [done | by intros [? _]].
    + rewrite IH. split; [|by intros [_ ?]]. intros H. split; [|done].
      intros ->. by rewrite str_eqb_refl in E.
Qed.

Lemma dict_keys_set (d : pydict) (k : str) (v : bytes) :
  dict_keys (dict_set d k v)
  = if dict_mem d k then dict_keys d else dict_keys d ++ [k].
Proof.
  unfold dict_mem. induction d as [|[k' v'] r IH]; simpl; [done |].
  destruct (str_eqb k' k) eqn:E; simpl; [done |].
  rewrite IH. by destruct (dict_get r k).
Qed.

(** Writing a key keeps the keys distinct. *)
Lemma dict_set_NoDup (d : pydict) (k : str) (v : bytes) :
  NoDup (dict_keys d) -> NoDup (dict_keys (dict_set d k v)).
Proof.
  intros Hnd. rewrite dict_keys_set. destruct (dict_mem d k) eqn:E; [done |].
  apply dict_mem_false, dict_get_None_keys in E.
  apply NoDup_app. split; [done |]. split.
  - intros x Hx Hx'. apply list_elem_of_singleton in Hx'. by subst.
  - apply NoDup_singleton.
Qed.

Lemma getinfo_zip_of_dict (d : pydict) (k : str) :
  NoDup (dict_keys d) ->
  getinfo (zip_of_dict d) k = mkZipInfo k <$> dict_get d k.
Proof.
  induction d as [|[k' v'] r IH]; simpl; [done |].
  intros Hnd. apply NoDup_cons in Hnd as [Hk' Hnd]. rewrite IH by done.
  destruct (str_eqb k' k) eqn:E.
  - apply str_eqb_eq in E as ->.
    apply dict_get_None_keys in Hk'. by rewrite Hk'.
  - by destruct (dict_get r k).
Qed.

(** The archive written from a table reads as the table. *)
Lemma content_mapping_zip_of_dict (d : pydict) (k : str) :
  NoDup (dict_keys d) ->
  content_mapping (zip_of_dict d) k = dict_get d k.
Proof.
  intros Hnd. unfold content_mapping, zip_read.
  rewrite getinfo_zip_of_dict by done. by destruct (dict_get d k).
Qed.

(** * The patch directive interpreter *)

Lemma slice_to_take (s : str) (i : Z) :
  0 <= i <= py_len s -> slice_to s i = take (Z.to_nat i) s.
Proof.
  intros H. unfold slice_to, slice_index.
  destruct (Z.ltb_spec i 0); [lia |]. by rewrite Z.min_l by lia.
Qed.

Lemma slice_from_drop (s : str) (i : Z) :
  0 <= i <= py_len s -> slice_from s i = drop (Z.to_nat i) s.
Proof.
  intros H. unfold slice_from, slice_index.
  destruct (Z.ltb_spec i 0); [lia |]. by rewrite Z.min_l by lia.
Qed.

Lemma slice_take_drop (s : str) (i j : Z) :
  0 <= i <= j -> j <= py_len s ->
  slice s i j = take (Z.to_nat (j - i)) (drop (Z.to_nat i) s).
Proof.
  intros Hi Hj. unfold slice, slice_index.
  destruct (Z.ltb_spec i 0); [lia |]. destruct (Z.ltb_spec j 0); [lia |].
  by rewrite !Z.min_l by lia.
Qed.

Lemma py_len_slice_to (s : str) (i : Z) :
  0 <= i <= py_len s -> py_len (slice_to s i) = i.
Proof.
  intros H. rewrite slice_to_take by done. unfold py_len in *.
  rewrite length_take. lia.
Qed.

Lemma py_len_slice_from (s : str) (i : Z) :
  0 <= i <= py_len s -> py_len (slice_from s i) = py_len s - i.
Proof.
  intros H. rewrite slice_from_drop by done. unfold py_len in *.
  rewrite length_drop. lia.
Qed.

(** A buffer is its part before a span, the span, and the part after. *)
Lemma slice_split (s : str) (i j : Z) :
  0 <= i <= j -> j <= py_len s ->
  s = slice_to s i ++ slice s i j ++ slice_from s j.
Proof.
  intros Hi Hj.
  rewrite slice_to_take, slice_from_drop, slice_take_drop by lia.
  rewrite <- (take_drop (Z.to_nat i) s) at 1. f_equal.
  rewrite <- (take_drop (Z.to_nat (j - i)) (drop (Z.to_nat i) s)) at 1.
  f_equal. rewrite drop_drop. f_equal. lia.
Qed.

(** The span right after a prefix of known length. *)
Lemma slice_middle (pre mid post : str) :
  slice (pre ++ mid ++ post) (py_len pre) (py_len pre + py_len mid) = mid.
Proof.
  pose proof (py_len_nonneg pre). pose proof (py_len_nonneg mid).
  pose proof (py_len_nonneg post).
  rewrite slice_take_drop by (rewrite ?py_len_app; lia).
  unfold py_len. rewrite Nat2Z.id, drop_app_length.
  replace (Z.to_nat _) with (length mid) by lia.
  by rewrite take_app_length.
Qed.

Lemma occurs_at_app_r (a b sub : str) (k : Z) :
  py_len a <= k -> occurs_at (a ++ b) sub k ->
  occurs_at b sub (k - py_len a).
Proof.
  intros Hk Ho. destruct (occurs_at_bounds _ _ _ Ho) as [H0 H1].
  rewrite py_len_app in H1. pose proof (py_len_nonneg sub).
  replace k with (Z.of_nat (Z.to_nat k)) in Ho by lia.
  apply occurs_at_drop in Ho;
    [|rewrite length_app; unfold py_len in *; lia].
  replace (k - py_len a) with (Z.of_nat (Z.to_nat k - length a))
    by (unfold py_len in *; lia).
  apply occurs_at_drop; [unfold py_len in *; lia |].
  rewrite drop_app_ge in Ho by (unfold py_len in *; lia). done.
Qed.

(** ** Dispatch on the tag *)

Lemma process_child_find (newline_mode : str) (st : MatchState)
  (child : Element) :
  str_lower (elem_tag child) = lit "find" ->
  process_child newline_mode st child
  = do_find (search_text_of newline_mode child) st.
Proof. intros H. unfold process_child. by rewrite H. Qed.

Lemma process_child_findup (newline_mode : str) (st : MatchState)
  (child : Element) :
  str_lower (elem_tag child) = lit "findup" ->
  process_child newline_mode st child
  = do_findup (search_text_of newline_mode child)
              (elem_get child (lit "position")) st.
Proof. intros H. unfold process_child. by rewrite H. Qed.

Lemma process_child_replace (newline_mode : str) (st : MatchState)
  (child : Element) :
  str_lower (elem_tag child) = lit "replace" ->
  process_child newline_mode st child
  = do_replace (search_text_of newline_mode child) st.
Proof. intros H. unfold process_child. by rewrite H. Qed.

Lemma process_child_insert (newline_mode : str) (st : MatchState)
  (child : Element) :
  str_lower (elem_tag child) = lit "insert" ->
  process_child newline_mode st child
  = do_insert (search_text_of newline_mode child)
              (elem_get child (lit "position")) st.
Proof. intros H. unfold process_child. by rewrite H. Qed.

(** ** The four directives *)

Lemma do_replace_active (t : str) (st : MatchState) :
  match_start st <> -1 ->
  do_replace t st
  = (mkState (slice_to (text_content st) (match_start st) ++ t
              ++ slice_from (text_content st) (match_end st))
             (match_start st + py_len t) (match_start st)
             (match_start st + py_len t), [ReplaceApplied]).
Proof.
  intros H. unfold do_replace.
  by destruct (Z.eqb_spec (match_start st) (-1)).
Qed.

Lemma do_replace_inactive (t : str) (st : MatchState) :
  match_start st = -1 -> do_replace t st = (st, [ReplaceSkipped]).
Proof. intros H. unfold do_replace. by rewrite H. Qed.

Lemma do_insert_inactive (t : str) (position : option str)
  (st : MatchState) :
  match_start st = -1 -> do_insert t position st = (st, [InsertSkipped]).
Proof. intros H. unfold do_insert. by rewrite H. Qed.

(** A forward search that finds nothing. *)
Lemma do_find_miss (t : str) (st : MatchState) :
  0 <= cursor st <= py_len (text_content st) ->
  (forall k, occurs_at (text_content st) t k -> k < cursor st) ->
  do_find t st = (st, [FindMiss (slice_to t 20)]).
Proof.
  intros Hc Hno. unfold do_find.
  destruct (str_find_spec (text_content st) t (cursor st) Hc)
    as [[-> _] | (Hge & Ho & _)]; [done |].
  apply Hno in Ho. lia.
Qed.

(** A forward search that finds something. *)
Lemma do_find_hit (t : str) (st : MatchState) (k : Z) :
  0 <= cursor st <= py_len (text_content st) ->
  occurs_at (text_content st) t k -> cursor st <= k ->
  exists r, cursor st <= r <= k /\ occurs_at (text_content st) t r
    /\ do_find t st
       = (mkState (text_content st) (r + py_len t) r (r + py_len t),
          [FindMatch r]).
Proof.
  intros Hc Ho Hk. unfold do_find.
  destruct (str_find_spec (text_content st) t (cursor st) Hc)
    as [[_ Hno] | (Hge & Hr & Hmin)].
  - apply Hno in Ho. lia.
  - exists (str_find (text_content st) t (cursor st)).
    split; [split; [done | by apply Hmin] |]. split; [done |].
    destruct (Z.eqb_spec (str_find (text_content st) t (cursor st)) (-1));
      [lia | done].
Qed.

(** Every directive keeps the state well formed. *)
Lemma process_child_wf (newline_mode : str) (st : MatchState)
  (child : Element) :
  wf_state st -> wf_state (fst (process_child newline_mode st child)).
Proof.
  intros [Hc Hm]. unfold process_child.
  set (t := search_text_of newline_mode child).
  pose proof (py_len_nonneg t) as Ht.
  repeat case_match; try (by split).
  - (* find *)
    unfold do_find.
    destruct (str_find_spec (text_content st) t (cursor st) Hc)
      as [[-> _] | (Hge & Ho & _)]; [by split |].
    apply occurs_at_bounds in Ho.
    case_match; [|by split]. split; simpl; lia.
  - (* findup *)
    unfold do_findup.
    set (stop := if negb (bool_decide _) then cursor st else _).
    assert (Hs : 0 <= stop <= py_len (text_content st))
      by (unfold stop; case_match; lia).
    destruct (str_rfind_spec (text_content st) t stop Hs)
      as [[-> _] | (Ho & _ & _)]; [by split |].
    apply occurs_at_bounds in Ho.
    case_match; [|by split]. split; simpl; lia.
  - (* replace *)
    unfold do_replace. destruct (Z.eqb_spec (match_start st) (-1));
      [by split |]. simpl. split; simpl; [|lia].
    rewrite !py_len_app, py_len_slice_to by lia.
    pose proof (py_len_nonneg (slice_from (text_content st) (match_end st))).
    lia.
  - (* insert *)
    unfold do_insert. destruct (Z.eqb_spec (match_start st) (-1));
      [by split |]. simpl. case_match; split; simpl; try lia.
    + rewrite !py_len_app, py_len_slice_to, py_len_slice_from by lia. lia.
    + rewrite !py_len_app, py_len_slice_to, py_len_slice_from by lia. lia.
Qed.

Lemma initial_state_wf (text : str) : wf_state (initial_state text).
Proof.
  split; simpl; [|by left]. pose proof (py_len_nonneg text). lia.
Qed.

(** C3. A [replace] with an active match span splices its text in place of
    the matched range, leaves [match_start], sets [match_end] to the end of
    the inserted text (so the span covers exactly that text) and moves the
    cursor there.  A following [find] then misses for any text that does
    not occur in the new buffer at or after the new cursor, which is the
    case exactly for the texts the old buffer did not hold at or after the
    old match end (such as the text just replaced, when it occurred nowhere
    later).  Without an active span the directive prints its message and
    changes nothing. *)
Theorem replace_directive (newline_mode : str) (st : MatchState)
  (child : Element) :
  wf_state st ->
  str_lower (elem_tag child) = lit "replace" ->
  let t := search_text_of newline_mode child in
  let st' := fst (process_child newline_mode st child) in
  (match_start st <> -1 ->
     process_child newline_mode st child = (st', [ReplaceApplied])
     /\ text_content st'
        = slice_to (text_content st) (match_start st) ++ t
          ++ slice_from (text_content st) (match_end st)
     /\ match_start st' = match_start st
     /\ match_end st' = match_start st + py_len t
     /\ slice (text_content st') (match_start st') (match_end st') = t
     /\ cursor st' = match_end st'
     /\ forall find_child,
          str_lower (elem_tag find_child) = lit "find" ->
          (forall k,
             occurs_at (text_content st')
                       (search_text_of newline_mode find_child) k ->
             k < cursor st')
          \/ (forall k,
                occurs_at (text_content st)
                          (search_text_of newline_mode find_child) k ->
                k < match_end st) ->
          exists shown,
            process_child newline_mode st' find_child
            = (st', [FindMiss shown]))
  /\ (match_start st = -1 ->
        process_child newline_mode st child = (st, [ReplaceSkipped])).
Proof.
  intros Hwf Htag t st'. split.
  - intros Hact. destruct Hwf as [Hc [?|Hm]]; [done |].
    assert (E : process_child newline_mode st child
                = (mkState (slice_to (text_content st) (match_start st) ++ t
                            ++ slice_from (text_content st) (match_end st))
                     (match_start st + py_len t) (match_start st)
                     (match_start st + py_len t), [ReplaceApplied])).
    { rewrite process_child_replace by done. by apply do_replace_active. }
    subst st'. rewrite E. simpl.
    assert (Hpre : py_len (slice_to (text_content st) (match_start st))
                   = match_start st) by (apply py_len_slice_to; lia).
    repeat split.
    + pose proof (slice_middle
                    (slice_to (text_content st) (match_start st)) t
                    (slice_from (text_content st) (match_end st))) as Hs.
      by rewrite Hpre in Hs.
    + intros find_child Hf Hno. exists (slice_to
        (search_text_of newline_mode find_child) 20).
      rewrite process_child_find by done.
      set (u := search_text_of newline_mode find_child) in *.
      apply do_find_miss; simpl.
      * rewrite !py_len_app, Hpre.
        pose proof (py_len_nonneg t).
        pose proof (py_len_nonneg
                      (slice_from (text_content st) (match_end st))). lia.
      * destruct Hno as [Hnew|Hno]; [exact Hnew |]. intros k Ho.
        destruct (Z.lt_ge_cases k (match_start st + py_len t))
          as [?|Hge]; [done |]. exfalso.
        rewrite (assoc_L (++)) in Ho.
        apply occurs_at_app_r in Ho; [|rewrite py_len_app; lia].
        rewrite py_len_app, Hpre in Ho.
        destruct Ho as (pre & post & Hpost & Hlen).
        assert (Hold : occurs_at (text_content st) u
                         (match_end st + py_len pre)).
        { exists (slice_to (text_content st) (match_end st) ++ pre), post.
          split.
          - rewrite <- (assoc_L (++)), <- Hpost.
            rewrite slice_to_take, slice_from_drop by lia.
            by rewrite take_drop.
          - rewrite py_len_app, py_len_slice_to by lia. done. }
        apply Hno in Hold. pose proof (py_len_nonneg pre). lia.
  - intros Hin. rewrite process_child_replace by done.
    by apply do_replace_inactive.
Qed.

(** C4. With an active match span, [insert] with position "before" splices
    its text right before [match_start] and moves [match_start],
    [match_end] and the cursor forward by the inserted length, so the span
    still holds the text matched before and a following [replace] replaces
    that text; with any other position (the default is "after") it splices
    right after [match_end], advances the cursor by the inserted length and
    leaves the span where it was.  Without an active span nothing
    changes. *)
Theorem insert_directive (newline_mode : str) (st : MatchState)
  (child : Element) :
  wf_state st ->
  str_lower (elem_tag child) = lit "insert" ->
  let t := search_text_of newline_mode child in
  let position := elem_get child (lit "position") in
  let text := text_content st in
  (match_start st <> -1 -> position = Some (lit "before") ->
     let st' := mkState (slice_to text (match_start st) ++ t
                         ++ slice_from text (match_start st))
                        (cursor st + py_len t)
                        (match_start st + py_len t)
                        (match_end st + py_len t) in
     process_child newline_mode st child = (st', [InsertedBefore])
     /\ slice (text_content st') (match_start st') (match_end st')
        = slice text (match_start st) (match_end st)
     /\ forall replace_child,
          str_lower (elem_tag replace_child) = lit "replace" ->
          text_content (fst (process_child newline_mode st' replace_child))
          = slice_to text (match_start st) ++ t
            ++ search_text_of newline_mode replace_child
            ++ slice_from text (match_end st))
  /\ (match_start st <> -1 -> position <> Some (lit "before") ->
        process_child newline_mode st child
        = (mkState (slice_to text (match_end st) ++ t
                    ++ slice_from text (match_end st))
                   (cursor st + py_len t) (match_start st) (match_end st),
           [InsertedAfter]))
  /\ (match_start st = -1 ->
        process_child newline_mode st child = (st, [InsertSkipped])).
Proof.
  intros Hwf Htag t position text. subst text.
  rewrite process_child_insert by done. fold t position.
  pose proof (py_len_nonneg t) as Ht.
  split; [|split].
  - intros Hact Hpos. destruct Hwf as [Hc [?|Hm]]; [done |].
    set (T := slice_to (text_content st) (match_start st) ++ t
              ++ slice_from (text_content st) (match_start st)).
    assert (Hpre : py_len (slice_to (text_content st) (match_start st))
                   = match_start st)
      by (apply py_len_slice_to; lia).
    assert (Hlen : py_len T = py_len (text_content st) + py_len t).
    { unfold T.
      rewrite !py_len_app, Hpre, py_len_slice_from by lia.
      lia. }
    assert (Hdrop : forall i,
              match_start st <= i <= py_len (text_content st) ->
              slice_from T (i + py_len t) = slice_from (text_content st) i).
    { intros i Hi. rewrite !slice_from_drop by lia. unfold T.
      rewrite (assoc_L (++)), drop_app_ge
        by (rewrite length_app; unfold py_len in *; lia).
      rewrite slice_from_drop by lia. rewrite drop_drop.
      f_equal. rewrite length_app. unfold py_len in *. lia. }
    assert (Hto : slice_to T (match_start st + py_len t)
                  = slice_to (text_content st) (match_start st) ++ t).
    { rewrite slice_to_take by lia. unfold T.
      rewrite (assoc_L (++)). apply take_app_length'.
      rewrite length_app. unfold py_len in *. lia. }
    cbv zeta. cbn [text_content match_start match_end].
    split; [|split].
    + unfold do_insert. destruct (Z.eqb_spec (match_start st) (-1)); [done |].
      rewrite Hpos. done.
    + rewrite (slice_take_drop (text_content st)) by lia.
      rewrite slice_take_drop; [|lia|rewrite Hlen; lia].
      pose proof (Hdrop (match_start st)) as Hd.
      rewrite !slice_from_drop in Hd by lia.
      rewrite Hd by lia.
      f_equal. lia.
    + intros rc Hr. rewrite process_child_replace by done.
      rewrite do_replace_active by (cbn [match_start]; lia).
      cbn [fst text_content match_start match_end].
      rewrite (Hdrop (match_end st)) by lia.
      rewrite Hto. by rewrite <- !(assoc_L (++)).
  - intros Hact Hpos. unfold do_insert.
    destruct (Z.eqb_spec (match_start st) (-1)); [done |].
    rewrite bool_decide_eq_false_2; [done |].
    intros E. apply Hpos. destruct position as [p|]; simpl in E.
    + by rewrite E.
    + discriminate.
  - intros Hin. by apply do_insert_inactive.
Qed.

(** What a backward search does, by the occurrences of its text. *)
Lemma do_findup_spec (t : str) (position : option str) (st : MatchState) :
  0 <= cursor st <= py_len (text_content st) ->
  let bound := findup_bound position st in
  (forall k, occurs_at (text_content st) t k -> bound < k + py_len t)
  /\ do_findup t position st = (st, [FindUpMiss (slice_to t 20)])
  \/ exists k,
       occurs_at (text_content st) t k
       /\ k + py_len t <= bound
       /\ (forall k', occurs_at (text_content st) t k' ->
             k' + py_len t <= bound -> k' <= k)
       /\ do_findup t position st
          = (mkState (text_content st) (k + py_len t) k (k + py_len t),
             [FindUpMatch k]).
Proof.
  intros Hc bound. unfold do_findup.
  replace (if negb (bool_decide (position = Some (lit "end")))
           then cursor st else py_len (text_content st))
    with bound by (unfold bound, findup_bound; by case_bool_decide).
  assert (Hb : 0 <= bound <= py_len (text_content st))
    by (unfold bound, findup_bound; case_bool_decide; lia).
  destruct (str_rfind_spec (text_content st) t bound Hb)
    as [[E Hno] | (Ho & Hle & Hmax)].
  - left. split; [done |]. by rewrite E.
  - right. exists (str_rfind (text_content st) t bound).
    repeat split; [done | done | done |].
    apply occurs_at_bounds in Ho.
    destruct (Z.eqb_spec (str_rfind (text_content st) t bound) (-1));
      [lia | done].
Qed.

(** C5. [findup] searches backward from a bound: the cursor, or the end of
    the buffer when position is "end".  It takes the last occurrence of its
    text that ends at or before the bound, sets the match span to it and
    the cursor to its end; when no occurrence ends at or before the bound
    the state stays as it was.  With position "end" the bound is the
    buffer's length, so the last occurrence in the whole buffer is found
    whatever the cursor is. *)
Theorem findup_directive (newline_mode : str) (st : MatchState)
  (child : Element) :
  0 <= cursor st <= py_len (text_content st) ->
  str_lower (elem_tag child) = lit "findup" ->
  let t := search_text_of newline_mode child in
  let bound := findup_bound (elem_get child (lit "position")) st in
  (forall k, occurs_at (text_content st) t k -> bound < k + py_len t)
  /\ (exists shown,
        process_child newline_mode st child = (st, [FindUpMiss shown]))
  \/ exists k,
       occurs_at (text_content st) t k
       /\ k + py_len t <= bound
       /\ (forall k', occurs_at (text_content st) t k' ->
             k' + py_len t <= bound -> k' <= k)
       /\ process_child newline_mode st child
          = (mkState (text_content st) (k + py_len t) k (k + py_len t),
             [FindUpMatch k]).
Proof.
  intros Hc Htag t bound. rewrite process_child_findup by done. fold t.
  destruct (do_findup_spec t (elem_get child (lit "position")) st Hc)
    as [[Hno E] | (k & Ho & Hle & Hmax & E)].
  - left. split; [done |]. rewrite E. eauto.
  - right. by exists k.
Qed.

(** C6. A [find] or [findup] whose text is not found, and a [replace] or
    [insert] without an active match span, print one diagnostic and leave
    the buffer, the cursor and the match span as they were; the directives
    after it in the block run from that same state. *)
Theorem failed_directive_continues (newline_mode : str) (st : MatchState)
  (child : Element) (rest : list Element) :
  0 <= cursor st <= py_len (text_content st) ->
  let t := search_text_of newline_mode child in
  let tag := str_lower (elem_tag child) in
  (tag = lit "find"
   /\ forall k, occurs_at (text_content st) t k -> k < cursor st)
  \/ (tag = lit "findup"
      /\ forall k, occurs_at (text_content st) t k ->
           findup_bound (elem_get child (lit "position")) st
           < k + py_len t)
  \/ ((tag = lit "replace" \/ tag = lit "insert") /\ match_start st = -1) ->
  exists diag,
    is_diagnostic diag
    /\ process_child newline_mode st child = (st, [diag])
    /\ run_children newline_mode (child :: rest) st
       = (fst (run_children newline_mode rest st),
          diag :: snd (run_children newline_mode rest st)).
Proof.
  intros Hc t tag Hfail.
  assert (Hstep : exists diag, is_diagnostic diag
            /\ process_child newline_mode st child = (st, [diag])).
  { destruct Hfail as [[Htag Hno] | [[Htag Hno] | [[Htag|Htag] Hin]]].
    - exists (FindMiss (slice_to t 20)). split; [done |].
      rewrite process_child_find by done. by apply do_find_miss.
    - rewrite process_child_findup by done. fold t.
      destruct (do_findup_spec t (elem_get child (lit "position")) st Hc)
        as [[_ E] | (k & Ho & Hle & _)].
      + exists (FindUpMiss (slice_to t 20)). by split.
      + apply Hno in Ho. lia.
    - exists ReplaceSkipped. split; [done |].
      rewrite process_child_replace by done. by apply do_replace_inactive.
    - exists InsertSkipped. split; [done |].
      rewrite process_child_insert by done. by apply do_insert_inactive. }
  destruct Hstep as (diag & Hd & E). exists diag. split; [done |].
  split; [done |]. cbn [run_children]. rewrite E.
  by destruct (run_children newline_mode rest st).
Qed.

Lemma normalize_empty (newline_mode : str) : normalize newline_mode [] = [].
Proof. reflexivity. Qed.

(** C10. A [find] whose text is empty or absent succeeds at every cursor
    inside the buffer: the match span becomes the empty span at the cursor
    and the cursor stays.  The span is active, so a following [replace]
    splices its text into the buffer at that offset. *)
Theorem find_empty_literal (newline_mode : str) (st : MatchState)
  (child : Element) :
  0 <= cursor st <= py_len (text_content st) ->
  str_lower (elem_tag child) = lit "find" ->
  elem_text child = None \/ elem_text child = Some [] ->
  let st' := mkState (text_content st) (cursor st) (cursor st) (cursor st) in
  process_child newline_mode st child = (st', [FindMatch (cursor st)])
  /\ forall replace_child,
       str_lower (elem_tag replace_child) = lit "replace" ->
       let r := search_text_of newline_mode replace_child in
       process_child newline_mode st' replace_child
       = (mkState (slice_to (text_content st) (cursor st) ++ r
                   ++ slice_from (text_content st) (cursor st))
                  (cursor st + py_len r) (cursor st) (cursor st + py_len r),
          [ReplaceApplied]).
Proof.
  intros Hc Htag Htext st'. split.
  - rewrite process_child_find by done.
    assert (E : search_text_of newline_mode child = []).
    { unfold search_text_of.
      destruct Htext as [-> | ->]; apply normalize_empty. }
    rewrite E. unfold do_find.
    assert (Hf : str_find (text_content st) [] (cursor st) = cursor st).
    { assert (Ho : occurs_at (text_content st) [] (cursor st)).
      { exists (slice_to (text_content st) (cursor st)),
               (slice_from (text_content st) (cursor st)). split.
        - rewrite slice_to_take, slice_from_drop by done.
          simpl. by rewrite take_drop.
        - by apply py_len_slice_to. }
      destruct (str_find_spec (text_content st) [] (cursor st) Hc)
        as [[_ Hno] | (Hge & _ & Hmin)].
      - apply Hno in Ho. lia.
      - specialize (Hmin _ Ho). lia. }
    rewrite Hf. destruct (Z.eqb_spec (cursor st) (-1)); [lia |].
    unfold py_len; simpl. by rewrite Z.add_0_r.
  - intros rc Hr r. rewrite process_child_replace by done.
    rewrite do_replace_active by (simpl; lia). done.
Qed.

(** * The engine *)

(** ** Paths *)

Lemma temp_ne_final (self : ModApplicator) :
  temp_output_path self <> final_output_path self.
Proof.
  unfold temp_output_path, final_output_path. intros H.
  apply app_inv_head in H. discriminate.
Qed.

Lemma output_dir_ne_final (self : ModApplicator) :
  output_dir self <> final_output_path self.
Proof.
  unfold final_output_path. intros H. apply (f_equal length) in H.
  rewrite length_app in H. simpl in H. lia.
Qed.

Lemma exists_true (d : Disk) (p : Path) :
  exists_ d p = true <-> is_Some (d !! p).
Proof.
  unfold exists_. destruct (d !! p); split; intros H; done.
Qed.

Lemma exists_false (d : Disk) (p : Path) :
  exists_ d p = false <-> d !! p = None.
Proof. unfold exists_. by destruct (d !! p). Qed.

(** ** Making the output directory *)

Lemma with_parents_length (p q : Path) :
  q ∈ with_parents p -> (0 < length q <= length p)%nat.
Proof.
  revert q. induction p as [|c r IH]; intros q; simpl.
  - intros H. by apply elem_of_nil in H.
  - intros H. apply elem_of_cons in H as [-> | H]; [simpl; lia |].
    apply list_elem_of_fmap in H as (q' & -> & Hq').
    apply IH in Hq'. simpl. lia.
Qed.

Lemma with_parents_self (p : Path) : p <> [] -> p ∈ with_parents p.
Proof.
  induction p as [|c r IH]; [done |]. intros _. simpl.
  destruct r as [|c' r']; [by left |]. right.
  apply list_elem_of_fmap. exists (c' :: r'). split; [done |]. by apply IH.
Qed.

(** What [mkdir_parents] leaves at a path: a directory where it made
    one, and what was there everywhere else. *)
Lemma mkdir_parents_lookup (d : Disk) (p q : Path) :
  mkdir_parents d p !! q
  = if bool_decide (q ∈ with_parents p) then Some (default Dir (d !! q))
    else d !! q.
Proof.
  unfold mkdir_parents. induction (with_parents p) as [|a l IH];
    cbn [foldr].
  - rewrite bool_decide_eq_false_2; [done |]. apply not_elem_of_nil.
  - set (d' := foldr _ d l) in *.
    destruct (decide (q = a)) as [-> | Hne].
    + rewrite (bool_decide_eq_true_2 (a ∈ a :: l)) by left.
      unfold exists_. destruct (bool_decide (a ∈ l)).
      * rewrite IH. by rewrite IH.
      * rewrite IH. destruct (d !! a) eqn:Ed; simpl.
        -- by rewrite IH.
        -- by rewrite lookup_insert_eq.
    + assert (Eq : bool_decide (q ∈ a :: l) = bool_decide (q ∈ l)).
      { apply bool_decide_ext. rewrite elem_of_cons.
        split; [intros [? | ?]; done | by right]. }
      rewrite Eq, <- IH.
      destruct (exists_ d' a); [done |]. by rewrite lookup_insert_ne.
Qed.

Lemma temp_not_parent (self : ModApplicator) :
  temp_output_path self ∉ with_parents (output_dir self).
Proof.
  intros H. apply with_parents_length in H.
  unfold temp_output_path in H. rewrite length_app in H. simpl in H. lia.
Qed.

Lemma final_not_parent (self : ModApplicator) :
  final_output_path self ∉ with_parents (output_dir self).
Proof.
  intros H. apply with_parents_length in H.
  unfold final_output_path in H. rewrite length_app in H. simpl in H. lia.
Qed.

Lemma output_dir_parent (self : ModApplicator) :
  output_dir self ∈ with_parents (output_dir self).
Proof.
  apply with_parents_self. unfold output_dir. by destruct (game_root self).
Qed.

(** ** Write and commit *)

Lemma with_output_dir_lookup (self : ModApplicator) (disk : Disk)
  (p : Path) :
  p ∉ with_parents (output_dir self) ->
  with_output_dir self disk !! p = disk !! p.
Proof.
  intros Hp. unfold with_output_dir.
  destruct (exists_ disk (output_dir self)); [done |].
  rewrite mkdir_parents_lookup. by rewrite bool_decide_eq_false_2.
Qed.

(** The four ways the rest of the [try] block can end once the output
    directory is there. *)
Lemma write_and_commit_cases (self : ModApplicator) (disk : Disk)
  (o : Oracle) (tbl : pydict) :
  exists_ disk (output_dir self) = true \/ mkdir_raises o = None ->
  let d1 := with_output_dir self disk in
  let d2 := <[temp_output_path self := Zip (zip_of_dict tbl)]> d1 in
  write_and_commit self disk o tbl
  = match write_raises o with
    | Some (e, partial) =>
        inr (e, if partial
                then <[temp_output_path self := Garbage]> d1 else d1)
    | None =>
        if exists_ disk (final_output_path self) then
          match remove_raises o with
          | Some e => inr (e, d2)
          | None =>
              match rename_raises o with
              | Some e => inr (e, delete (final_output_path self) d2)
              | None =>
                  inl (<[final_output_path self := Zip (zip_of_dict tbl)]>
                         (delete (temp_output_path self)
                                 (delete (final_output_path self) d2)))
              end
          end
        else
          match rename_raises o with
          | Some e => inr (e, d2)
          | None =>
              inl (<[final_output_path self := Zip (zip_of_dict tbl)]>
                     (delete (temp_output_path self) d2))
          end
    end.
Proof.
  intros Hdir d1 d2. unfold write_and_commit.
  assert (E : (if negb (exists_ disk (output_dir self))
               then match mkdir_raises o with
                    | Some e => inr (e, disk)
                    | None => inl (mkdir_parents disk (output_dir self))
                    end
               else inl disk) = (inl d1 : Disk + (str * Disk))).
  { unfold d1, with_output_dir.
    destruct (exists_ disk (output_dir self)); simpl; [done |].
    destruct Hdir as [? | ->]; done. }
  rewrite E. destruct (write_raises o) as [[e partial]|]; [done |].
  fold d2.
  assert (Ef : exists_ d2 (final_output_path self)
               = exists_ disk (final_output_path self)).
  { unfold exists_, d2. rewrite lookup_insert_ne by apply temp_ne_final.
    unfold d1. rewrite with_output_dir_lookup; [done |].
    apply final_not_parent. }
  rewrite Ef. destruct (exists_ disk (final_output_path self));
    destruct (remove_raises o), (rename_raises o); done.
Qed.

Section Apply.

Variable HAS_ZSTD : bool.
Variable ET_parse : bytes -> option Element.
Variable self : ModApplicator.

(** [apply_mods] once there are enabled mods and a base archive. *)
Lemma apply_mods_enabled (disk : Disk) (o : Oracle) :
  enabled_mods self <> [] ->
  exists_ disk (resources0_path self) = true ->
  let r := apply_mods HAS_ZSTD ET_parse self disk o in
  match write_and_commit self disk o (final_table ET_parse self disk) with
  | inl d' =>
      r.1 = (Returned true
               (SuccessfullyApplied (length (enabled_mods self))), d')
  | inr (e, d') =>
      if exists_ d' (temp_output_path self) then
        match cleanup_raises o with
        | Some e' => r.1 = (Raised e', d')
        | None =>
            r.1 = (Returned false (ErrorText e),
                   delete (temp_output_path self) d')
        end
      else r.1 = (Returned false (ErrorText e), d')
  end.
Proof.
  intros Hen Hbase r. subst r. unfold apply_mods, final_table.
  destruct (enabled_mods self) as [|m ms] eqn:E; [done |].
  rewrite Hbase. simpl negb. cbv iota.
  destruct (process_mods ET_parse self disk (m :: ms) []) as [tbl out].
  simpl fst.
  destruct (write_and_commit self disk o tbl) as [d'|[e d']]; [done |].
  destruct (exists_ d' (temp_output_path self)); [|done].
  by destruct (cleanup_raises o).
Qed.

(** C1 (amended). In a run with enabled mods and a base archive, once the
    output directory is there and provided the clean-up removal of the
    temporary file does not itself fail: when writing the temporary
    archive raises, or deleting the previous final archive raises, the
    run returns failure with that error, no temporary file is left and
    the final path holds what it held before; when the rename raises
    (after the previous final archive, if any, was deleted), the run
    returns failure with that error, no temporary file is left and the
    final path holds nothing. *)
Theorem apply_mods_failure (disk : Disk) (o : Oracle) (e : str) :
  enabled_mods self <> [] ->
  exists_ disk (resources0_path self) = true ->
  exists_ disk (output_dir self) = true \/ mkdir_raises o = None ->
  cleanup_raises o = None ->
  let r := apply_mods HAS_ZSTD ET_parse self disk o in
  ((exists partial, write_raises o = Some (e, partial))
   \/ (write_raises o = None
       /\ exists_ disk (final_output_path self) = true
       /\ remove_raises o = Some e) ->
     r.1.1 = Returned false (ErrorText e)
     /\ r.1.2 !! temp_output_path self = None
     /\ r.1.2 !! final_output_path self
        = disk !! final_output_path self)
  /\ (write_raises o = None
      /\ (exists_ disk (final_output_path self) = true ->
          remove_raises o = None)
      /\ rename_raises o = Some e ->
        r.1.1 = Returned false (ErrorText e)
        /\ r.1.2 !! temp_output_path self = None
        /\ r.1.2 !! final_output_path self = None).
Proof.
  intros Hen Hbase Hdir Hclean r.
  pose proof (apply_mods_enabled disk o Hen Hbase) as Hr. fold r in Hr.
  cbv zeta in Hr. rewrite write_and_commit_cases in Hr by done.
  cbv zeta in Hr. rewrite Hclean in Hr.
  pose proof (temp_ne_final self) as Htf.
  pose proof (output_dir_ne_final self) as Hof.
  set (d1 := with_output_dir self disk) in *.
  assert (Hd1 : d1 !! final_output_path self
                = disk !! final_output_path self)
    by apply with_output_dir_lookup, final_not_parent.
  split.
  - intros [[partial Hw] | (Hw & Hf & Hrm)]; rewrite Hw in Hr.
    + destruct partial.
      * unfold exists_ in Hr. rewrite lookup_insert_eq in Hr.
        rewrite Hr. simpl. rewrite lookup_delete_eq.
        rewrite lookup_delete_ne, lookup_insert_ne by done. done.
      * destruct (exists_ d1 (temp_output_path self)) eqn:Et;
          rewrite Hr; simpl.
        -- rewrite lookup_delete_eq, lookup_delete_ne by done. done.
        -- by apply exists_false in Et.
    + rewrite Hf, Hrm in Hr. unfold exists_ in Hr.
      rewrite lookup_insert_eq in Hr. rewrite Hr. simpl.
      rewrite lookup_delete_eq.
      rewrite lookup_delete_ne, lookup_insert_ne by done. done.
  - intros (Hw & Hrm & Hrn). rewrite Hw, Hrn in Hr.
    destruct (exists_ disk (final_output_path self)) eqn:Ef.
    + rewrite Hrm in Hr by done. unfold exists_ in Hr.
      rewrite lookup_delete_ne, lookup_insert_eq in Hr by congruence.
      rewrite Hr. simpl. rewrite lookup_delete_eq.
      rewrite lookup_delete_ne, lookup_delete_eq by done. done.
    + unfold exists_ in Hr. rewrite lookup_insert_eq in Hr.
      rewrite Hr. simpl. rewrite lookup_delete_eq.
      rewrite lookup_delete_ne, lookup_insert_ne by done.
      rewrite Hd1. by apply exists_false in Ef.
Qed.

End Apply.

(** ** The mod loop reads the disk only at the base archive and at the
    packages *)

Section Reads.

Variable ET_parse : bytes -> option Element.
Variable self : ModApplicator.
Variables disk disk' : Disk.

Hypothesis same_base :
  open_zip disk (resources0_path self) = open_zip disk' (resources0_path self).

Lemma load_base_file_ext (fname : str) (tbl : pydict) :
  load_base_file self disk fname tbl = load_base_file self disk' fname tbl.
Proof. unfold load_base_file. by rewrite same_base. Qed.

Lemma process_edit_node_ext (tbl : pydict) (node : Element) :
  process_edit_node self disk tbl node = process_edit_node self disk' tbl node.
Proof.
  unfold process_edit_node.
  destruct (elem_get node (lit "name")) as [[|c target]|]; [done | | done].
  by rewrite load_base_file_ext.
Qed.

Lemma process_edit_nodes_ext (nodes : list Element) (tbl : pydict) :
  process_edit_nodes self disk nodes tbl
  = process_edit_nodes self disk' nodes tbl.
Proof.
  revert tbl. induction nodes as [|n r IH]; intros tbl; simpl; [done |].
  rewrite process_edit_node_ext.
  destruct (process_edit_node self disk' tbl n) as [t1 o1]. by rewrite IH.
Qed.

Lemma process_mod_ext (m : Mod) (tbl : pydict) :
  open_zip disk (file_path m) = open_zip disk' (file_path m) ->
  process_mod ET_parse self disk m tbl = process_mod ET_parse self disk' m tbl.
Proof.
  intros Hm. unfold process_mod. rewrite Hm.
  destruct (open_zip disk' (file_path m)) as [z|]; [|done].
  destruct (inject_assets z z tbl) as [t1 [o1 raised]].
  destruct raised; [done |]. case_bool_decide; [|done].
  destruct (_ ≫= _); [|done]. by rewrite process_edit_nodes_ext.
Qed.

Lemma process_mods_ext (mods : list Mod) (tbl : pydict) :
  (forall m, m ∈ mods ->
     open_zip disk (file_path m) = open_zip disk' (file_path m)) ->
  process_mods ET_parse self disk mods tbl
  = process_mods ET_parse self disk' mods tbl.
Proof.
  revert tbl. induction mods as [|m r IH]; intros tbl Hm; simpl; [done |].
  rewrite process_mod_ext by (apply Hm; left).
  destruct (process_mod ET_parse self disk' m tbl) as [t1 o1].
  rewrite IH; [done |]. intros m' Hm'. apply Hm. by right.
Qed.

End Reads.

Lemma write_and_commit_inl (self : ModApplicator) (disk d' : Disk)
  (o : Oracle) (tbl : pydict) :
  write_and_commit self disk o tbl = inl d' ->
  d' !! final_output_path self = Some (Zip (zip_of_dict tbl))
  /\ d' !! temp_output_path self = None.
Proof.
  unfold write_and_commit. intros H.
  repeat (case_match; simplify_eq);
    (split; [by rewrite lookup_insert_eq |]);
    rewrite lookup_insert_ne, lookup_delete_eq
      by (apply not_eq_sym, temp_ne_final); done.
Qed.

(** A successful run with enabled mods had a base archive and left the
    table of the run, as an archive, at the final path. *)
Lemma apply_mods_success (HAS_ZSTD : bool)
  (ET_parse : bytes -> option Element) (self : ModApplicator)
  (disk : Disk) (o : Oracle) (msg : message) :
  enabled_mods self <> [] ->
  (apply_mods HAS_ZSTD ET_parse self disk o).1.1 = Returned true msg ->
  exists_ disk (resources0_path self) = true
  /\ (apply_mods HAS_ZSTD ET_parse self disk o).1.2
       !! final_output_path self
     = Some (Zip (zip_of_dict (final_table ET_parse self disk)))
  /\ (apply_mods HAS_ZSTD ET_parse self disk o).1.2
       !! temp_output_path self = None.
Proof.
  intros Hen Hok.
  destruct (exists_ disk (resources0_path self)) eqn:Hbase.
  - split; [done |].
    pose proof (apply_mods_enabled HAS_ZSTD ET_parse self disk o Hen Hbase)
      as Hr. cbv zeta in Hr.
    destruct (write_and_commit self disk o (final_table ET_parse self disk))
      as [d'|[e d']] eqn:Ew.
    + rewrite Hr. simpl. by apply write_and_commit_inl in Ew.
    + exfalso. destruct (exists_ d' (temp_output_path self));
        [destruct (cleanup_raises o) |]; rewrite Hr in Hok; discriminate.
  - exfalso. unfold apply_mods in Hok.
    destruct (enabled_mods self); [done |]. rewrite Hbase in Hok.
    discriminate.
Qed.

(** C9. With a non-empty list of enabled mods, a second successful run
    that finds the base archive and the packages as the first run found
    them leaves at the final path an archive equal to the first run's,
    member for member: its table is built anew from the base archive and
    the packages, whatever the first run left behind. *)
Theorem apply_twice_same_output (HAS_ZSTD : bool)
  (ET_parse : bytes -> option Element) (self : ModApplicator)
  (disk : Disk) (o1 o2 : Oracle) :
  enabled_mods self <> [] ->
  let r1 := apply_mods HAS_ZSTD ET_parse self disk o1 in
  let r2 := apply_mods HAS_ZSTD ET_parse self r1.1.2 o2 in
  (exists msg, r1.1.1 = Returned true msg) ->
  (exists msg, r2.1.1 = Returned true msg) ->
  r1.1.2 !! resources0_path self = disk !! resources0_path self ->
  (forall m, m ∈ enabled_mods self ->
     r1.1.2 !! file_path m = disk !! file_path m) ->
  exists z,
    r1.1.2 !! final_output_path self = Some (Zip z)
    /\ r2.1.2 !! final_output_path self = Some (Zip z)
    /\ content_mapping z
       = content_mapping (zip_of_dict (final_table ET_parse self disk)).
Proof.
  intros Hen r1 r2 [m1 H1] [m2 H2] Hbase Hmods.
  destruct (apply_mods_success _ _ _ _ _ _ Hen H1) as (_ & Hf1 & _).
  destruct (apply_mods_success _ _ _ _ _ _ Hen H2) as (_ & Hf2 & _).
  fold r1 in Hf1, Hf2. fold r2 in Hf2.
  exists (zip_of_dict (final_table ET_parse self disk)).
  split; [done |]. split; [|done]. rewrite Hf2. do 3 f_equal.
  unfold final_table. f_equal. apply process_mods_ext.
  - unfold open_zip. by rewrite Hbase.
  - intros m Hm. unfold open_zip. by rewrite Hmods.
Qed.

(** A run leaves every path other than the output directory with its
    ancestors, the temporary file and the final file as it found it. *)
Lemma apply_mods_frame (HAS_ZSTD : bool)
  (ET_parse : bytes -> option Element) (self : ModApplicator)
  (disk : Disk) (o : Oracle) (p : Path) :
  p ∉ with_parents (output_dir self) ->
  p <> temp_output_path self ->
  p <> final_output_path self ->
  (apply_mods HAS_ZSTD ET_parse self disk o).1.2 !! p = disk !! p.
Proof.
  intros Hd Ht Hf.
  assert (Hmk : mkdir_parents disk (output_dir self) !! p = disk !! p)
    by (rewrite mkdir_parents_lookup; by rewrite bool_decide_eq_false_2).
  unfold apply_mods.
  destruct (enabled_mods self) as [|m ms].
  - repeat case_match; simpl; rewrite ?lookup_delete_ne by done; done.
  - destruct (negb (exists_ disk (resources0_path self))); [done |].
    destruct (process_mods ET_parse self disk (m :: ms) []) as [tbl out].
    unfold write_and_commit.
    repeat (case_match; simplify_eq); simpl;
      rewrite ?lookup_delete_ne, ?lookup_insert_ne, ?lookup_delete_ne,
        ?lookup_insert_ne, ?lookup_delete_ne, ?lookup_insert_ne by done;
      done.
Qed.

(** * What the mod loop puts into the table *)

(** One step of the injection loop. *)
Lemma inject_assets_step (i : ZipInfo) (rest : list ZipInfo)
  (z_mod : ZipFile) (tbl : pydict) :
  (inject_assets (i :: rest) z_mod tbl).1
  = if is_dir i
       || bool_decide (str_lower (str_replace (filename i) (lit "\")
                                              (lit "/")) ∈ ignored_files)
    then (inject_assets rest z_mod tbl).1
    else match zip_read z_mod (filename i) with
         | Some content =>
             (inject_assets rest z_mod
                (dict_set tbl (str_replace (filename i) (lit "\") (lit "/"))
                          content)).1
         | None => tbl
         end.
Proof.
  cbn [inject_assets]. destruct (is_dir i || _); [done |].
  destruct (zip_read z_mod (filename i)); [|done].
  by destruct (inject_assets rest z_mod _) as [t [o r]].
Qed.

Lemma inject_assets_keys (infolist : list ZipInfo) (z_mod : ZipFile)
  (tbl : pydict) (p : str) :
  is_Some (dict_get (inject_assets infolist z_mod tbl).1 p) ->
  is_Some (dict_get tbl p)
  \/ exists i, i ∈ infolist
       /\ str_replace (filename i) (lit "\") (lit "/") = p.
Proof.
  revert tbl. induction infolist as [|i r IH]; intros tbl; [by left |].
  rewrite inject_assets_step. destruct (is_dir i || _).
  - intros H. destruct (IH _ H) as [?|(j & Hj & E)]; [by left |].
    right. exists j. split; [by right | done].
  - destruct (zip_read z_mod (filename i)) as [content|]; [|by left].
    intros H. destruct (IH _ H) as [Hs|(j & Hj & Ej)].
    + destruct (decide (str_replace (filename i) (lit "\") (lit "/") = p))
        as [Ep|Hne].
      * right. exists i. split; [by left | done].
      * left. by rewrite dict_get_set_ne in Hs.
    + right. exists j. split; [by right | done].
Qed.

Lemma inject_assets_NoDup (infolist : list ZipInfo) (z_mod : ZipFile)
  (tbl : pydict) :
  NoDup (dict_keys tbl) ->
  NoDup (dict_keys (inject_assets infolist z_mod tbl).1).
Proof.
  revert tbl. induction infolist as [|i r IH]; intros tbl Hnd; [done |].
  rewrite inject_assets_step.
  destruct (is_dir i || _); [by apply IH |].
  destruct (zip_read z_mod (filename i)); [|done].
  by apply IH, dict_set_NoDup.
Qed.

(** A package that ships no member stored under [p] leaves [p] alone. *)
Lemma inject_assets_other (infolist : list ZipInfo) (z_mod : ZipFile)
  (tbl : pydict) (p : str) :
  (forall i, i ∈ infolist ->
     str_replace (filename i) (lit "\") (lit "/") <> p) ->
  dict_get (inject_assets infolist z_mod tbl).1 p = dict_get tbl p.
Proof.
  revert tbl. induction infolist as [|i r IH]; intros tbl Hno; [done |].
  assert (Hr : forall j, j ∈ r ->
            str_replace (filename j) (lit "\") (lit "/") <> p)
    by (intros j Hj; apply Hno; by right).
  rewrite inject_assets_step.
  destruct (is_dir i || _); [by apply IH |].
  destruct (zip_read z_mod (filename i)); [|done].
  rewrite IH by done. apply dict_get_set_ne, Hno. by left.
Qed.

Section Table.

Variable ET_parse : bytes -> option Element.
Variable self : ModApplicator.
Variable disk : Disk.

Lemma load_base_file_get (fname : str) (tbl : pydict) (p : str) :
  p <> fname ->
  dict_get (load_base_file self disk fname tbl).1 p = dict_get tbl p.
Proof.
  intros Hp. unfold load_base_file. repeat case_match; simpl; try done.
  by rewrite dict_get_set_ne.
Qed.

Lemma load_base_file_NoDup (fname : str) (tbl : pydict) :
  NoDup (dict_keys tbl) ->
  NoDup (dict_keys (load_base_file self disk fname tbl).1).
Proof.
  intros Hnd. unfold load_base_file. repeat case_match; simpl; try done.
  by apply dict_set_NoDup.
Qed.

(** The three ways an edit block with a target name can go. *)
Lemma process_edit_node_cases (tbl : pydict) (node : Element)
  (target : str) :
  elem_get node (lit "name") = Some target ->
  target <> [] ->
  let r := process_edit_node self disk tbl node in
  match target_content self disk tbl target with
  | None =>
      r.1 = tbl
      /\ (r.2 = [BaseFileNotFound target] \/ r.2 = [BaseReadFailed])
  | Some [] => dict_get r.1 target = Some [] /\ r.2 = []
  | Some content =>
      let text := decode_content content in
      let run := run_children (detect_newline text) (elem_children node)
                              (initial_state text) in
      match utf8_encode (text_content run.1) with
      | Some encoded => dict_get r.1 target = Some encoded /\ r.2 = run.2
      | None =>
          dict_get r.1 target = Some content
          /\ r.2 = run.2 ++ [EditFailed target]
      end
  end.
Proof.
  intros Hname Hne r.
  subst r. unfold process_edit_node, target_content. rewrite Hname.
  destruct target as [|c target]; [done |].
  unfold dict_mem. destruct (dict_get tbl (c :: target)) as [content|] eqn:Eg.
  - simpl negb. cbv iota. rewrite Eg.
    destruct content as [|b content]; [done |]. cbv zeta.
    destruct (run_children _ _ _) as [st out]. simpl.
    destruct (utf8_encode (text_content st)); simpl; [|done].
    by rewrite dict_get_set_eq.
  - simpl negb. cbv iota. unfold load_base_file, dict_mem. rewrite Eg.
    destruct (open_zip disk (resources0_path self)) as [z|];
      [|rewrite Eg; simpl; auto].
    case_bool_decide as Hin; [|rewrite Eg; simpl; auto].
    destruct (zip_read z (c :: target)) as [content|];
      [|rewrite Eg; simpl; auto].
    rewrite dict_get_set_eq.
    destruct content as [|b content];
      [simpl; by rewrite dict_get_set_eq |]. cbv zeta.
    destruct (run_children _ _ _) as [st out]. simpl.
    destruct (utf8_encode (text_content st)); simpl.
    + by rewrite dict_get_set_eq.
    + by rewrite dict_get_set_eq.
Qed.

(** The block runs when its target has content. *)
Lemma process_edit_node_run (tbl : pydict) (node : Element)
  (target : str) (content : bytes) :
  elem_get node (lit "name") = Some target ->
  target <> [] ->
  target_content self disk tbl target = Some content ->
  content <> [] ->
  let r := process_edit_node self disk tbl node in
  let text := decode_content content in
  let run := run_children (detect_newline text) (elem_children node)
                          (initial_state text) in
  match utf8_encode (text_content run.1) with
  | Some encoded => dict_get r.1 target = Some encoded /\ r.2 = run.2
  | None =>
      dict_get r.1 target = Some content
      /\ r.2 = run.2 ++ [EditFailed target]
  end.
Proof.
  intros Hname Hne Hc Hcontent.
  pose proof (process_edit_node_cases tbl node target Hname Hne) as H.
  cbv zeta in H. rewrite Hc in H. by destruct content.
Qed.

(** An edit block changes the table at its target only. *)
Lemma process_edit_node_other (tbl : pydict) (node : Element) (p : str) :
  elem_get node (lit "name") <> Some p ->
  dict_get (process_edit_node self disk tbl node).1 p = dict_get tbl p.
Proof.
  intros Hp. unfold process_edit_node.
  destruct (elem_get node (lit "name")) as [[|c target]|]; [done | | done].
  assert (Hne : p <> c :: target) by congruence.
  destruct (negb (dict_mem tbl (c :: target))).
  - destruct (load_base_file self disk (c :: target) tbl) as [t1 o1] eqn:E.
    assert (E1 : dict_get t1 p = dict_get tbl p).
    { replace t1 with (load_base_file self disk (c :: target) tbl).1
        by (by rewrite E). by apply load_base_file_get. }
    repeat case_match; simplify_eq; simpl; try done.
    by rewrite dict_get_set_ne.
  - repeat case_match; simplify_eq; simpl; try done.
    by rewrite dict_get_set_ne.
Qed.

Lemma process_edit_node_NoDup (tbl : pydict) (node : Element) :
  NoDup (dict_keys tbl) ->
  NoDup (dict_keys (process_edit_node self disk tbl node).1).
Proof.
  intros Hnd. unfold process_edit_node.
  destruct (elem_get node (lit "name")) as [[|c target]|]; [done | | done].
  pose proof (load_base_file_NoDup (c :: target) tbl Hnd) as Hl.
  destruct (negb (dict_mem tbl (c :: target)));
    [destruct (load_base_file self disk (c :: target) tbl) as [t1 o1] |];
    repeat case_match; simplify_eq; simpl in *; try done;
    by apply dict_set_NoDup.
Qed.

Lemma process_edit_nodes_keys (nodes : list Element) (tbl : pydict)
  (p : str) :
  is_Some (dict_get (process_edit_nodes self disk nodes tbl).1 p) ->
  is_Some (dict_get tbl p)
  \/ exists node, node ∈ nodes /\ elem_get node (lit "name") = Some p.
Proof.
  revert tbl. induction nodes as [|n r IH]; intros tbl; simpl; [auto |].
  destruct (process_edit_node self disk tbl n) as [t1 o1] eqn:E1.
  destruct (process_edit_nodes self disk r t1) as [t2 o2] eqn:E2. simpl.
  intros H. specialize (IH t1). rewrite E2 in IH.
  destruct (IH H) as [Hs|(node & Hn & En)].
  - destruct (decide (elem_get n (lit "name") = Some p)) as [En|Hne].
    + right. exists n. split; [by left | done].
    + left. pose proof (process_edit_node_other tbl n p Hne) as Ho.
      rewrite E1 in Ho. simpl in Ho. by rewrite <- Ho.
  - right. exists node. split; [by right | done].
Qed.

Lemma process_edit_nodes_NoDup (nodes : list Element) (tbl : pydict) :
  NoDup (dict_keys tbl) ->
  NoDup (dict_keys (process_edit_nodes self disk nodes tbl).1).
Proof.
  revert tbl. induction nodes as [|n r IH]; intros tbl Hnd; simpl; [done |].
  pose proof (process_edit_node_NoDup tbl n Hnd) as H1.
  destruct (process_edit_node self disk tbl n) as [t1 o1].
  specialize (IH t1 H1).
  by destruct (process_edit_nodes self disk r t1) as [t2 o2].
Qed.

Lemma process_mod_keys (m : Mod) (tbl : pydict) (p : str) :
  is_Some (dict_get (process_mod ET_parse self disk m tbl).1 p) ->
  is_Some (dict_get tbl p) \/ mod_touches ET_parse disk m p.
Proof.
  unfold process_mod, mod_touches.
  destruct (open_zip disk (file_path m)) as [z|]; [|by left].
  pose proof (inject_assets_keys z z tbl p) as Hi.
  destruct (inject_assets z z tbl) as [t1 [o1 raised]]. simpl in Hi.
  assert (Hinj : is_Some (dict_get t1 p) ->
            is_Some (dict_get tbl p)
            \/ exists z_mod, Some z = Some z_mod
                 /\ ((exists i, i ∈ z_mod
                        /\ str_replace (filename i) (lit "\") (lit "/") = p)
                     \/ (exists root node,
                           ET_parse (default [] (zip_read z_mod
                                                   (lit "mod.xml")))
                           = Some root
                           /\ node ∈ findall_editfile root
                           /\ elem_get node (lit "name") = Some p))).
  { intros H. destruct (Hi H) as [?|Hx]; [by left |].
    right. exists z. split; [done |]. by left. }
  destruct raised; [done |]. case_bool_decide; [|done].
  destruct (zip_read z (lit "mod.xml")) as [b|] eqn:Ez; [|done].
  simpl. destruct (ET_parse b) as [root|] eqn:Ep; [|done].
  pose proof (process_edit_nodes_keys (findall_editfile root) t1 p) as He.
  destruct (process_edit_nodes self disk (findall_editfile root) t1)
    as [t2 o2]. simpl in *. intros Hp.
  destruct (He Hp) as [Hs|(node & Hn & En)]; [by apply Hinj |].
  right. exists z. split; [done |]. right. exists root, node.
  by rewrite Ez.
Qed.

Lemma process_mod_NoDup (m : Mod) (tbl : pydict) :
  NoDup (dict_keys tbl) ->
  NoDup (dict_keys (process_mod ET_parse self disk m tbl).1).
Proof.
  intros Hnd. unfold process_mod.
  destruct (open_zip disk (file_path m)) as [z|]; [|done].
  pose proof (inject_assets_NoDup z z tbl Hnd) as Hi.
  destruct (inject_assets z z tbl) as [t1 [o1 raised]]. simpl in Hi.
  destruct raised; [done |].
  case_bool_decide; [|done]. destruct (_ ≫= _) as [root|]; [|done].
  pose proof (process_edit_nodes_NoDup (findall_editfile root) t1 Hi) as He.
  by destruct (process_edit_nodes self disk (findall_editfile root) t1).
Qed.

Lemma process_mods_keys (mods : list Mod) (tbl : pydict) (p : str) :
  is_Some (dict_get (process_mods ET_parse self disk mods tbl).1 p) ->
  is_Some (dict_get tbl p)
  \/ exists m, m ∈ mods /\ mod_touches ET_parse disk m p.
Proof.
  revert tbl. induction mods as [|m r IH]; intros tbl; simpl; [auto |].
  pose proof (process_mod_keys m tbl p) as Hm.
  destruct (process_mod ET_parse self disk m tbl) as [t1 o1].
  specialize (IH t1).
  destruct (process_mods ET_parse self disk r t1) as [t2 o2]. simpl in *.
  intros H. destruct (IH H) as [Hs|(m' & Hm' & Ht)].
  - destruct (Hm Hs) as [?|?]; [by left |].
    right. exists m. split; [by left | done].
  - right. exists m'. split; [by right | done].
Qed.

Lemma process_mods_NoDup (mods : list Mod) (tbl : pydict) :
  NoDup (dict_keys tbl) ->
  NoDup (dict_keys (process_mods ET_parse self disk mods tbl).1).
Proof.
  revert tbl. induction mods as [|m r IH]; intros tbl Hnd; simpl; [done |].
  pose proof (process_mod_NoDup m tbl Hnd) as H1.
  destruct (process_mod ET_parse self disk m tbl) as [t1 o1].
  specialize (IH t1 H1).
  by destruct (process_mods ET_parse self disk r t1) as [t2 o2].
Qed.

End Table.

(** * The derived archive and the edit blocks *)

(** C2 (amended). After a successful run with enabled mods the derived
    archive reads, name by name, as the working file table at the end of
    the mod loop.  It holds a path only if an enabled mod touches it (its
    package ships a member stored under the path, or an edit block of its
    manifest names the path): the archive is an overlay of the touched
    files, and base members that no mod touches are not in it. *)
Theorem derived_archive_is_table (HAS_ZSTD : bool)
  (ET_parse : bytes -> option Element) (self : ModApplicator)
  (disk : Disk) (o : Oracle) (msg : message) :
  enabled_mods self <> [] ->
  (apply_mods HAS_ZSTD ET_parse self disk o).1.1 = Returned true msg ->
  exists z,
    (apply_mods HAS_ZSTD ET_parse self disk o).1.2
      !! final_output_path self = Some (Zip z)
    /\ (forall p, content_mapping z p
                  = dict_get (final_table ET_parse self disk) p)
    /\ forall p, is_Some (content_mapping z p) ->
         exists m, m ∈ enabled_mods self
                   /\ mod_touches ET_parse disk m p.
Proof.
  intros Hen Hok.
  destruct (apply_mods_success _ _ _ _ _ _ Hen Hok) as (_ & Hf & _).
  exists (zip_of_dict (final_table ET_parse self disk)).
  assert (Hmap : forall p,
            content_mapping (zip_of_dict (final_table ET_parse self disk)) p
            = dict_get (final_table ET_parse self disk) p).
  { intros p. apply content_mapping_zip_of_dict.
    apply process_mods_NoDup. apply NoDup_nil_2. }
  split; [done |]. split; [done |].
  intros p Hp. rewrite Hmap in Hp.
  apply process_mods_keys in Hp as [Hp|Hp]; [|done].
  simpl in Hp. by apply is_Some_None in Hp.
Qed.

(** With no operating system fault a run with enabled mods and a base
    archive reports success, whatever the packages hold. *)
Lemma apply_mods_no_faults (HAS_ZSTD : bool)
  (ET_parse : bytes -> option Element) (self : ModApplicator)
  (disk : Disk) :
  enabled_mods self <> [] ->
  exists_ disk (resources0_path self) = true ->
  (apply_mods HAS_ZSTD ET_parse self disk no_faults).1.1
  = Returned true (SuccessfullyApplied (length (enabled_mods self))).
Proof.
  intros Hen Hbase.
  pose proof (apply_mods_enabled HAS_ZSTD ET_parse self disk no_faults
                Hen Hbase) as Hr. cbv zeta in Hr.
  rewrite write_and_commit_cases in Hr by (by right). simpl in Hr.
  destruct (exists_ disk (final_output_path self)); by rewrite Hr.
Qed.

(** C8 (amended). An edit block with a target name is skipped when the
    target is in neither the table nor the base archive (a message is
    printed) and also, without a message, when the target's content is
    zero-length; in every other case the directives run on the decoded
    content and the encoded result is stored at the target.  No other path
    of the table changes, the blocks after it are processed from the
    resulting table, and the run reports success all the same. *)
Theorem edit_block_skip_or_run (self : ModApplicator) (disk : Disk)
  (tbl : pydict) (node : Element) (target : str) (rest : list Element) :
  elem_get node (lit "name") = Some target ->
  target <> [] ->
  let r := process_edit_node self disk tbl node in
  match target_content self disk tbl target with
  | None =>
      r.1 = tbl
      /\ (r.2 = [BaseFileNotFound target] \/ r.2 = [BaseReadFailed])
  | Some [] => dict_get r.1 target = Some [] /\ r.2 = []
  | Some content =>
      let text := decode_content content in
      let run := run_children (detect_newline text) (elem_children node)
                              (initial_state text) in
      match utf8_encode (text_content run.1) with
      | Some encoded => dict_get r.1 target = Some encoded /\ r.2 = run.2
      | None =>
          dict_get r.1 target = Some content
          /\ r.2 = run.2 ++ [EditFailed target]
      end
  end
  /\ (forall p, p <> target -> dict_get r.1 p = dict_get tbl p)
  /\ process_edit_nodes self disk (node :: rest) tbl
     = ((process_edit_nodes self disk rest r.1).1,
        r.2 ++ (process_edit_nodes self disk rest r.1).2)
  /\ forall HAS_ZSTD ET_parse,
       enabled_mods self <> [] ->
       exists_ disk (resources0_path self) = true ->
       (apply_mods HAS_ZSTD ET_parse self disk no_faults).1.1
       = Returned true (SuccessfullyApplied (length (enabled_mods self))).
Proof.
  intros Hname Hne r. split; [|split; [|split]].
  - by apply process_edit_node_cases.
  - intros p Hp. apply process_edit_node_other. congruence.
  - simpl. fold r. destruct r as [t1 o1]. simpl.
    by destruct (process_edit_nodes self disk rest t1).
  - intros. by apply apply_mods_no_faults.
Qed.

(** * Two mods editing one file *)

Lemma load_base_file_present (self : ModApplicator) (disk : Disk)
  (fname : str) (tbl : pydict) :
  dict_mem tbl fname = true -> load_base_file self disk fname tbl = (tbl, []).
Proof. intros H. unfold load_base_file. by rewrite H. Qed.

(** An edit block whose target is in the table does not look at the base
    archive. *)
Lemma process_edit_node_present (self self' : ModApplicator)
  (disk disk' : Disk) (tbl : pydict) (node : Element) (target : str) :
  elem_get node (lit "name") = Some target ->
  dict_mem tbl target = true ->
  process_edit_node self' disk' tbl node = process_edit_node self disk tbl node.
Proof.
  intros Hn Hm. unfold process_edit_node. rewrite Hn.
  destruct target; [done |]. by rewrite Hm.
Qed.

(** A [find] that hits followed by a [replace]. *)
Lemma run_find_replace (newline_mode text : str) (find_child
  replace_child : Element) (k : Z) :
  str_lower (elem_tag find_child) = lit "find" ->
  str_lower (elem_tag replace_child) = lit "replace" ->
  occurs_at text (search_text_of newline_mode find_child) k ->
  exists r, 0 <= r <= k
    /\ occurs_at text (search_text_of newline_mode find_child) r
    /\ run_children newline_mode [find_child; replace_child]
                    (initial_state text)
       = (mkState (slice_to text r
                   ++ search_text_of newline_mode replace_child
                   ++ slice_from text
                        (r + py_len (search_text_of newline_mode find_child)))
                  (r + py_len (search_text_of newline_mode replace_child)) r
                  (r + py_len (search_text_of newline_mode replace_child)),
          [FindMatch r; ReplaceApplied]).
Proof.
  intros Hf Hr Ho.
  pose proof (occurs_at_bounds _ _ _ Ho) as [Hk0 Hk1].
  pose proof (py_len_nonneg (search_text_of newline_mode find_child)).
  destruct (do_find_hit (search_text_of newline_mode find_child)
              (initial_state text) k) as (r & Hrk & Hor & E);
    [simpl; lia | done | simpl; lia |].
  simpl in Hrk, Hor, E. exists r. split; [lia |]. split; [done |].
  cbn [run_children]. rewrite process_child_find by done. rewrite E.
  rewrite process_child_replace by done.
  pose proof (occurs_at_bounds _ _ _ Hor) as [Hr0 Hr1].
  rewrite do_replace_active by (simpl; lia). done.
Qed.

(** A [find] at block entry for a text the buffer holds. *)
Lemma run_find_first (newline_mode text : str) (find_child : Element)
  (rest : list Element) (pre post : str) :
  str_lower (elem_tag find_child) = lit "find" ->
  text = pre ++ search_text_of newline_mode find_child ++ post ->
  exists k out,
    occurs_at text (search_text_of newline_mode find_child) k
    /\ (run_children newline_mode (find_child :: rest)
                     (initial_state text)).2
       = FindMatch k :: out.
Proof.
  intros Hf Ht.
  assert (Ho : occurs_at text (search_text_of newline_mode find_child)
                 (py_len pre)) by (by exists pre, post).
  pose proof (py_len_nonneg pre).
  pose proof (occurs_at_bounds _ _ _ Ho) as [Hk0 Hk1].
  pose proof (py_len_nonneg (search_text_of newline_mode find_child)).
  destruct (do_find_hit (search_text_of newline_mode find_child)
              (initial_state text) (py_len pre)) as (r & Hrk & Hor & E);
    [simpl; lia | done | simpl; lia |].
  simpl in Hor, E. cbn [run_children].
  rewrite process_child_find by done. rewrite E.
  destruct (run_children newline_mode rest _) as [st out].
  exists r, out. by split.
Qed.

(** Blocks one after the other. *)
Lemma process_edit_nodes_app (self : ModApplicator) (disk : Disk)
  (l1 l2 : list Element) (tbl : pydict) :
  process_edit_nodes self disk (l1 ++ l2) tbl
  = ((process_edit_nodes self disk l2
        (process_edit_nodes self disk l1 tbl).1).1,
     (process_edit_nodes self disk l1 tbl).2
     ++ (process_edit_nodes self disk l2
           (process_edit_nodes self disk l1 tbl).1).2).
Proof.
  revert tbl. induction l1 as [|n r IH]; intros tbl; simpl.
  - by destruct (process_edit_nodes self disk l2 tbl).
  - destruct (process_edit_node self disk tbl n) as [t1 o1].
    rewrite IH. destruct (process_edit_nodes self disk r t1) as [t2 o2].
    simpl. destruct (process_edit_nodes self disk l2 t2) as [t3 o3].
    simpl. by rewrite (assoc_L (++)).
Qed.

(** Blocks that do not name [p] leave [p] alone. *)
Lemma process_edit_nodes_other (self : ModApplicator) (disk : Disk)
  (nodes : list Element) (tbl : pydict) (p : str) :
  (forall n, n ∈ nodes -> elem_get n (lit "name") <> Some p) ->
  dict_get (process_edit_nodes self disk nodes tbl).1 p = dict_get tbl p.
Proof.
  revert tbl. induction nodes as [|n r IH]; intros tbl Hno; simpl; [done |].
  pose proof (process_edit_node_other self disk tbl n p) as H1.
  destruct (process_edit_node self disk tbl n) as [t1 o1].
  assert (IH1 : dict_get (process_edit_nodes self disk r t1).1 p
                = dict_get t1 p)
    by (apply IH; intros n' Hn'; apply Hno; by right).
  destruct (process_edit_nodes self disk r t1) as [t2 o2]. simpl in *.
  rewrite IH1. apply H1, Hno. by left.
Qed.

(** A mod that does not touch [p] leaves [p] alone. *)
Lemma process_mod_other (ET_parse : bytes -> option Element)
  (self : ModApplicator) (disk : Disk) (m : Mod) (tbl : pydict) (p : str) :
  ~ mod_touches ET_parse disk m p ->
  dict_get (process_mod ET_parse self disk m tbl).1 p = dict_get tbl p.
Proof.
  intros Hno. unfold process_mod.
  destruct (open_zip disk (file_path m)) as [z|] eqn:Ez; [|done].
  assert (Hi : dict_get (inject_assets z z tbl).1 p = dict_get tbl p).
  { apply inject_assets_other. intros i Hi E. apply Hno.
    exists z. split; [done |]. left. by exists i. }
  destruct (inject_assets z z tbl) as [t1 [o1 raised]]. simpl in Hi.
  destruct raised; [done |]. case_bool_decide; [|done].
  destruct (zip_read z (lit "mod.xml")) as [b|] eqn:Er; [|done]. simpl.
  destruct (ET_parse b) as [root|] eqn:Ep; [|done].
  pose proof (process_edit_nodes_other self disk (findall_editfile root)
                t1 p) as He.
  destruct (process_edit_nodes self disk (findall_editfile root) t1)
    as [t2 o2]. simpl in *. rewrite He; [done |].
  intros n Hn E. apply Hno. exists z. split; [done |]. right.
  exists root, n. by rewrite Er.
Qed.

Lemma process_mods_other (ET_parse : bytes -> option Element)
  (self : ModApplicator) (disk : Disk) (mods : list Mod) (tbl : pydict)
  (p : str) :
  (forall m, m ∈ mods -> ~ mod_touches ET_parse disk m p) ->
  dict_get (process_mods ET_parse self disk mods tbl).1 p = dict_get tbl p.
Proof.
  revert tbl. induction mods as [|m r IH]; intros tbl Hno; simpl; [done |].
  pose proof (process_mod_other ET_parse self disk m tbl p) as H1.
  destruct (process_mod ET_parse self disk m tbl) as [t1 o1].
  assert (IH1 : dict_get (process_mods ET_parse self disk r t1).1 p
                = dict_get t1 p)
    by (apply IH; intros m' Hm'; apply Hno; by right).
  destruct (process_mods ET_parse self disk r t1) as [t2 o2]. simpl in *.
  rewrite IH1. apply H1, Hno. by left.
Qed.

(** Mods one after the other. *)
Lemma process_mods_app (ET_parse : bytes -> option Element)
  (self : ModApplicator) (disk : Disk) (l1 l2 : list Mod) (tbl : pydict) :
  process_mods ET_parse self disk (l1 ++ l2) tbl
  = ((process_mods ET_parse self disk l2
        (process_mods ET_parse self disk l1 tbl).1).1,
     (process_mods ET_parse self disk l1 tbl).2
     ++ (process_mods ET_parse self disk l2
           (process_mods ET_parse self disk l1 tbl).1).2).
Proof.
  revert tbl. induction l1 as [|m r IH]; intros tbl; simpl.
  - by destruct (process_mods ET_parse self disk l2 tbl).
  - destruct (process_mod ET_parse self disk m tbl) as [t1 o1].
    rewrite IH. destruct (process_mods ET_parse self disk r t1) as [t2 o2].
    simpl. destruct (process_mods ET_parse self disk l2 t2) as [t3 o3].
    simpl. by rewrite <- (assoc_L (++)).
Qed.

Section TwoMods.

Variable ET_parse : bytes -> option Element.
Variable self : ModApplicator.
Variable disk : Disk.

(** Mod A: among its edit blocks one on [X] with a [find] and a
    [replace], and no block on [X] after it. *)
Variables (A : Mod) (zA : ZipFile) (rootA nodeA findA replA : Element).
Variables beforeA afterA : list Element.
(** The mods between A and B: they do not touch [X]. *)
Variable mid : list Mod.
(** Mod B: its first edit block on [X] starts with a [find]. *)
Variables (B : Mod) (zB : ZipFile) (rootB nodeB findB : Element).
Variables (beforeB afterB restB : list Element).
Variables (X : str) (tbl0 : pydict) (content : bytes) (k0 : Z).

Hypothesis A_package : open_zip disk (file_path A) = Some zA.
Hypothesis A_assets_read : (inject_assets zA zA tbl0).2.2 = false.
Hypothesis A_has_manifest : lit "mod.xml" ∈ namelist zA.
Hypothesis A_manifest :
  zip_read zA (lit "mod.xml") ≫= ET_parse = Some rootA.
Hypothesis A_blocks : findall_editfile rootA = beforeA ++ nodeA :: afterA.
Hypothesis A_after :
  forall n, n ∈ afterA -> elem_get n (lit "name") <> Some X.
Hypothesis A_target : elem_get nodeA (lit "name") = Some X.
Hypothesis A_directives : elem_children nodeA = [findA; replA].
Hypothesis A_find : str_lower (elem_tag findA) = lit "find".
Hypothesis A_replace : str_lower (elem_tag replA) = lit "replace".

Hypothesis mid_leave_X :
  forall m, m ∈ mid -> ~ mod_touches ET_parse disk m X.

Hypothesis B_package : open_zip disk (file_path B) = Some zB.
Hypothesis B_assets_read :
  forall tbl, (inject_assets zB zB tbl).2.2 = false.
Hypothesis B_has_manifest : lit "mod.xml" ∈ namelist zB.
Hypothesis B_manifest :
  zip_read zB (lit "mod.xml") ≫= ET_parse = Some rootB.
Hypothesis B_blocks : findall_editfile rootB = beforeB ++ nodeB :: afterB.
Hypothesis B_before :
  forall n, n ∈ beforeB -> elem_get n (lit "name") <> Some X.
Hypothesis B_target : elem_get nodeB (lit "name") = Some X.
Hypothesis B_directives : elem_children nodeB = findB :: restB.
Hypothesis B_find : str_lower (elem_tag findB) = lit "find".
Hypothesis B_ships_no_X :
  forall i, i ∈ zB -> str_replace (filename i) (lit "\") (lit "/") <> X.

(** The table when A's block on [X] starts, and what the block finds at
    [X], in the table or in the base archive. *)
Let tblA0 : pydict :=
  (process_edit_nodes self disk beforeA (inject_assets zA zA tbl0).1).1.
Hypothesis X_named : X <> [].
Hypothesis X_content : target_content self disk tblA0 X = Some content.
Hypothesis X_not_empty : content <> [].
Hypothesis X_bytes : bytes_ok content.

Let text : str := decode_content content.
Let modeA : str := detect_newline text.
(** The text A's [replace] puts into the file. *)
Let s : str := search_text_of modeA replA.
(** The buffer A's block ends with. *)
Let bufA : str :=
  text_content (run_children modeA [findA; replA] (initial_state text)).1.

Hypothesis A_find_hits : occurs_at text (search_text_of modeA findA) k0.
Hypothesis s_not_empty : s <> [].
Hypothesis s_encodes : is_Some (utf8_encode s).
(** B searches for the text A put in. *)
Hypothesis B_literal : search_text_of (detect_newline bufA) findB = s.

Lemma text_encodes : is_Some (utf8_encode text).
Proof. by apply decode_content_encodes. Qed.

Lemma bufA_shape :
  exists pre post, bufA = pre ++ s ++ post
    /\ (run_children modeA [findA; replA] (initial_state text)).2
       = [FindMatch (py_len pre); ReplaceApplied]
    /\ is_Some (utf8_encode pre) /\ is_Some (utf8_encode post).
Proof.
  destruct (run_find_replace modeA text findA replA k0 A_find A_replace
              A_find_hits) as (r & Hr & Ho & E).
  pose proof (occurs_at_bounds _ _ _ Ho) as [Hr0 Hr1].
  pose proof (py_len_nonneg (search_text_of modeA findA)).
  exists (slice_to text r),
    (slice_from text (r + py_len (search_text_of modeA findA))).
  unfold bufA. rewrite E. simpl. split; [done |].
  rewrite py_len_slice_to by lia. split; [done |].
  destruct text_encodes as [enc He].
  rewrite slice_to_take, slice_from_drop by lia. split.
  - rewrite <- (take_drop (Z.to_nat r) text), utf8_encode_app in He.
    by destruct (utf8_encode (take (Z.to_nat r) text)).
  - rewrite <- (take_drop
      (Z.to_nat (r + py_len (search_text_of modeA findA))) text),
      utf8_encode_app in He.
    destruct (utf8_encode (take _ text)); [|done].
    by destruct (utf8_encode (drop _ text)).
Qed.

Lemma bufA_encodes : is_Some (utf8_encode bufA).
Proof.
  destruct bufA_shape as (pre & post & -> & _ & [x Hx] & [y Hy]).
  destruct s_encodes as [z Hz].
  rewrite !utf8_encode_app, Hx, Hy, Hz. done.
Qed.

(** The table after mod A holds A's buffer at [X]. *)
Lemma table_after_A :
  exists enc, utf8_encode bufA = Some enc /\ enc <> []
    /\ dict_get (process_mod ET_parse self disk A tbl0).1 X = Some enc.
Proof.
  destruct bufA_encodes as [enc He]. exists enc. split; [done |].
  split.
  { intros ->. apply utf8_encode_nil in He.
    destruct bufA_shape as (pre & post & Hb & _). rewrite He in Hb.
    symmetry in Hb. apply app_eq_nil in Hb as [_ Hb].
    apply app_eq_nil in Hb as [Hb _]. by apply s_not_empty. }
  unfold process_mod. rewrite A_package.
  pose proof A_assets_read as Hread. unfold tblA0 in X_content.
  destruct (inject_assets zA zA tbl0) as [t1 [o1 raised]].
  simpl in Hread, X_content. subst raised.
  rewrite bool_decide_eq_true_2 by done. rewrite A_manifest, A_blocks.
  rewrite process_edit_nodes_app. cbn [fst snd].
  destruct (process_edit_nodes self disk beforeA t1) as [t2 o2].
  simpl in X_content. cbn [process_edit_nodes fst snd].
  pose proof (process_edit_node_run self disk t2 nodeA X content A_target
                X_named X_content X_not_empty) as Hc. cbv zeta in Hc.
  rewrite A_directives in Hc. fold text modeA bufA in Hc.
  rewrite He in Hc. destruct Hc as [Hg _].
  destruct (process_edit_node self disk t2 nodeA) as [t3 o3].
  simpl in Hg.
  pose proof (process_edit_nodes_other self disk afterA t3 X A_after) as Ha.
  destruct (process_edit_nodes self disk afterA t3) as [t4 o4].
  simpl in *. by rewrite Ha.
Qed.


End TwoMods.

(** * The theorems at concrete inputs *)

Lemma replace_directive_witness :
  wf_state state_after_find
  /\ str_lower (elem_tag (replace_node "bar")) = lit "replace"
  /\ process_child [LF] state_after_find (replace_node "bar")
     = (mkState (lit "a bar b foo") 5 2 5, [ReplaceApplied]).
Proof.
  assert (state_after_find_wf : wf_state state_after_find)
    by (unfold wf_state; vm_compute; intuition discriminate).
  split; [exact state_after_find_wf |]. split; [reflexivity |].
  destruct (replace_directive [LF] state_after_find (replace_node "bar")
              state_after_find_wf eq_refl) as [Hact _].
  destruct Hact as (E & _); [vm_compute; discriminate |].
  rewrite E. reflexivity.
Defined.

Lemma insert_directive_witness :
  wf_state state_after_find
  /\ str_lower (elem_tag (insert_node "new " (Some "before"))) = lit "insert"
  /\ text_content
       (process_child [LF]
          (process_child [LF] state_after_find
             (insert_node "new " (Some "before"))).1
          (replace_node "bar")).1
     = lit "a new bar b foo".
Proof.
  assert (state_after_find_wf : wf_state state_after_find)
    by (unfold wf_state; vm_compute; intuition discriminate).
  split; [exact state_after_find_wf |]. split; [reflexivity |].
  destruct (insert_directive [LF] state_after_find
              (insert_node "new " (Some "before"))
              state_after_find_wf eq_refl) as [Hbefore _].
  destruct Hbefore as (E & _ & Hrep);
    [vm_compute; discriminate | reflexivity |].
  rewrite E. cbn [fst]. rewrite (Hrep (replace_node "bar") eq_refl).
  reflexivity.
Defined.

Lemma findup_directive_witness :
  0 <= cursor state_after_find <= py_len (text_content state_after_find)
  /\ str_lower (elem_tag (findup_node "foo" (Some "end"))) = lit "findup"
  /\ exists k,
       (forall k', occurs_at (text_content state_after_find) (lit "foo") k' ->
          k' <= k)
       /\ process_child [LF] state_after_find
            (findup_node "foo" (Some "end"))
          = (mkState (lit "a foo b foo") (k + 3) k (k + 3), [FindUpMatch k]).
Proof.
  assert (Hc : 0 <= cursor state_after_find
               <= py_len (text_content state_after_find))
    by (vm_compute; intuition discriminate).
  split; [exact Hc |]. split; [reflexivity |].
  destruct (findup_directive [LF] state_after_find
              (findup_node "foo" (Some "end")) Hc eq_refl)
    as [[_ [shown E]] | (k & Ho & Hle & Hmax & E)].
  - vm_compute in E. discriminate.
  - exists k. split; [|exact E].
    intros k' Hk'. apply Hmax; [exact Hk' |].
    apply occurs_at_bounds in Hk'. exact (proj2 Hk').
Defined.

Lemma failed_directive_continues_witness :
  0 <= cursor state_after_find <= py_len (text_content state_after_find)
  /\ (forall k, occurs_at (text_content state_after_find) (lit "zzz") k ->
        k < cursor state_after_find)
  /\ run_children [LF] [find_node "zzz"; replace_node "bar"] state_after_find
     = (mkState (lit "a bar b foo") 5 2 5,
        [FindMiss (lit "zzz"); ReplaceApplied]).
Proof.
  assert (Hc : 0 <= cursor state_after_find
               <= py_len (text_content state_after_find))
    by (vm_compute; intuition discriminate).
  assert (Hno : forall k,
            occurs_at (text_content state_after_find) (lit "zzz") k ->
            k < cursor state_after_find).
  { intros k Hk.
    destruct (str_find_spec (text_content state_after_find) (lit "zzz") 0)
      as [[_ Hlt] | (_ & Ho & _)].
    - vm_compute. intuition discriminate.
    - pose proof (Hlt _ Hk). apply occurs_at_bounds in Hk. lia.
    - apply occurs_at_bounds in Ho. vm_compute in Ho. intuition. }
  split; [exact Hc |]. split; [exact Hno |].
  destruct (failed_directive_continues [LF] state_after_find
              (find_node "zzz") [replace_node "bar"] Hc
              (or_introl (conj eq_refl Hno))) as (diag & _ & Hstep & Hrun).
  rewrite Hrun. vm_compute in Hstep. injection Hstep as <-. reflexivity.
Defined.

Lemma find_empty_literal_witness :
  0 <= cursor state_no_match <= py_len (text_content state_no_match)
  /\ str_lower (elem_tag (find_node EmptyString)) = lit "find"
  /\ elem_text (find_node EmptyString) = Some []
  /\ run_children [LF] [find_node EmptyString; replace_node "bar "] state_no_match
     = (mkState (lit "a fobar o b foo") 8 4 8,
        [FindMatch 4; ReplaceApplied]).
Proof.
  assert (Hc : 0 <= cursor state_no_match
               <= py_len (text_content state_no_match))
    by (vm_compute; intuition discriminate).
  split; [exact Hc |]. split; [reflexivity |]. split; [reflexivity |].
  destruct (find_empty_literal [LF] state_no_match (find_node EmptyString) Hc
              eq_refl (or_intror eq_refl)) as [Hfind Hrep].
  cbn [run_children]. rewrite Hfind.
  rewrite (Hrep (replace_node "bar ") eq_refl). reflexivity.
Defined.

(** C1, as stated, fails when the rename of the commit raises: the
    previous final archive was deleted just before, so the run returns
    failure and the final path, which held an archive, holds nothing. *)
Lemma rename_failure_loses_previous_output :
  let self := sample_applicator [mod_A] in
  let r := apply_mods true sample_parse self sample_disk rename_refused in
  enabled_mods self = [mod_A]
  /\ sample_disk !! final_output_path self = Some (Zip previous_output)
  /\ r.1.1 = Returned false (ErrorText (lit "access denied"))
  /\ r.1.2 !! temp_output_path self = None
  /\ r.1.2 !! final_output_path self = None
  /\ r.1.2 !! final_output_path self <> sample_disk !! final_output_path self.
Proof. vm_compute. repeat split. discriminate. Qed.

Lemma apply_mods_failure_witness :
  let self := sample_applicator [mod_A] in
  let r := apply_mods true sample_parse self sample_disk write_interrupted in
  enabled_mods self <> []
  /\ exists_ sample_disk (resources0_path self) = true
  /\ r.1.1 = Returned false (ErrorText (lit "disk full"))
  /\ r.1.2 !! temp_output_path self = None
  /\ r.1.2 !! final_output_path self = Some (Zip previous_output).
Proof.
  intros self r.
  assert (Hen : enabled_mods self <> []) by (vm_compute; discriminate).
  split; [exact Hen |]. split; [reflexivity |].
  destruct (apply_mods_failure true sample_parse self sample_disk
              write_interrupted (lit "disk full") Hen eq_refl
              (or_introl eq_refl) eq_refl) as [Hwrite _].
  destruct Hwrite as (Hres & Htemp & Hfinal).
  - left. exists true. reflexivity.
  - fold r in Hres, Htemp, Hfinal. rewrite Hres, Htemp, Hfinal.
    split; [reflexivity |]. split; reflexivity.
Defined.

(** C2, as stated, fails: the base archive holds ui/other.txt, no mod
    touches it, and the derived archive of a successful run does not hold
    it. *)
Lemma untouched_base_member_absent :
  let self := sample_applicator [mod_A] in
  let r := apply_mods true sample_parse self sample_disk no_faults in
  r.1.1 = Returned true (SuccessfullyApplied 1)
  /\ content_mapping sample_base (lit "ui/other.txt") = Some (lit "untouched")
  /\ exists z, r.1.2 !! final_output_path self = Some (Zip z)
       /\ content_mapping z (lit "ui/main.txt") = Some (lit "hello mods")
       /\ content_mapping z (lit "ui/other.txt") = None.
Proof.
  vm_compute. split; [reflexivity |]. split; [reflexivity |].
  eexists. split; [reflexivity |]. split; reflexivity.
Qed.

Lemma derived_archive_is_table_witness :
  let self := sample_applicator [mod_A] in
  let r := apply_mods true sample_parse self sample_disk no_faults in
  enabled_mods self <> []
  /\ r.1.1 = Returned true (SuccessfullyApplied 1)
  /\ exists z, r.1.2 !! final_output_path self = Some (Zip z)
       /\ forall p, content_mapping z p
                    = dict_get (final_table sample_parse self sample_disk) p.
Proof.
  intros self r.
  assert (Hen : enabled_mods self <> []) by (vm_compute; discriminate).
  split; [exact Hen |]. split; [reflexivity |].
  destruct (derived_archive_is_table true sample_parse self sample_disk
              no_faults (SuccessfullyApplied 1) Hen eq_refl)
    as (z & Hz & Hmap & _).
  exists z. split; [exact Hz | exact Hmap].
Defined.

(** C8, as stated, fails on a zero-length target: ui/empty.txt is a member
    of the base archive, the directives of the block would turn its empty
    content into "filled", and yet the block is skipped: the table holds
    the empty content, and nothing is printed. *)
Lemma zero_length_target_is_skipped :
  let self := sample_applicator [mod_E] in
  let node := editfile_node "ui/empty.txt"
                [find_node EmptyString; replace_node "filled"] in
  let r := process_edit_node self sample_disk [] node in
  content_mapping sample_base (lit "ui/empty.txt") = Some []
  /\ target_content self sample_disk [] (lit "ui/empty.txt") = Some []
  /\ text_content
       (run_children (detect_newline []) (elem_children node)
                     (initial_state [])).1 = lit "filled"
  /\ r = ([(lit "ui/empty.txt", [])], [])
  /\ dict_get r.1 (lit "ui/empty.txt") <> Some (lit "filled").
Proof. vm_compute. repeat split. discriminate. Qed.

Lemma edit_block_skip_or_run_witness :
  let self := sample_applicator [mod_E] in
  let node := editfile_node "ui/main.txt"
                [find_node "hello"; replace_node "bye"] in
  elem_get node (lit "name") = Some (lit "ui/main.txt")
  /\ lit "ui/main.txt" <> []
  /\ dict_get (process_edit_node self sample_disk [] node).1
              (lit "ui/main.txt") = Some (lit "bye world").
Proof.
  intros self node.
  assert (Hne : lit "ui/main.txt" <> []) by (vm_compute; discriminate).
  split; [reflexivity |]. split; [exact Hne |].
  destruct (edit_block_skip_or_run self sample_disk [] node
              (lit "ui/main.txt") [] eq_refl Hne) as [Hrun _].
  vm_compute in Hrun. destruct Hrun as [Hget _].
  vm_compute. exact Hget.
Defined.

Lemma apply_twice_same_output_witness :
  let self := sample_applicator [mod_A; mod_B] in
  let r1 := apply_mods true sample_parse self sample_disk no_faults in
  let r2 := apply_mods true sample_parse self r1.1.2 no_faults in
  enabled_mods self <> []
  /\ r1.1.1 = Returned true (SuccessfullyApplied 2)
  /\ r2.1.1 = Returned true (SuccessfullyApplied 2)
  /\ r2.1.2 !! final_output_path self = r1.1.2 !! final_output_path self.
Proof.
  intros self r1 r2.
  assert (Hen : enabled_mods self <> []) by (vm_compute; discriminate).
  split; [exact Hen |]. split; [reflexivity |]. split; [reflexivity |].
  destruct (apply_twice_same_output true sample_parse self sample_disk
              no_faults no_faults Hen) as (z & H1 & H2 & _).
  - exists (SuccessfullyApplied 2). reflexivity.
  - exists (SuccessfullyApplied 2). reflexivity.
  - reflexivity.
  - intros m Hm. change (enabled_mods self) with [mod_A; mod_B] in Hm.
    apply elem_of_cons in Hm as [-> | Hm]; [reflexivity |].
    apply elem_of_cons in Hm as [-> | Hm]; [reflexivity |].
    apply elem_of_nil in Hm. destruct Hm.
  - fold r1 in H1. fold r1 r2 in H2. rewrite H1, H2. reflexivity.
Defined.



(** The line ending of a file is detected anew at every block.  Here the
    first block runs in LF mode and puts its line feed right after a lone
    carriage return; the second block then runs in CRLF mode, where the
    same literal stands for another text, and its [find] misses. *)
Example line_ending_changes_between_blocks :
  let self := sample_applicator [] in
  let rA := process_edit_node self sample_disk cr_table block_cr_A in
  let rB := process_edit_node self sample_disk rA.1 block_cr_B in
  detect_newline [CR; 98] = [LF]
  /\ rA = ([(lit "ui/cr.txt", [CR; LF; 99; LF; 100])],
           [FindMatch 1; ReplaceApplied])
  /\ detect_newline [CR; LF; 99; LF; 100] = [CR; LF]
  /\ normalize [CR; LF] two_lines = [CR; LF; 99; CR; LF; 100]
  /\ rB.2 = [FindMiss [CR; LF; 99; CR; LF; 100]].
Proof. vm_compute. repeat split. Qed.

(** * More on the directives *)

(** What a forward search does, by the occurrences of its text. *)
Lemma do_find_spec (t : str) (st : MatchState) :
  0 <= cursor st <= py_len (text_content st) ->
  (forall k, occurs_at (text_content st) t k -> k < cursor st)
  /\ do_find t st = (st, [FindMiss (slice_to t 20)])
  \/ exists k,
       cursor st <= k
       /\ occurs_at (text_content st) t k
       /\ (forall k', occurs_at (text_content st) t k' ->
             cursor st <= k' -> k <= k')
       /\ do_find t st
          = (mkState (text_content st) (k + py_len t) k (k + py_len t),
             [FindMatch k]).
Proof.
  intros Hc. unfold do_find.
  destruct (str_find_spec (text_content st) t (cursor st) Hc)
    as [[E Hno] | (Hge & Ho & Hmin)].
  - left. split; [done |]. by rewrite E.
  - right. exists (str_find (text_content st) t (cursor st)).
    repeat split; [done | done | done |].
    destruct (Z.eqb_spec (str_find (text_content st) t (cursor st)) (-1));
      [lia | done].
Qed.

Lemma occurs_at_slice (s sub : str) (k : Z) :
  occurs_at s sub k -> slice s k (k + py_len sub) = sub.
Proof. intros (pre & post & -> & <-). apply slice_middle. Qed.

(** X1. [find] takes the first occurrence of its text at or after the
    cursor: the match span is that occurrence (the buffer reads as the
    text there) and the cursor moves to its end, the buffer being left as
    it is; with no occurrence at or after the cursor it prints a miss and
    changes nothing. *)
Theorem find_directive (newline_mode : str) (st : MatchState)
  (child : Element) :
  0 <= cursor st <= py_len (text_content st) ->
  str_lower (elem_tag child) = lit "find" ->
  let t := search_text_of newline_mode child in
  (forall k, occurs_at (text_content st) t k -> k < cursor st)
  /\ (exists shown,
        process_child newline_mode st child = (st, [FindMiss shown]))
  \/ exists k,
       cursor st <= k
       /\ slice (text_content st) k (k + py_len t) = t
       /\ (forall k', occurs_at (text_content st) t k' ->
             cursor st <= k' -> k <= k')
       /\ process_child newline_mode st child
          = (mkState (text_content st) (k + py_len t) k (k + py_len t),
             [FindMatch k]).
Proof.
  intros Hc Htag t. rewrite process_child_find by done. fold t.
  destruct (do_find_spec t st Hc) as [[Hno E] | (k & Hk & Ho & Hmin & E)].
  - left. split; [done |]. rewrite E. eauto.
  - right. exists k. repeat split; try done. by apply occurs_at_slice.
Qed.

(** An active match span stays active. *)
Lemma process_child_active (newline_mode : str) (st : MatchState)
  (child : Element) :
  wf_state st -> match_start st <> -1 ->
  match_start (process_child newline_mode st child).1 <> -1.
Proof.
  intros [Hc Hm] Hact. destruct Hm as [?|Hm]; [done |].
  unfold process_child.
  set (t := search_text_of newline_mode child).
  pose proof (py_len_nonneg t) as Ht.
  repeat case_match; try done.
  - destruct (do_find_spec t st Hc) as [[_ ->] | (k & Hk & _ & _ & ->)];
      simpl; lia.
  - destruct (do_findup_spec t (elem_get child (lit "position")) st Hc)
      as [[_ ->] | (k & Ho & _ & _ & ->)]; [done |].
    apply occurs_at_bounds in Ho. simpl. lia.
  - rewrite do_replace_active by done. done.
  - unfold do_insert. destruct (Z.eqb_spec (match_start st) (-1)); [done |].
    simpl. case_match; simpl; lia.
Qed.

(** X2. Through any list of directives the state stays well formed: the
    cursor stays inside the buffer and an active match span stays inside
    it before the cursor; and a span that is active stays active, no
    directive ever resets it. *)
Theorem run_children_keeps_state (newline_mode : str)
  (cs : list Element) (st : MatchState) :
  wf_state st ->
  wf_state (run_children newline_mode cs st).1
  /\ (match_start st <> -1 ->
      match_start (run_children newline_mode cs st).1 <> -1).
Proof.
  revert st. induction cs as [|c r IH]; intros st Hwf; [done |].
  cbn [run_children].
  pose proof (process_child_wf newline_mode st c Hwf) as H1.
  pose proof (process_child_active newline_mode st c Hwf) as H2.
  destruct (process_child newline_mode st c) as [st1 o1].
  destruct (IH st1 H1) as [H3 H4].
  destruct (run_children newline_mode r st1) as [st2 o2]. simpl in *.
  split; [done |]. intros Hact. by apply H4, H2.
Qed.

(** * Line endings of the literals *)

(** Replacing a one-character text goes character by character. *)
Lemma str_replace_char (s : str) (c : Z) (new : str) :
  str_replace s [c] new
  = flat_map (fun d => if d =? c then new else [d]) s.
Proof.
  unfold str_replace. induction s as [|d s IH]; [done |].
  cbn [replace_scan startswith flat_map length]. rewrite andb_true_r.
  rewrite (Z.eqb_sym c d). destruct (d =? c); simpl; by rewrite IH.
Qed.

(** A text without carriage return has no CRLF to replace. *)
Lemma str_replace_crlf_no_cr (t : str) :
  CR ∉ t -> str_replace t [CR; LF] [LF] = t.
Proof.
  unfold str_replace. induction t as [|c t IH]; [done |].
  intros Hc. apply not_elem_of_cons in Hc as [Hc Ht].
  cbn [replace_scan startswith].
  destruct (Z.eqb_spec CR c) as [E|_]; [by subst |]. simpl.
  by rewrite IH.
Qed.

(** Replacing CRLF by LF undoes [crlf_of] on such a text. *)
Lemma str_replace_crlf_of (t : str) :
  CR ∉ t -> str_replace (crlf_of t) [CR; LF] [LF] = t.
Proof.
  unfold str_replace, crlf_of. induction t as [|c t IH]; [done |].
  intros Hc. apply not_elem_of_cons in Hc as [Hc Ht].
  cbn [flat_map]. destruct (Z.eqb_spec c LF) as [->|Hne].
  - cbn [app replace_scan startswith length]. simpl. by rewrite IH.
  - cbn [app replace_scan startswith].
    destruct (Z.eqb_spec CR c) as [E|_]; [by subst |]. simpl.
    by rewrite IH.
Qed.

Lemma flat_map_lf_id (t : str) :
  flat_map (fun d => if d =? LF then [LF] else [d]) t = t.
Proof.
  induction t as [|c t IH]; [done |]. simpl. rewrite IH.
  by destruct (Z.eqb_spec c LF) as [->|_].
Qed.

Lemma normalize_forms (t : str) :
  CR ∉ t ->
  normalize [LF] t = t
  /\ normalize [LF] (crlf_of t) = t
  /\ normalize [CR; LF] t = crlf_of t
  /\ normalize [CR; LF] (crlf_of t) = crlf_of t.
Proof.
  intros Hc. unfold normalize.
  rewrite str_replace_crlf_of, str_replace_crlf_no_cr by done.
  rewrite !str_replace_char. fold (crlf_of t).
  by rewrite flat_map_lf_id.
Qed.

(** X3. For a literal without carriage returns the line ending it was
    written with does not matter: written with LF or with CRLF, it
    normalises to the LF form for a file in LF mode and to the CRLF form
    for a file in CRLF mode. *)
Theorem normalize_line_endings (t : str) :
  CR ∉ t ->
  normalize [LF] t = t
  /\ normalize [LF] (crlf_of t) = t
  /\ normalize [CR; LF] t = crlf_of t
  /\ normalize [CR; LF] (crlf_of t) = crlf_of t.
Proof. exact (normalize_forms t). Qed.

Lemma flat_map_crlf_lf (l pre post : str) :
  flat_map (fun d => if d =? LF then [CR; LF] else [d]) l
  = pre ++ LF :: post ->
  exists pre', pre = pre' ++ [CR].
Proof.
  revert pre. induction l as [|c l IH]; intros pre; simpl.
  - intros H. by destruct pre.
  - destruct (Z.eqb_spec c LF) as [->|Hne]; simpl.
    + destruct pre as [|p0 [|p1 pre]]; simpl; intros H.
      * injection H as H _. discriminate.
      * injection H as <- _. by exists [].
      * injection H as <- <- H. destruct (IH pre H) as [pre' ->].
        by exists (CR :: LF :: pre').
    + destruct pre as [|p0 pre]; simpl; intros H.
      * injection H as -> _. done.
      * injection H as <- H. destruct (IH pre H) as [pre' ->].
        by exists (c :: pre').
Qed.

(** X4. A literal normalised for a file in CRLF mode has no bare line
    feed: every line feed in it comes right after a carriage return,
    whatever the literal was. *)
Theorem normalize_crlf_no_bare_lf (raw_text pre post : str) :
  normalize [CR; LF] raw_text = pre ++ LF :: post ->
  exists pre', pre = pre' ++ [CR].
Proof.
  unfold normalize. rewrite str_replace_char. apply flat_map_crlf_lf.
Qed.

Lemma str_contains_occurs (s sub : str) (k : Z) :
  occurs_at s sub k -> str_contains s sub = true.
Proof.
  intros Ho. unfold str_contains.
  destruct (find_scan_spec sub s 0)
    as [(j & _ & _ & -> & _) | [Hno _]].
  - apply negb_true_iff, Z.eqb_neq. lia.
  - exfalso. pose proof (occurs_at_bounds _ _ _ Ho) as [H0 H1].
    pose proof (py_len_nonneg sub).
    assert (Hb : (Z.to_nat k <= length s)%nat) by (unfold py_len in *; lia).
    specialize (Hno _ Hb).
    replace k with (Z.of_nat (Z.to_nat k)) in Ho by lia.
    apply occurs_at_drop in Ho; congruence.
Qed.

Lemma crlf_of_no_lf (t : str) : LF ∉ t -> crlf_of t = t.
Proof.
  unfold crlf_of. induction t as [|c t IH]; [done |].
  intros H. apply not_elem_of_cons in H as [Hc Ht]. simpl.
  destruct (Z.eqb_spec c LF); [done |]. by rewrite IH.
Qed.

Lemma normalize_no_newline (newline_mode t : str) :
  CR ∉ t -> LF ∉ t -> normalize newline_mode t = t.
Proof.
  intros Hc Hl. unfold normalize.
  rewrite str_replace_crlf_no_cr, str_replace_char by done.
  induction t as [|c t IH]; [done |].
  apply not_elem_of_cons in Hc as [? ?].
  apply not_elem_of_cons in Hl as [? ?]. simpl.
  destruct (Z.eqb_spec c LF); [done |]. by rewrite IH.
Qed.

(** A buffer that holds the CRLF form of a text with a line feed is in
    CRLF mode. *)
Lemma detect_newline_crlf_of (t pre post : str) :
  LF ∈ t -> detect_newline (pre ++ crlf_of t ++ post) = [CR; LF].
Proof.
  intros Hl. apply list_elem_of_split in Hl as (l1 & l2 & ->).
  unfold detect_newline.
  rewrite (str_contains_occurs _ _ (py_len (pre ++ crlf_of l1))); [done |].
  exists (pre ++ crlf_of l1), (crlf_of l2 ++ post). split; [|done].
  unfold crlf_of. rewrite flat_map_app. simpl.
  by rewrite <- !(assoc_L (++)).
Qed.

(** X5. A literal without carriage returns, written with LF or with CRLF
    line breaks, is found in a file that holds it with CRLF line breaks,
    and, when the file is in LF mode, in a file that holds it with LF line
    breaks: the [find] at block entry hits at or before the place where
    the file holds it. *)
Theorem literal_found_across_line_endings (t pre post : str)
  (find_child : Element) :
  CR ∉ t ->
  str_lower (elem_tag find_child) = lit "find" ->
  elem_text find_child = Some t \/ elem_text find_child = Some (crlf_of t) ->
  (let buf := pre ++ crlf_of t ++ post in
   exists k, 0 <= k <= py_len pre
     /\ process_child (detect_newline buf) (initial_state buf) find_child
        = (mkState buf (k + py_len (crlf_of t)) k
                   (k + py_len (crlf_of t)), [FindMatch k]))
  /\ (let buf := pre ++ t ++ post in
      detect_newline buf = [LF] ->
      exists k, 0 <= k <= py_len pre
        /\ process_child (detect_newline buf) (initial_state buf) find_child
           = (mkState buf (k + py_len t) k (k + py_len t), [FindMatch k])).
Proof.
  intros Hc Htag Htext.
  destruct (normalize_forms t Hc) as (N1 & N2 & N3 & N4).
  pose proof (py_len_nonneg pre) as Hpre.
  assert (Hhit : forall mode buf u,
            search_text_of mode find_child = u ->
            buf = pre ++ u ++ post ->
            exists k, 0 <= k <= py_len pre
              /\ process_child mode (initial_state buf) find_child
                 = (mkState buf (k + py_len u) k (k + py_len u),
                    [FindMatch k])).
  { intros mode buf u Hu ->. rewrite process_child_find by done.
    rewrite Hu.
    assert (Ho : occurs_at (pre ++ u ++ post) u (py_len pre))
      by (by exists pre, post).
    pose proof (occurs_at_bounds _ _ _ Ho) as [? ?].
    pose proof (py_len_nonneg u).
    destruct (do_find_hit u (initial_state (pre ++ u ++ post)) (py_len pre))
      as (r & Hr & _ & E); [simpl; lia | done | simpl; lia |].
    simpl in Hr, E. exists r. split; [lia | done]. }
  split.
  - intros buf. apply Hhit; [|done]. unfold search_text_of.
    destruct (decide (LF ∈ t)) as [Hl|Hl].
    + unfold buf. rewrite (detect_newline_crlf_of t pre post Hl).
      by destruct Htext as [-> | ->].
    + rewrite (crlf_of_no_lf t Hl) in *.
      assert (E : default [] (elem_text find_child) = t)
        by (by destruct Htext as [-> | ->]).
      rewrite E. by apply normalize_no_newline.
  - intros buf Hmode. rewrite Hmode. apply Hhit; [|done].
    unfold search_text_of. by destruct Htext as [-> | ->].
Qed.

(** * More on the engine *)

(** ** Asset injection *)

Lemma is_asset_test (i : ZipInfo) :
  is_asset i
  <-> is_dir i || bool_decide (str_lower (stored_name i) ∈ ignored_files)
      = false.
Proof.
  unfold is_asset. rewrite orb_false_iff, bool_decide_eq_false. done.
Qed.

(** Members that are no assets, or are stored elsewhere, leave [p]. *)
Lemma inject_assets_untouched (infolist : list ZipInfo) (z_mod : ZipFile)
  (tbl : pydict) (p : str) :
  (forall i, i ∈ infolist -> is_asset i -> stored_name i <> p) ->
  dict_get (inject_assets infolist z_mod tbl).1 p = dict_get tbl p.
Proof.
  revert tbl. induction infolist as [|i r IH]; intros tbl Hno; [done |].
  assert (Hr : forall j, j ∈ r -> is_asset j -> stored_name j <> p)
    by (intros j Hj; apply Hno; by right).
  rewrite inject_assets_step. fold (stored_name i).
  destruct (is_dir i || _) eqn:E; [by apply IH |].
  destruct (zip_read z_mod (filename i)); [|done].
  rewrite IH by done. apply dict_get_set_ne, Hno; [by left |].
  by apply is_asset_test.
Qed.

(** Whether a read raises, member by member. *)
Lemma inject_assets_raised (i : ZipInfo) (rest : list ZipInfo)
  (z_mod : ZipFile) (tbl : pydict) :
  (inject_assets (i :: rest) z_mod tbl).2.2
  = if is_dir i || bool_decide (str_lower (stored_name i) ∈ ignored_files)
    then (inject_assets rest z_mod tbl).2.2
    else match zip_read z_mod (filename i) with
         | Some content =>
             (inject_assets rest z_mod
                (dict_set tbl (stored_name i) content)).2.2
         | None => true
         end.
Proof.
  cbn [inject_assets]. fold (stored_name i).
  destruct (is_dir i || _); [done |].
  destruct (zip_read z_mod (filename i)); [|done].
  by destruct (inject_assets rest z_mod _) as [t [o r]].
Qed.

(** X6. The injection loop never stores anything under a reserved name
    (mod.xml, icon.png, changelog.txt, icon.jpg, thumbs.db), in whatever
    letter case the package spells it: what the table holds there is what
    it held before. *)
Theorem inject_assets_skips_reserved (infolist : list ZipInfo)
  (z_mod : ZipFile) (tbl : pydict) (p : str) :
  str_lower p ∈ ignored_files ->
  dict_get (inject_assets infolist z_mod tbl).1 p = dict_get tbl p.
Proof.
  intros Hp. apply inject_assets_untouched.
  intros i _ [_ Hi] E. apply Hi. by rewrite E.
Qed.


Lemma stored_name_no_backslash (i : ZipInfo) : 92 ∉ stored_name i.
Proof.
  unfold stored_name. change (lit "\") with [92]. change (lit "/") with [47].
  rewrite str_replace_char. induction (filename i) as [|c s IH]; simpl.
  - apply not_elem_of_nil.
  - destruct (Z.eqb_spec c 92).
    + simpl. apply not_elem_of_cons. split; [done | exact IH].
    + simpl. apply not_elem_of_cons. split; [congruence | exact IH].
Qed.

(** X8. Every key the injection loop adds to the table is free of
    backslashes: a path that holds one and is in the table afterwards was
    in the table before. *)
Theorem inject_assets_no_backslash (infolist : list ZipInfo)
  (z_mod : ZipFile) (tbl : pydict) (p : str) :
  92 ∈ p ->
  dict_get (inject_assets infolist z_mod tbl).1 p = dict_get tbl p.
Proof.
  intros Hp. apply inject_assets_untouched.
  intros i _ _ E. apply (stored_name_no_backslash i). by rewrite E.
Qed.

(** ** Packages that fail *)

(** The loop ends at the first asset whose read raises. *)
Lemma inject_assets_abort (before after : list ZipInfo) (i : ZipInfo)
  (z_mod : ZipFile) (tbl : pydict) :
  (inject_assets before z_mod tbl).2.2 = false ->
  is_asset i ->
  zip_read z_mod (filename i) = None ->
  inject_assets (before ++ i :: after) z_mod tbl
  = ((inject_assets before z_mod tbl).1,
     ((inject_assets before z_mod tbl).2.1
      ++ [AssetInjected (stored_name i)], true)).
Proof.
  intros Hread Hi Hz. revert tbl Hread.
  induction before as [|b before IH]; intros tbl Hread; simpl app.
  - cbn [inject_assets]. fold (stored_name i).
    apply is_asset_test in Hi. by rewrite Hi, Hz.
  - rewrite inject_assets_raised in Hread. cbn [inject_assets].
    fold (stored_name b). destruct (is_dir b || _); [by apply IH |].
    destruct (zip_read z_mod (filename b)) as [content|]; [|done].
    rewrite IH by done.
    by destruct (inject_assets before z_mod _) as [t [o r]].
Qed.


Lemma process_mods_all_fail (ET_parse : bytes -> option Element)
  (self : ModApplicator) (disk : Disk) (mods : list Mod) (tbl : pydict) :
  (forall m, m ∈ mods -> open_zip disk (file_path m) = None) ->
  (process_mods ET_parse self disk mods tbl).1 = tbl.
Proof.
  induction mods as [|m r IH]; intros H; [done |].
  cbn [process_mods]. unfold process_mod. rewrite (H m) by left.
  assert (Hr : (process_mods ET_parse self disk r tbl).1 = tbl)
    by (apply IH; intros m' Hm'; apply H; by right).
  by destruct (process_mods ET_parse self disk r tbl).
Qed.

(** X10. The success message counts the enabled mods, not the mods that
    were applied: when none of the enabled packages can be opened, a run
    without operating system faults still reports success with that count
    and leaves an archive without members at the final path. *)
Theorem apply_mods_all_packages_fail (HAS_ZSTD : bool)
  (ET_parse : bytes -> option Element) (self : ModApplicator)
  (disk : Disk) :
  enabled_mods self <> [] ->
  exists_ disk (resources0_path self) = true ->
  (forall m, m ∈ enabled_mods self -> open_zip disk (file_path m) = None) ->
  let r := apply_mods HAS_ZSTD ET_parse self disk no_faults in
  r.1.1 = Returned true (SuccessfullyApplied (length (enabled_mods self)))
  /\ r.1.2 !! final_output_path self = Some (Zip []).
Proof.
  intros Hen Hbase Hfail r.
  pose proof (apply_mods_no_faults HAS_ZSTD ET_parse self disk Hen Hbase)
    as Hok. fold r in Hok. split; [done |].
  destruct (apply_mods_success _ _ _ _ _ _ Hen Hok) as (_ & Hf & _).
  fold r in Hf. rewrite Hf. unfold final_table.
  by rewrite process_mods_all_fail.
Qed.

(** ** The keys of the table *)

Lemma dict_set_keys_prefix (d : pydict) (k : str) (v : bytes) :
  dict_keys d `prefix_of` dict_keys (dict_set d k v).
Proof.
  rewrite dict_keys_set. destruct (dict_mem d k); [done |].
  by apply prefix_app_r.
Qed.

Lemma inject_assets_keys_prefix (infolist : list ZipInfo)
  (z_mod : ZipFile) (tbl : pydict) :
  dict_keys tbl `prefix_of` dict_keys (inject_assets infolist z_mod tbl).1.
Proof.
  revert tbl. induction infolist as [|i r IH]; intros tbl; [done |].
  rewrite inject_assets_step. destruct (is_dir i || _); [apply IH |].
  destruct (zip_read z_mod (filename i)); [|done].
  etrans; [apply dict_set_keys_prefix | apply IH].
Qed.

Lemma load_base_file_keys_prefix (self : ModApplicator) (disk : Disk)
  (fname : str) (tbl : pydict) :
  dict_keys tbl `prefix_of` dict_keys (load_base_file self disk fname tbl).1.
Proof.
  unfold load_base_file. destruct (dict_mem tbl fname); [done |].
  destruct (open_zip disk (resources0_path self)) as [z|]; [|done].
  case_bool_decide; [|done]. destruct (zip_read z fname); [|done].
  apply dict_set_keys_prefix.
Qed.

Lemma process_edit_node_keys_prefix (self : ModApplicator) (disk : Disk)
  (tbl : pydict) (node : Element) :
  dict_keys tbl `prefix_of` dict_keys (process_edit_node self disk tbl node).1.
Proof.
  unfold process_edit_node.
  destruct (elem_get node (lit "name")) as [[|c target]|]; [done | | done].
  assert (H1 : dict_keys tbl `prefix_of` dict_keys
            (if negb (dict_mem tbl (c :: target))
             then load_base_file self disk (c :: target) tbl
             else (tbl, [])).1).
  { destruct (negb (dict_mem tbl (c :: target))); [|done].
    apply load_base_file_keys_prefix. }
  destruct (if negb (dict_mem tbl (c :: target))
            then load_base_file self disk (c :: target) tbl
            else (tbl, [])) as [t1 o1]. cbn [fst] in H1.
  destruct (dict_get t1 (c :: target)) as [[|b content]|]; [done | | done].
  destruct (run_children _ _ _) as [st o2].
  destruct (utf8_encode (text_content st)); [|done]. cbn [fst].
  etrans; [exact H1 | apply dict_set_keys_prefix].
Qed.

Lemma process_edit_nodes_keys_prefix (self : ModApplicator) (disk : Disk)
  (nodes : list Element) (tbl : pydict) :
  dict_keys tbl
  `prefix_of` dict_keys (process_edit_nodes self disk nodes tbl).1.
Proof.
  revert tbl. induction nodes as [|n r IH]; intros tbl; [done |].
  cbn [process_edit_nodes].
  pose proof (process_edit_node_keys_prefix self disk tbl n) as H1.
  destruct (process_edit_node self disk tbl n) as [t1 o1].
  pose proof (IH t1) as H2.
  destruct (process_edit_nodes self disk r t1). simpl in *. by etrans.
Qed.

Lemma process_mod_keys_prefix (ET_parse : bytes -> option Element)
  (self : ModApplicator) (disk : Disk) (m : Mod) (tbl : pydict) :
  dict_keys tbl `prefix_of` dict_keys (process_mod ET_parse self disk m tbl).1.
Proof.
  unfold process_mod. destruct (open_zip disk (file_path m)) as [z|]; [|done].
  pose proof (inject_assets_keys_prefix z z tbl) as H1.
  destruct (inject_assets z z tbl) as [t1 [o1 raised]].
  destruct raised; [done |].
  case_bool_decide; [|done]. destruct (_ ≫= _) as [root|]; [|done].
  pose proof (process_edit_nodes_keys_prefix self disk
                (findall_editfile root) t1) as H2.
  destruct (process_edit_nodes self disk (findall_editfile root) t1).
  simpl in *. by etrans.
Qed.

(** X11. The mod loop only ever adds paths to the table, at its end: the
    keys it starts with are a prefix of the keys it ends with, so no mod
    removes a path another mod put there, and the members of the written
    archive keep the order in which their paths were first stored. *)
Theorem process_mods_keys_prefix (ET_parse : bytes -> option Element)
  (self : ModApplicator) (disk : Disk) (mods : list Mod) (tbl : pydict) :
  dict_keys tbl
  `prefix_of` dict_keys (process_mods ET_parse self disk mods tbl).1
  /\ forall p, is_Some (dict_get tbl p) ->
       is_Some (dict_get (process_mods ET_parse self disk mods tbl).1 p).
Proof.
  assert (Hpre : forall mods tbl, dict_keys tbl
            `prefix_of` dict_keys (process_mods ET_parse self disk mods tbl).1).
  { clear. intros mods. induction mods as [|m r IH]; intros tbl; [done |].
    cbn [process_mods].
    pose proof (process_mod_keys_prefix ET_parse self disk m tbl) as H1.
    destruct (process_mod ET_parse self disk m tbl) as [t1 o1].
    pose proof (IH t1) as H2.
    destruct (process_mods ET_parse self disk r t1). simpl in *. by etrans. }
  split; [apply Hpre |]. intros p Hp.
  destruct (dict_get (process_mods ET_parse self disk mods tbl).1 p) eqn:E;
    [done |].
  apply dict_get_None_keys in E. exfalso. apply E.
  destruct (Hpre mods tbl) as [k ->]. apply elem_of_app. left.
  destruct (dict_get tbl p) eqn:E'; [|by apply is_Some_None in Hp].
  destruct (decide (p ∈ dict_keys tbl)) as [?|Hn]; [done |].
  apply dict_get_None_keys in Hn. congruence.
Qed.

(** ** The other ways a run ends *)

(** X12. With no mod enabled the run deletes the derived archive, if there
    is one, and reports success; it needs no base archive, processes no
    package and leaves every other path of the disk as it was.  (Here the
    deletion does not fail.) *)
Theorem apply_mods_none_enabled (HAS_ZSTD : bool)
  (ET_parse : bytes -> option Element) (self : ModApplicator)
  (disk : Disk) (o : Oracle) :
  enabled_mods self = [] ->
  (exists_ disk (final_output_path self) = true -> remove_raises o = None) ->
  let r := apply_mods HAS_ZSTD ET_parse self disk o in
  r.1.1 = Returned true AllModsDisabled
  /\ r.1.2 !! final_output_path self = None
  /\ (forall p, p <> final_output_path self -> r.1.2 !! p = disk !! p)
  /\ r.2 = [if HAS_ZSTD then UsingZstd else FallbackDeflated; NoModsEnabled].
Proof.
  intros Hen Hrm r. subst r. unfold apply_mods. rewrite Hen.
  destruct (exists_ disk (final_output_path self)) eqn:E.
  - rewrite Hrm by done. simpl. split; [done |].
    split; [apply lookup_delete_eq |]. split; [|done].
    intros p Hp. by rewrite lookup_delete_ne.
  - simpl. split; [done |]. split; [by apply exists_false |]. done.
Qed.

(** X13. With mods enabled and no base archive the run fails at once: it
    returns failure naming the base archive, prints nothing but the
    compression line, and the disk is as before, whatever the operating
    system would have done to later calls. *)
Theorem apply_mods_base_missing (HAS_ZSTD : bool)
  (ET_parse : bytes -> option Element) (self : ModApplicator)
  (disk : Disk) (o : Oracle) :
  enabled_mods self <> [] ->
  exists_ disk (resources0_path self) = false ->
  apply_mods HAS_ZSTD ET_parse self disk o
  = (Returned false (BaseArchiveNotFound (resources0_path self)), disk,
     [if HAS_ZSTD then UsingZstd else FallbackDeflated]).
Proof.
  intros Hen Hbase. unfold apply_mods.
  destruct (enabled_mods self); [done |]. by rewrite Hbase.
Qed.

(** X14. A run writes nowhere but at its two archive paths and at the
    output directory with its ancestors: every other path, the base
    archive and the packages among them, holds afterwards what it held
    before, in every outcome; and the output directory and each of its
    ancestors is either left as it was or made, as a directory, where
    there was nothing. *)
Theorem apply_mods_writes_only_output (HAS_ZSTD : bool)
  (ET_parse : bytes -> option Element) (self : ModApplicator)
  (disk : Disk) (o : Oracle) :
  let r := apply_mods HAS_ZSTD ET_parse self disk o in
  (forall p, p <> temp_output_path self -> p <> final_output_path self ->
     p ∉ with_parents (output_dir self) -> r.1.2 !! p = disk !! p)
  /\ output_dir self ∈ with_parents (output_dir self)
  /\ (forall p, p ∈ with_parents (output_dir self) ->
        r.1.2 !! p = disk !! p
        \/ disk !! p = None /\ r.1.2 !! p = Some Dir).
Proof.
  intros r. split; [intros p Ht Hf Hd; by apply apply_mods_frame |].
  split; [apply output_dir_parent |].
  intros p Hp. subst r.
  assert (Hpt : p <> temp_output_path self)
    by (intros ->; by apply (temp_not_parent self)).
  assert (Hpf : p <> final_output_path self)
    by (intros ->; by apply (final_not_parent self)).
  assert (Hmk : mkdir_parents disk (output_dir self) !! p = disk !! p
                \/ disk !! p = None
                   /\ mkdir_parents disk (output_dir self) !! p = Some Dir).
  { rewrite mkdir_parents_lookup, bool_decide_eq_true_2 by done.
    destruct (disk !! p); [by left | by right]. }
  unfold apply_mods.
  destruct (enabled_mods self) as [|m ms].
  - left. repeat case_match; simpl; rewrite ?lookup_delete_ne by done; done.
  - destruct (negb (exists_ disk (resources0_path self))); [by left |].
    destruct (process_mods ET_parse self disk (m :: ms) []) as [tbl out].
    unfold write_and_commit.
    destruct (negb (exists_ disk (output_dir self))).
    + destruct (mkdir_raises o).
      * left. repeat (case_match; simplify_eq); simpl;
          rewrite ?lookup_delete_ne by done; done.
      * repeat (case_match; simplify_eq); simpl;
          rewrite ?lookup_delete_ne, ?lookup_insert_ne, ?lookup_delete_ne,
            ?lookup_insert_ne, ?lookup_delete_ne by done; done.
    + left. repeat (case_match; simplify_eq); simpl;
        rewrite ?lookup_delete_ne, ?lookup_insert_ne, ?lookup_delete_ne,
          ?lookup_insert_ne, ?lookup_delete_ne by done; done.
Qed.

(** * More on the codecs *)

Lemma utf8_encode_char_1 (b0 : Z) :
  0 <= b0 < 128 -> utf8_encode_char b0 = Some [b0].
Proof. intros H. unfold utf8_encode_char. by decide_tests. Qed.

Lemma utf8_encode_char_2 (b0 b1 : Z) :
  194 <= b0 < 224 -> 128 <= b1 <= 191 ->
  utf8_encode_char ((b0 - 192) * 64 + (b1 - 128)) = Some [b0; b1].
Proof.
  intros H0 H1. unfold utf8_encode_char. decide_tests.
  do 2 f_equal; [divlia |]. f_equal. divlia.
Qed.

Lemma utf8_encode_char_3 (b0 b1 b2 : Z) :
  224 <= b0 < 240 -> 128 <= b1 <= 191 -> 128 <= b2 <= 191 ->
  let c := (b0 - 224) * 4096 + (b1 - 128) * 64 + (b2 - 128) in
  2048 <= c -> is_surrogate c = false ->
  utf8_encode_char c = Some [b0; b1; b2].
Proof.
  intros H0 H1 H2 c Hc Hs. unfold utf8_encode_char. rewrite Hs.
  subst c. decide_tests.
  do 2 f_equal; [divlia |]. f_equal; [divlia |]. f_equal. divlia.
Qed.

Lemma utf8_encode_char_4 (b0 b1 b2 b3 : Z) :
  240 <= b0 < 245 -> 128 <= b1 <= 191 -> 128 <= b2 <= 191 ->
  128 <= b3 <= 191 ->
  let c := (b0 - 240) * 262144 + (b1 - 128) * 4096
           + (b2 - 128) * 64 + (b3 - 128) in
  65536 <= c <= 1114111 ->
  utf8_encode_char c = Some [b0; b1; b2; b3].
Proof.
  intros H0 H1 H2 H3 c Hc. unfold utf8_encode_char.
  subst c. decide_tests.
  do 2 f_equal; [divlia |]. f_equal; [divlia |].
  f_equal; [divlia |]. f_equal. divlia.
Qed.

(** What the decoder accepts encodes to the bytes it was read from. *)
Lemma utf8_encode_decode_aux (n : nat) (b : bytes) (t : str) :
  (length b <= n)%nat -> bytes_ok b ->
  utf8_decode b = Some t -> utf8_encode t = Some b.
Proof.
  revert b t. induction n as [|n IH]; intros b t Hn Hb.
  { destruct b; [|simpl in Hn; lia]. by intros [= <-]. }
  destruct b as [|b0 r0]; [by intros [= <-] |].
  apply Forall_cons in Hb as [Hb0 Hr0]. cbn [utf8_decode].
  assert (Hstep : forall (c : Z) (bs r : bytes) (t0 : str),
            (length r <= n)%nat -> bytes_ok r ->
            utf8_encode_char c = Some bs ->
            cons c <$> utf8_decode r = Some t0 ->
            utf8_encode t0 = Some (bs ++ r)).
  { intros c bs r t0 Hlen Hr Hc Hd.
    destruct (utf8_decode r) as [t'|] eqn:Er; [|done].
    injection Hd as <-. simpl. rewrite Hc.
    by rewrite (IH r t' Hlen Hr Er). }
  simpl in Hn. unfold is_cont.
  destruct (Z.ltb_spec b0 128).
  { intros Hd. apply (Hstep b0 [b0] r0 t); [lia | done | | done].
    apply utf8_encode_char_1. lia. }
  destruct (Z.ltb_spec b0 194); [done |].
  destruct (Z.ltb_spec b0 224).
  { destruct r0 as [|b1 r1]; [done |].
    apply Forall_cons in Hr0 as [Hb1 Hr1].
    destruct ((128 <=? b1) && (b1 <=? 191)) eqn:E1; [|done].
    apply andb_true_iff in E1 as [? ?]. tests_to_props.
    intros Hd. refine (Hstep _ [b0; b1] r1 t _ Hr1 _ Hd); [simpl in Hn; lia |].
    apply utf8_encode_char_2; lia. }
  destruct (Z.ltb_spec b0 240).
  { destruct r0 as [|b1 [|b2 r2]]; [done | done |].
    apply Forall_cons in Hr0 as [Hb1 Hr1].
    apply Forall_cons in Hr1 as [Hb2 Hr2].
    destruct (_ && _) eqn:E; [|done].
    repeat match goal with
      | H : _ && _ = true |- _ => apply andb_true_iff in H as [? ?]
      end.
    tests_to_props.
    intros Hd.
    refine (Hstep _ [b0; b1; b2] r2 t _ Hr2 _ Hd); [simpl in Hn; lia |].
    apply utf8_encode_char_3; [lia | lia | lia | lia |].
    by apply negb_true_iff. }
  destruct (Z.ltb_spec b0 245); [|done].
  destruct r0 as [|b1 [|b2 [|b3 r3]]]; [done | done | done |].
  apply Forall_cons in Hr0 as [Hb1 Hr1].
  apply Forall_cons in Hr1 as [Hb2 Hr2].
  apply Forall_cons in Hr2 as [Hb3 Hr3].
  destruct (_ && _) eqn:E; [|done].
  repeat match goal with
    | H : _ && _ = true |- _ => apply andb_true_iff in H as [? ?]
    end.
  tests_to_props.
  intros Hd.
  refine (Hstep _ [b0; b1; b2; b3] r3 t _ Hr3 _ Hd); [simpl in Hn; lia |].
  apply utf8_encode_char_4; lia.
Qed.

(** X15. Encoding and decoding are inverse to each other: text that
    encodes is read back from its bytes as it was, by the decoder and so
    by the decoding of a file's content; and bytes the decoder accepts
    are what encoding the decoded text gives. *)
Theorem utf8_round_trip (t : str) (b : bytes) :
  (utf8_encode t = Some b ->
   utf8_decode b = Some t /\ decode_content b = t)
  /\ (bytes_ok b -> utf8_decode b = Some t -> utf8_encode t = Some b).
Proof.
  split.
  - intros H. split; [by apply utf8_decode_encode |].
    by apply decode_content_encode.
  - intros Hb Hd. by apply (utf8_encode_decode_aux (length b) b t).
Qed.

Lemma dict_set_same (d : pydict) (k : str) (v : bytes) :
  dict_get d k = Some v -> dict_set d k v = d.
Proof.
  induction d as [|[k' v'] r IH]; simpl; [done |].
  destruct (str_eqb k' k); [by intros [= ->] |].
  intros H. by rewrite IH.
Qed.

Lemma target_content_table (self : ModApplicator) (disk : Disk)
  (tbl : pydict) (target : str) (content : bytes) :
  dict_get tbl target = Some content ->
  target_content self disk tbl target = Some content.
Proof. intros H. unfold target_content. by rewrite H. Qed.

(** X16. An edit block whose directives leave the text as it was does not
    change a file that is valid UTF-8: the bytes stored back are the bytes
    that were there, and the table is as before. *)
Theorem edit_block_without_effect (self : ModApplicator) (disk : Disk)
  (tbl : pydict) (node : Element) (target : str) (content : bytes) :
  elem_get node (lit "name") = Some target ->
  target <> [] ->
  dict_get tbl target = Some content ->
  content <> [] ->
  bytes_ok content ->
  is_Some (utf8_decode content) ->
  text_content
    (run_children (detect_newline (decode_content content))
                  (elem_children node)
                  (initial_state (decode_content content))).1
  = decode_content content ->
  (process_edit_node self disk tbl node).1 = tbl.
Proof.
  intros Hn Hne Hg Hc Hb [t Ht] Hrun.
  pose proof (process_edit_node_run self disk tbl node target content Hn Hne
                (target_content_table self disk tbl target content Hg) Hc)
    as H. cbv zeta in H. rewrite Hrun in H.
  assert (Hdec : decode_content content = t)
    by (unfold decode_content; by rewrite Ht).
  rewrite Hdec, (utf8_encode_decode_aux (length content) content t) in H
    by done.
  destruct H as [Hget _].
  unfold process_edit_node in *. rewrite Hn in *.
  destruct target as [|c0 target]; [done |].
  assert (Hm : dict_mem tbl (c0 :: target) = true)
    by (apply dict_mem_true; by rewrite Hg).
  rewrite Hm in *. simpl negb in *. cbv iota in *. rewrite Hg in *.
  destruct content as [|b0 content]; [done |].
  destruct (run_children _ _ _) as [st out]. simpl in Hrun.
  rewrite Hrun, Hdec.
  rewrite (utf8_encode_decode_aux (length (b0 :: content)) (b0 :: content) t)
    by done.
  simpl. by apply dict_set_same.
Qed.

(** X17. A file that is not valid UTF-8 is read as Latin-1 and stored back
    as UTF-8: whenever the block's result encodes, the bytes stored differ
    from the bytes that were there, and that is so even for a block
    without directives. *)
Theorem edit_block_transcodes (self : ModApplicator) (disk : Disk)
  (tbl : pydict) (node : Element) (target : str) (content : bytes) :
  elem_get node (lit "name") = Some target ->
  target <> [] ->
  dict_get tbl target = Some content ->
  content <> [] ->
  utf8_decode content = None ->
  let r := process_edit_node self disk tbl node in
  let run := run_children (detect_newline (latin1_decode content))
                          (elem_children node)
                          (initial_state (latin1_decode content)) in
  (forall encoded,
     utf8_encode (text_content run.1) = Some encoded ->
     dict_get r.1 target = Some encoded /\ encoded <> content)
  /\ (bytes_ok content -> elem_children node = [] ->
      exists encoded,
        dict_get r.1 target = Some encoded /\ encoded <> content).
Proof.
  intros Hn Hne Hg Hc Hd r run.
  pose proof (process_edit_node_run self disk tbl node target content Hn Hne
                (target_content_table self disk tbl target content Hg) Hc)
    as H. cbv zeta in H.
  assert (Hdec : decode_content content = latin1_decode content)
    by (unfold decode_content; by rewrite Hd).
  rewrite Hdec in H. fold r run in H.
  assert (Hall : forall encoded,
            utf8_encode (text_content run.1) = Some encoded ->
            dict_get r.1 target = Some encoded /\ encoded <> content).
  { intros enc He. rewrite He in H. destruct H as [Hget _].
    split; [done |]. intros ->.
    apply utf8_decode_encode in He. congruence. }
  split; [done |]. intros Hb Hnil.
  destruct (latin1_encodes content Hb) as [enc He].
  exists enc. apply Hall. subst run. by rewrite Hnil.
Qed.

(** * The flow layout *)

Lemma layout_loop_covers (self : FlowLayout) (rect : QRect)
  (items : list QSize) (x y line_height : Z) :
  0 <= v_spacing self -> 0 <= line_height ->
  Forall (fun i => 0 <= height i) items ->
  let r := layout_loop self rect items x y line_height in
  y + line_height <= r.2.1 + r.2.2
  /\ Forall (fun g => y <= rect_y g
                      /\ rect_y g + rect_height g <= r.2.1 + r.2.2) r.1.
Proof.
  intros Hv. revert x y line_height.
  induction items as [|i rest IH]; intros x y lh Hlh Hh; simpl.
  { split; [lia | constructor]. }
  apply Forall_cons in Hh as [Hi Hrest].
  set (wrap := (x + width i + h_spacing self - h_spacing self
                >? rect_right rect) && (lh >? 0)).
  set (y1 := if wrap then y + lh + v_spacing self else y).
  set (lh1 := if wrap then 0 else lh).
  set (x1 := if wrap then rect_x rect else x).
  set (nx := if wrap then x1 + width i + h_spacing self
             else x + width i + h_spacing self).
  specialize (IH nx y1 (Z.max lh1 (height i))).
  destruct (layout_loop self rect rest nx y1 (Z.max lh1 (height i)))
    as [geoms [yf lhf]]. simpl in *.
  assert (Hy : y <= y1 /\ y + lh <= y1 + Z.max lh1 (height i))
    by (unfold y1, lh1; destruct wrap; lia).
  destruct IH as [H1 H2]; [unfold lh1; destruct wrap; lia | done |].
  split; [lia |]. constructor; simpl; [lia |].
  eapply Forall_impl; [exact H2 |]. simpl. intros g [? ?]. lia.
Qed.

(** X18. When no item has a negative height and the vertical spacing is
    not negative, the height [_do_layout] returns covers the layout: every
    item is placed at or below the top of the rectangle, and its bottom
    edge is within the returned height. *)
Theorem do_layout_height_covers (self : FlowLayout) (rect : QRect) :
  0 <= v_spacing self ->
  Forall (fun i => 0 <= height i) (item_list self) ->
  let r := do_layout self rect false in
  0 <= r.2
  /\ Forall (fun g => rect_y rect <= rect_y g
                      /\ rect_y g + rect_height g <= rect_y rect + r.2) r.1.
Proof.
  intros Hv Hh r. subst r. unfold do_layout.
  pose proof (layout_loop_covers self rect (item_list self) (rect_x rect)
                (rect_y rect) 0 Hv (Z.le_refl 0) Hh) as H. cbv zeta in H.
  destruct (layout_loop self rect (item_list self) (rect_x rect)
              (rect_y rect) 0) as [geoms [yf lhf]]. simpl in *.
  destruct H as [H1 H2]. split; [lia |].
  eapply Forall_impl; [exact H2 |]. simpl. intros g [? ?]. lia.
Qed.

Lemma layout_loop_rows (self : FlowLayout) (rect : QRect)
  (items : list QSize) (x y line_height : Z) :
  Forall (fun i => 0 < height i) items ->
  0 <= line_height ->
  (line_height = 0 -> x = rect_x rect) ->
  Forall (fun g => rect_x g = rect_x rect
                   \/ rect_x g + rect_width g <= rect_right rect)
         (layout_loop self rect items x y line_height).1.
Proof.
  revert x y line_height.
  induction items as [|i rest IH]; intros x y lh Hh Hlh Hx; simpl;
    [constructor |].
  apply Forall_cons in Hh as [Hi Hrest].
  replace (x + width i + h_spacing self - h_spacing self)
    with (x + width i) by lia.
  set (wrap := (x + width i >? rect_right rect) && (lh >? 0)).
  set (y1 := if wrap then y + lh + v_spacing self else y).
  set (lh1 := if wrap then 0 else lh).
  set (x1 := if wrap then rect_x rect else x).
  set (nx := if wrap then x1 + width i + h_spacing self
             else x + width i + h_spacing self).
  specialize (IH nx y1 (Z.max lh1 (height i)) Hrest).
  destruct (layout_loop self rect rest nx y1 (Z.max lh1 (height i)))
    as [geoms final]. simpl in *.
  constructor; simpl.
  - unfold x1, wrap.
    destruct (Z.gtb_spec (x + width i) (rect_right rect)); simpl.
    + destruct (Z.gtb_spec lh 0); simpl; [by left |].
      left. apply Hx. lia.
    + by right.
  - apply IH; [unfold lh1; destruct wrap; lia |].
    unfold lh1. destruct wrap; lia.
Qed.

(** X19. When every item has a positive height, every item is placed
    either at the left edge of the rectangle or so that it ends, with its
    whole width, at or before the column [rect.right()] reports: no item
    that is not at the left edge reaches past that column.  (Nothing is
    said here about the rows: with a negative horizontal spacing an item
    wider than the rectangle can share its row with the next one.) *)
Theorem do_layout_rows (self : FlowLayout) (rect : QRect) :
  Forall (fun i => 0 < height i) (item_list self) ->
  Forall (fun g => rect_x g = rect_x rect
                   \/ rect_x g + rect_width g <= rect_right rect)
         (do_layout self rect false).1.
Proof.
  intros Hh. unfold do_layout.
  pose proof (layout_loop_rows self rect (item_list self) (rect_x rect)
                (rect_y rect) 0 Hh (Z.le_refl 0) (fun _ => eq_refl)) as H.
  by destruct (layout_loop self rect (item_list self) (rect_x rect)
                 (rect_y rect) 0) as [geoms [yf lhf]].
Qed.

Lemma gtb_shift (a b d : Z) : (a + d >? b + d) = (a >? b).
Proof.
  rewrite !Z.gtb_ltb.
  destruct (Z.ltb_spec (b + d) (a + d)), (Z.ltb_spec b a); try done; lia.
Qed.

Lemma wrap32_id (z : Z) : in_int32 z -> wrap32 z = z.
Proof.
  unfold in_int32, wrap32. intros H. rewrite Z.mod_small by lia. lia.
Qed.

(** Moving the rectangle moves the rows with it, as long as its right
    edge moves with it. *)
Lemma layout_loop_shift (self : FlowLayout) (r1 r2 : QRect)
  (items : list QSize) (x y line_height dx dy : Z) :
  rect_x r2 = rect_x r1 + dx ->
  rect_right r2 = rect_right r1 + dx ->
  let a := layout_loop self r1 items x y line_height in
  let b := layout_loop self r2 items (x + dx) (y + dy) line_height in
  b.2.1 = a.2.1 + dy /\ b.2.2 = a.2.2.
Proof.
  intros Hx Hr. revert x y line_height.
  induction items as [|i rest IH]; intros x y lh; simpl; [done |].
  rewrite Hr, Hx.
  replace (x + dx + width i + h_spacing self - h_spacing self)
    with (x + width i + h_spacing self - h_spacing self + dx) by lia.
  rewrite gtb_shift.
  set (wrap := (x + width i + h_spacing self - h_spacing self
                >? rect_right r1) && (lh >? 0)).
  destruct wrap.
  - specialize (IH (rect_x r1 + width i + h_spacing self)
                   (y + lh + v_spacing self) (Z.max 0 (height i))).
    cbv zeta in IH.
    replace (rect_x r1 + dx + width i + h_spacing self)
      with (rect_x r1 + width i + h_spacing self + dx) by lia.
    replace (y + dy + lh + v_spacing self)
      with (y + lh + v_spacing self + dy) by lia.
    destruct (layout_loop self r1 rest _ _ _) as [g1 f1].
    by destruct (layout_loop self r2 rest _ _ _) as [g2 f2].
  - specialize (IH (x + width i + h_spacing self) y
                   (Z.max lh (height i))).
    cbv zeta in IH.
    replace (x + dx + width i + h_spacing self)
      with (x + width i + h_spacing self + dx) by lia.
    destruct (layout_loop self r1 rest _ _ _) as [g1 f1].
    by destruct (layout_loop self r2 rest _ _ _) as [g2 f2].
Qed.

(** X20. In test mode the height of a layout depends on the width of the
    rectangle only, as long as the right edge of the rectangle is a C
    [int]: for a rectangle whose last column does not leave the 32-bit
    range, wherever it lies, [_do_layout] returns what [heightForWidth]
    returns for its width.  (Past that range [QRect.right()] wraps
    around and the rows break differently.) *)
Theorem heightForWidth_is_layout_height (self : FlowLayout) (rect : QRect) :
  in_int32 (rect_width rect - 1) ->
  in_int32 (rect_x rect + rect_width rect - 1) ->
  (do_layout self rect true).2 = heightForWidth self (rect_width rect).
Proof.
  intros Hw Hr. unfold heightForWidth, do_layout.
  pose proof (layout_loop_shift self (mkRect 0 0 (rect_width rect) 0) rect
                (item_list self) 0 0 0 (rect_x rect) (rect_y rect)
                eq_refl) as H.
  cbv zeta in H. rewrite !Z.add_0_l in H. cbn [rect_x rect_y] in *.
  destruct (layout_loop self (mkRect 0 0 (rect_width rect) 0)
              (item_list self) 0 0 0) as [g1 [y1 l1]].
  destruct (layout_loop self rect (item_list self) (rect_x rect)
              (rect_y rect) 0) as [g2 [y2 l2]].
  simpl in *. destruct H as [-> ->]; [|lia].
  unfold rect_right. cbn [rect_x rect_width].
  rewrite !wrap32_id by (rewrite ?Z.add_0_l; done). lia.
Qed.

(** X21. [itemAt] and [takeAt] accept the indices from 0 to count - 1
    only: any other index, negative ones included, gives no item and
    leaves the layout as it is; for an index in that range [takeAt] gives
    the item [itemAt] gives and the count goes down by one; and an item
    added last is taken back at index [count], which restores the
    layout. *)
Theorem item_list_bounds (self : FlowLayout) (item : QSize) (index : Z) :
  (index < 0 \/ count self <= index ->
   itemAt self index = None /\ takeAt self index = (None, self))
  /\ (0 <= index < count self ->
      is_Some (itemAt self index)
      /\ (takeAt self index).1 = itemAt self index
      /\ count (takeAt self index).2 = count self - 1)
  /\ takeAt (addItem self item) (count self) = (Some item, self).
Proof.
  unfold itemAt, takeAt, count. split; [|split].
  - intros H.
    destruct (Z.leb_spec 0 index), (Z.ltb_spec index
      (Z.of_nat (length (item_list self)))); simpl; try done; lia.
  - intros H.
    destruct (Z.leb_spec 0 index), (Z.ltb_spec index
      (Z.of_nat (length (item_list self)))); simpl; try lia.
    assert (Hs : is_Some (item_list self !! Z.to_nat index))
      by (apply lookup_lt_is_Some; lia).
    split; [done |]. split; [done |].
    rewrite length_delete by done.
    apply lookup_lt_is_Some in Hs. lia.
  - destruct self as [hs vs l]. simpl. rewrite length_app. simpl.
    destruct (Z.leb_spec 0 (Z.of_nat (length l))); [|lia].
    destruct (Z.ltb_spec (Z.of_nat (length l))
                (Z.of_nat (length l + 1))); [|lia].
    simpl. rewrite Nat2Z.id. rewrite lookup_app_r by lia.
    rewrite Nat.sub_diag. simpl. do 2 f_equal.
    rewrite delete_middle. apply app_nil_r.
Qed.

(** * The mod library and its configuration *)

Lemma get_meta_nonempty (root : Element) (key default_ : str) :
  default_ <> [] -> get_meta root key default_ <> [].
Proof.
  intros Hd. unfold get_meta.
  destruct (match elem_get root key with
            | Some v => Some v
            | None => findtext root key
            end) as [[|c r]|]; done.
Qed.

Lemma str_replace_char_gone (s : str) (c d : Z) :
  c <> d -> c ∉ str_replace s [c] [d].
Proof.
  intros Hne. rewrite str_replace_char.
  induction s as [|x s IH]; simpl; [apply not_elem_of_nil |].
  destruct (Z.eqb_spec x c); simpl; apply not_elem_of_cons; split;
    try done; congruence.
Qed.

Lemma parse_mod_file_enabled (py_lower : str -> str)
  (ET_parse : bytes -> option Element) (saved_enabled_mods : gset str)
  (disk : Disk) (f : Path) (info : ModInfo) :
  parse_mod_file py_lower ET_parse saved_enabled_mods disk f = Parsed info ->
  info_enabled info = in_set (info_id info) saved_enabled_mods.
Proof.
  unfold parse_mod_file. intros H.
  destruct (open_zip disk f) as [z|]; [|done].
  case_bool_decide as Hin; [|done]. simpl in H.
  destruct (_ ≫= _) as [root|]; [|done].
  repeat case_match; simplify_eq; done.
Qed.

(** X22. An entry that [parse_mod_file] returns comes from a package that
    opens and whose mod.xml parses; its id is the lowered name with every
    space turned into an underscore, so it holds no space; it is enabled
    exactly when its id is among the saved ids; and its version, author
    and description are never empty, nor is its name when the file has a
    stem. *)
Theorem parse_mod_file_entry (py_lower : str -> str)
  (ET_parse : bytes -> option Element) (saved_enabled_mods : gset str)
  (disk : Disk) (f : Path) (info : ModInfo) :
  parse_mod_file py_lower ET_parse saved_enabled_mods disk f = Parsed info ->
  (exists z root,
     open_zip disk f = Some z
     /\ lit "mod.xml" ∈ namelist z
     /\ ET_parse (default [] (zip_read z (lit "mod.xml"))) = Some root)
  /\ info_id info = str_replace (py_lower (info_name info)) (lit " ") (lit "_")
  /\ (32 ∉ info_id info)
  /\ info_enabled info = in_set (info_id info) saved_enabled_mods
  /\ info_file_path info = f
  /\ info_version info <> [] /\ info_author info <> []
  /\ info_description info <> []
  /\ (path_stem f <> [] -> info_name info <> []).
Proof.
  unfold parse_mod_file. intros H.
  destruct (open_zip disk f) as [z|]; [|done].
  case_bool_decide as Hin; [|done]. simpl in H.
  destruct (zip_read z (lit "mod.xml")) as [b|] eqn:Ez; [|done].
  simpl in H. destruct (ET_parse b) as [root|] eqn:Ep; [|done].
  assert (Hinfo : exists icon,
    info = mkInfo
      (str_replace
         (py_lower (get_meta root (lit "name") (path_stem f)))
         (lit " ") (lit "_"))
      (get_meta root (lit "name") (path_stem f))
      (get_meta root (lit "author") (lit "Unknown"))
      (get_meta root (lit "version") (lit "1.0")) (lit "Installed")
      (in_set (str_replace
                 (py_lower (get_meta root (lit "name") (path_stem f)))
                 (lit " ") (lit "_")) saved_enabled_mods)
      (get_meta root (lit "description") (lit "No description provided."))
      icon f).
  { repeat case_match; simplify_eq; by eexists. }
  destruct Hinfo as [icon ->]. simpl.
  split; [exists z, root; by rewrite Ez |]. split; [done |].
  split; [apply (str_replace_char_gone _ 32 95); lia |].
  split; [done |]. split; [done |].
  split; [apply get_meta_nonempty; by vm_compute |].
  split; [apply get_meta_nonempty; by vm_compute |].
  split; [apply get_meta_nonempty; by vm_compute |].
  apply get_meta_nonempty.
Qed.

(** ** The configuration file *)

Lemma forallb_hashable_strs (ids : list str) :
  forallb hashable (map PStr ids) = true.
Proof. induction ids; simpl; done. Qed.

Lemma omap_py_str_strs (ids : list str) : omap py_str (map PStr ids) = ids.
Proof. induction ids as [|i r IH]; simpl; [done |]. f_equal. exact IH. Qed.

Lemma in_set_elem_of (x : str) (s : gset str) : in_set x s = true <-> x ∈ s.
Proof. unfold in_set. apply bool_decide_eq_true. Qed.

Lemma load_config_save_config (installed : list ModInfo) (dev_mode : pyval)
  (config : ConfigFile) :
  load_config (save_config installed dev_mode SaveOk config)
  = (list_to_set (map info_id (filter (fun m => info_enabled m = true)
                                      installed)), dev_mode).
Proof.
  unfold save_config, load_config.
  cbn [py_get py_lookup]. rewrite !str_eqb_refl.
  replace (str_eqb (lit "enabled_mods") (lit "dev_mode")) with false
    by (by vm_compute).
  cbn [from_option id py_set].
  by rewrite forallb_hashable_strs, omap_py_str_strs.
Qed.

Lemma in_enabled_ids (installed : list ModInfo) (x : str) :
  in_set x (list_to_set (map info_id
                           (filter (fun m => info_enabled m = true)
                                   installed))) = true
  <-> exists m, m ∈ installed /\ info_id m = x /\ info_enabled m = true.
Proof.
  rewrite in_set_elem_of, elem_of_list_to_set, list_elem_of_fmap. split.
  - intros (m & -> & Hm). apply list_elem_of_filter in Hm as [? ?]. eauto.
  - intros (m & Hm & <- & He). exists m. split; [done |].
    by apply list_elem_of_filter.
Qed.

(** X23. A configuration that was saved is loaded back as it was saved:
    the set of the ids of the enabled entries, and the developer mode; an
    id is in the loaded set exactly when an installed entry with that id
    was enabled.  (The order in which the ids were written, and how often
    an id was written, is not kept.) *)
Theorem load_saved_config (installed : list ModInfo) (dev_mode : pyval)
  (config : ConfigFile) (x : str) :
  let enabled := map info_id (filter (fun m => info_enabled m = true)
                                     installed) in
  let loaded := load_config (save_config installed dev_mode SaveOk config) in
  loaded = (list_to_set enabled, dev_mode)
  /\ (in_set x loaded.1 = true
      <-> exists m, m ∈ installed /\ info_id m = x
                    /\ info_enabled m = true)
  /\ forall installed',
       map info_id (filter (fun m => info_enabled m = true) installed')
       ≡ₚ enabled ->
       load_config (save_config installed' dev_mode SaveOk config) = loaded.
Proof.
  intros enabled loaded. subst loaded enabled.
  rewrite load_config_save_config. split; [done |]. cbn [fst]. split.
  - apply in_enabled_ids.
  - intros installed' Hp. rewrite load_config_save_config. f_equal.
    apply leibniz_equiv. intros y. rewrite !elem_of_list_to_set.
    by rewrite Hp.
Qed.

(** X24. Flags are restored by id.  When the configuration saved for the
    installed entries is loaded and a package is parsed with it, the new
    entry is enabled exactly when some installed entry with the same id
    was enabled: packages that share an id share the flag. *)
Theorem enabled_flag_restored_by_id (py_lower : str -> str)
  (ET_parse : bytes -> option Element) (disk : Disk)
  (installed : list ModInfo) (dev_mode : pyval) (config : ConfigFile)
  (f : Path) (info : ModInfo) :
  let saved :=
    (load_config (save_config installed dev_mode SaveOk config)).1 in
  parse_mod_file py_lower ET_parse saved disk f = Parsed info ->
  (info_enabled info = true
   <-> exists m, m ∈ installed /\ info_id m = info_id info
                 /\ info_enabled m = true).
Proof.
  intros saved Hp. rewrite (parse_mod_file_enabled _ _ _ _ _ _ Hp).
  subst saved. rewrite load_config_save_config. cbn [fst].
  apply in_enabled_ids.
Qed.

Lemma refresh_all_disabled (py_lower : str -> str)
  (ET_parse : bytes -> option Element) (disk : Disk) (files : list Path) :
  Forall (fun m => info_enabled m = false)
         (omap (fun f => parsed_info
                           (parse_mod_file py_lower ET_parse ∅ disk f))
               files).
Proof.
  apply Forall_forall. intros m Hm.
  apply list_elem_of_omap in Hm as (f & _ & Hf).
  destruct (parse_mod_file py_lower ET_parse ∅ disk f) as [info| |] eqn:E;
    [|done|done].
  injection Hf as ->.
  by rewrite (parse_mod_file_enabled _ _ _ _ _ _ E).
Qed.

(** X25. Starting the window clears the saved ids in the file.  At the
    start of the process no mod is installed yet when [update_dev_mode]
    saves the configuration, so the file then holds an empty list of
    enabled ids, whatever it held; a second start that follows with no
    save in between loads an empty set of ids, and every mod it lists is
    disabled. *)
Theorem startup_clears_saved_ids (py_lower : str -> str)
  (ET_parse : bytes -> option Element) (disk : Disk) (mods_dir : Path)
  (honmod_files zip_files : list Path) (fault : SaveFault)
  (config : ConfigFile) :
  let first := init_library py_lower ET_parse disk (Some mods_dir)
                            honmod_files zip_files [] SaveOk config in
  let second := init_library py_lower ET_parse disk (Some mods_dir)
                             honmod_files zip_files [] fault first.1.2 in
  first.1.1.1 = (load_config config).1
  /\ first.1.2
     = ConfigDoc (PDict [(lit "enabled_mods", PList []);
                         (lit "dev_mode", (load_config config).2)])
  /\ second.1.1.1 = ∅
  /\ Forall (fun m => info_enabled m = false) second.2.
Proof.
  intros first second. subst first second. unfold init_library.
  destruct (load_config config) as [saved dev] eqn:E. cbn [fst snd].
  split; [done |]. split; [done |].
  rewrite load_config_save_config. cbn [filter map list_to_set].
  cbn [fst snd]. split; [done |]. unfold refresh_mods_library.
  destruct (negb (exists_ disk mods_dir)); [constructor |].
  apply refresh_all_disabled.
Qed.

(** ** Drag and drop *)

(** X26. A drag is accepted exactly when dropping it imports something:
    [dragEnterEvent] accepts the urls if and only if [dropEvent] hands a
    non-empty list to the import, and every file in that list ends in
    .honmod, in whatever letter case. *)
Theorem drag_accepted_iff_drop_imports (urls : list str) :
  (dragEnterEvent urls = true <-> dropEvent urls <> [])
  /\ Forall (fun f => str_endswith (str_lower f) (lit ".honmod") = true)
            (dropEvent urls).
Proof.
  unfold dragEnterEvent, dropEvent. split.
  - induction urls as [|u r IH]; [done |]. cbn [existsb].
    rewrite filter_cons. case_decide as Hu.
    + rewrite Hu. simpl. split; done.
    + apply not_true_is_false in Hu. rewrite Hu. exact IH.
  - apply Forall_forall. intros f Hf.
    by apply list_elem_of_filter in Hf as [? _].
Qed.

(** ** Toggling a mod *)

(** X27. Toggling a card sets the flag of its entry and saves.  The id
    of that entry is in the configuration saved, as it is loaded back,
    exactly when the card was switched on or another installed entry with
    the same id is enabled: switching off one of two enabled mods that
    share an id keeps the id saved.  The developer mode is saved as it
    was, and no entry is added or dropped. *)
Theorem toggle_saved_flag (installed : list ModInfo) (index : nat)
  (m : ModInfo) (checked : bool) (dev_mode : pyval) (config : ConfigFile) :
  installed !! index = Some m ->
  let r := toggle_mod installed index checked dev_mode SaveOk config in
  (in_set (info_id m) (load_config r.2).1 = true
   <-> checked = true
       \/ exists j m', j <> index /\ installed !! j = Some m'
            /\ info_id m' = info_id m /\ info_enabled m' = true)
  /\ (load_config r.2).2 = dev_mode
  /\ length r.1 = length installed.
Proof.
  intros Hm r. subst r. unfold toggle_mod. rewrite Hm. cbn [fst snd].
  rewrite load_config_save_config. cbn [fst snd].
  split; [|split; [done | by rewrite length_insert]].
  pose proof (lookup_lt_Some _ _ _ Hm) as Hlt.
  rewrite in_enabled_ids. split.
  - intros (m' & Hin & Hid & He).
    apply list_elem_of_lookup in Hin as [j Hj].
    destruct (decide (j = index)) as [-> | Hne].
    + rewrite list_lookup_insert_eq in Hj by done.
      injection Hj as <-. by left.
    + rewrite list_lookup_insert_ne in Hj by done. right. by exists j, m'.
  - intros [-> | (j & m' & Hne & Hj & Hid & He)].
    + eexists. split; [apply list_elem_of_lookup; exists index;
                       by apply list_lookup_insert_eq | done].
    + exists m'. split; [|done]. apply list_elem_of_lookup. exists j.
      by rewrite list_lookup_insert_ne.
Qed.

(** * The further theorems at concrete inputs *)

Lemma not_elem_of_check (x : Z) (l : list Z) :
  forallb (fun y => negb (y =? x)) l = true -> x ∉ l.
Proof.
  induction l as [|y l IH]; simpl; [intros _; apply not_elem_of_nil |].
  intros H. apply andb_true_iff in H as [Hy Hl].
  apply not_elem_of_cons. split; [|by apply IH].
  apply negb_true_iff, Z.eqb_neq in Hy. congruence.
Qed.

Lemma bytes_ok_check (b : bytes) :
  forallb (fun x => (0 <=? x) && (x <? 256)) b = true -> bytes_ok b.
Proof.
  intros H. apply Forall_forall. intros x Hx.
  apply list_elem_of_In in Hx.
  pose proof (proj1 (forallb_forall _ _) H x Hx) as Hb.
  apply andb_true_iff in Hb as [? ?]. lia.
Qed.

Lemma find_directive_witness :
  0 <= cursor state_no_match <= py_len (text_content state_no_match)
  /\ str_lower (elem_tag (find_node "foo")) = lit "find"
  /\ process_child [LF] state_no_match (find_node "foo")
     = (mkState (lit "a foo b foo") 11 8 11, [FindMatch 8]).
Proof.
  assert (Hc : 0 <= cursor state_no_match
               <= py_len (text_content state_no_match))
    by (vm_compute; intuition discriminate).
  split; [exact Hc |]. split; [reflexivity |].
  destruct (find_directive [LF] state_no_match (find_node "foo") Hc eq_refl)
    as [[Hno _] | (k & _ & _ & _ & E)].
  - exfalso. assert (H8 : (8 < 4)%Z); [|lia].
    apply Hno. exists (lit "a foo b "), []. split; reflexivity.
  - pose proof (f_equal snd E) as Hk. vm_compute in Hk.
    injection Hk as <-. rewrite E. reflexivity.
Defined.

Lemma run_children_keeps_state_witness :
  wf_state state_after_find
  /\ match_start (run_children [LF] [replace_node "bar"; find_node "zzz"]
                               state_after_find).1 <> -1.
Proof.
  assert (Hwf : wf_state state_after_find)
    by (unfold wf_state; vm_compute; intuition discriminate).
  split; [exact Hwf |].
  destruct (run_children_keeps_state [LF]
              [replace_node "bar"; find_node "zzz"] state_after_find Hwf)
    as [_ Hact].
  apply Hact. vm_compute. discriminate.
Defined.

Lemma normalize_line_endings_witness :
  (CR ∉ two_lines)
  /\ normalize [LF] (crlf_of two_lines) = two_lines
  /\ normalize [CR; LF] two_lines = [CR; LF; 99; CR; LF; 100].
Proof.
  assert (Hc : CR ∉ two_lines) by (apply not_elem_of_check; reflexivity).
  split; [exact Hc |].
  destruct (normalize_line_endings two_lines Hc) as (_ & E1 & E2 & _).
  rewrite E1, E2. split; reflexivity.
Defined.

Lemma normalize_crlf_no_bare_lf_witness :
  normalize [CR; LF] two_lines = [CR] ++ LF :: [99; CR; LF; 100]
  /\ exists pre', [CR] = pre' ++ [CR].
Proof.
  assert (E : normalize [CR; LF] two_lines
              = [CR] ++ LF :: [99; CR; LF; 100]) by (vm_compute; reflexivity).
  split; [exact E |].
  exact (normalize_crlf_no_bare_lf two_lines [CR] [99; CR; LF; 100] E).
Defined.

Lemma literal_found_across_line_endings_witness :
  let find_child := Elem (lit "find") [] (Some two_lines) [] in
  let buf := lit "ab" ++ crlf_of two_lines ++ lit "z" in
  (CR ∉ two_lines)
  /\ str_lower (elem_tag find_child) = lit "find"
  /\ elem_text find_child = Some two_lines
  /\ process_child (detect_newline buf) (initial_state buf) find_child
     = (mkState buf 8 2 8, [FindMatch 2]).
Proof.
  intros find_child buf.
  assert (Hc : CR ∉ two_lines) by (apply not_elem_of_check; reflexivity).
  split; [exact Hc |]. split; [reflexivity |]. split; [reflexivity |].
  destruct (literal_found_across_line_endings two_lines (lit "ab") (lit "z")
              find_child Hc eq_refl (or_introl eq_refl)) as [Hcrlf _].
  cbv zeta in Hcrlf. destruct Hcrlf as (k & _ & E). fold buf in E.
  pose proof (f_equal snd E) as Hk. vm_compute in Hk.
  injection Hk as <-. rewrite E. reflexivity.
Defined.

Lemma inject_assets_skips_reserved_witness :
  (str_lower (lit "Mod.XML") ∈ ignored_files)
  /\ dict_get (inject_assets package_twice package_twice []).1
              (lit "Mod.XML") = None.
Proof.
  assert (Hp : str_lower (lit "Mod.XML") ∈ ignored_files)
    by (apply (bool_decide_unpack _); vm_compute; exact I).
  split; [exact Hp |].
  exact (inject_assets_skips_reserved package_twice package_twice []
           (lit "Mod.XML") Hp).
Defined.


Lemma inject_assets_no_backslash_witness :
  (92 ∈ lit "ui\a.txt")
  /\ dict_get (inject_assets package_twice package_twice []).1
              (lit "ui\a.txt") = None.
Proof.
  assert (Hp : 92 ∈ lit "ui\a.txt")
    by (apply (bool_decide_unpack _); vm_compute; exact I).
  split; [exact Hp |].
  exact (inject_assets_no_backslash package_twice package_twice []
           (lit "ui\a.txt") Hp).
Defined.


Lemma apply_mods_all_packages_fail_witness :
  let self := sample_applicator [mod_missing] in
  let r := apply_mods true sample_parse self sample_disk no_faults in
  enabled_mods self <> []
  /\ exists_ sample_disk (resources0_path self) = true
  /\ (forall m, m ∈ enabled_mods self ->
        open_zip sample_disk (file_path m) = None)
  /\ r.1.1 = Returned true (SuccessfullyApplied 1)
  /\ r.1.2 !! final_output_path self = Some (Zip []).
Proof.
  intros self r.
  assert (Hen : enabled_mods self <> []) by (vm_compute; discriminate).
  assert (Hfail : forall m, m ∈ enabled_mods self ->
                    open_zip sample_disk (file_path m) = None).
  { intros m Hm. change (enabled_mods self) with [mod_missing] in Hm.
    apply list_elem_of_singleton in Hm as ->. reflexivity. }
  split; [exact Hen |]. split; [reflexivity |]. split; [exact Hfail |].
  exact (apply_mods_all_packages_fail true sample_parse self sample_disk
           Hen eq_refl Hfail).
Defined.

Lemma apply_mods_none_enabled_witness :
  let self := sample_applicator [] in
  let r := apply_mods true sample_parse self sample_disk no_faults in
  enabled_mods self = []
  /\ sample_disk !! final_output_path self = Some (Zip previous_output)
  /\ r.1.1 = Returned true AllModsDisabled
  /\ r.1.2 !! final_output_path self = None.
Proof.
  intros self r. split; [reflexivity |]. split; [reflexivity |].
  destruct (apply_mods_none_enabled true sample_parse self sample_disk
              no_faults eq_refl (fun _ => eq_refl)) as (H1 & H2 & _).
  split; [exact H1 | exact H2].
Defined.

Lemma apply_mods_base_missing_witness :
  let self := sample_applicator [mod_A] in
  enabled_mods self <> []
  /\ exists_ (∅ : Disk) (resources0_path self) = false
  /\ apply_mods true sample_parse self ∅ rename_refused
     = (Returned false (BaseArchiveNotFound sample_resources), ∅,
        [UsingZstd]).
Proof.
  intros self.
  assert (Hen : enabled_mods self <> []) by (vm_compute; discriminate).
  split; [exact Hen |]. split; [reflexivity |].
  exact (apply_mods_base_missing true sample_parse self ∅ rename_refused
           Hen eq_refl).
Defined.

Lemma apply_mods_writes_only_output_witness :
  let self := sample_applicator [mod_missing] in
  let r := apply_mods true sample_parse self bare_disk no_faults in
  (sample_resources ∉ with_parents (output_dir self))
  /\ r.1.1 = Returned true (SuccessfullyApplied 1)
  /\ r.1.2 !! sample_resources = Some (Zip sample_base)
  /\ bare_disk !! ["game"%string] = None
  /\ r.1.2 !! ["game"%string] = Some Dir.
Proof.
  intros self r.
  assert (Hp : sample_resources ∉ with_parents (output_dir self))
    by (apply (bool_decide_unpack _); vm_compute; exact I).
  split; [exact Hp |]. split; [reflexivity |].
  destruct (apply_mods_writes_only_output true sample_parse self bare_disk
              no_faults) as (Hframe & _ & Hdirs).
  fold r in Hframe, Hdirs. split.
  - rewrite Hframe; [reflexivity | discriminate | discriminate | exact Hp].
  - split; [reflexivity |].
    destruct (Hdirs ["game"%string]) as [_ | [_ Hmade]];
      [apply (bool_decide_unpack _); vm_compute; exact I
      | reflexivity | exact Hmade].
Defined.

Lemma edit_block_without_effect_witness :
  let self := sample_applicator [] in
  let content := lit "hello world" in
  elem_get idle_block (lit "name") = Some (lit "ui/main.txt")
  /\ dict_get main_table (lit "ui/main.txt") = Some content
  /\ bytes_ok content
  /\ is_Some (utf8_decode content)
  /\ (process_edit_node self sample_disk main_table idle_block).1
     = main_table.
Proof.
  intros self content.
  assert (Hb : bytes_ok content) by (apply bytes_ok_check; reflexivity).
  assert (Hd : is_Some (utf8_decode content))
    by (exists (lit "hello world"); reflexivity).
  split; [reflexivity |]. split; [reflexivity |]. split; [exact Hb |].
  split; [exact Hd |].
  apply (edit_block_without_effect self sample_disk main_table idle_block
           (lit "ui/main.txt") content eq_refl); try exact Hb; try exact Hd;
    try reflexivity; vm_compute; discriminate.
Defined.

Lemma edit_block_transcodes_witness :
  let self := sample_applicator [] in
  elem_get empty_block (lit "name") = Some (lit "ui/l1.txt")
  /\ dict_get latin1_table (lit "ui/l1.txt") = Some [233]
  /\ utf8_decode [233] = None
  /\ dict_get (process_edit_node self sample_disk latin1_table
                                 empty_block).1 (lit "ui/l1.txt")
     = Some [195; 169].
Proof.
  intros self.
  split; [reflexivity |]. split; [reflexivity |]. split; [reflexivity |].
  assert (Hne : lit "ui/l1.txt" <> []) by (vm_compute; discriminate).
  assert (Hc : [233] <> ([] : bytes)) by discriminate.
  destruct (edit_block_transcodes self sample_disk latin1_table empty_block
              (lit "ui/l1.txt") [233] eq_refl Hne eq_refl Hc eq_refl)
    as [Hall _].
  destruct (Hall [195; 169] eq_refl) as [Hget _]. exact Hget.
Defined.

Lemma do_layout_height_covers_witness :
  0 <= v_spacing sample_layout
  /\ Forall (fun i => 0 <= height i) (item_list sample_layout)
  /\ Forall (fun g => rect_y g + rect_height g
                      <= (do_layout sample_layout sample_rect false).2)
            (do_layout sample_layout sample_rect false).1.
Proof.
  assert (Hv : 0 <= v_spacing sample_layout) by (vm_compute; discriminate).
  assert (Hh : Forall (fun i => 0 <= height i) (item_list sample_layout))
    by (repeat constructor; vm_compute; discriminate).
  split; [exact Hv |]. split; [exact Hh |].
  destruct (do_layout_height_covers sample_layout sample_rect Hv Hh)
    as [_ Hall].
  eapply Forall_impl; [exact Hall |]. intros g [_ Hg]. exact Hg.
Defined.

Lemma do_layout_rows_witness :
  Forall (fun i => 0 < height i) (item_list sample_layout)
  /\ Forall (fun g => rect_x g = rect_x sample_rect
                      \/ rect_x g + rect_width g <= rect_right sample_rect)
            (do_layout sample_layout sample_rect false).1.
Proof.
  assert (Hh : Forall (fun i => 0 < height i) (item_list sample_layout))
    by (repeat constructor).
  split; [exact Hh |].
  exact (do_layout_rows sample_layout sample_rect Hh).
Defined.

Lemma heightForWidth_is_layout_height_witness :
  let rect := mkRect 30 40 100 0 in
  in_int32 (rect_width rect - 1)
  /\ in_int32 (rect_x rect + rect_width rect - 1)
  /\ (do_layout sample_layout rect true).2 = 45
  /\ ~ in_int32 (rect_x far_rect + rect_width far_rect - 1)
  /\ (do_layout sample_layout far_rect true).2 = 70.
Proof.
  intros rect.
  assert (Hw : in_int32 (rect_width rect - 1))
    by (unfold in_int32; simpl; lia).
  assert (Hr : in_int32 (rect_x rect + rect_width rect - 1))
    by (unfold in_int32; simpl; lia).
  split; [exact Hw |]. split; [exact Hr |]. split.
  - rewrite (heightForWidth_is_layout_height sample_layout rect Hw Hr).
    reflexivity.
  - split; [unfold in_int32; simpl; lia | reflexivity].
Defined.

Lemma parse_mod_file_entry_witness :
  parse_mod_file str_lower parse_big {[lit "big_mod"]} library_disk
                 (mod_path "big.honmod") = Parsed info_big
  /\ (32 ∉ info_id info_big)
  /\ info_version info_big <> [].
Proof.
  assert (Hp : parse_mod_file str_lower parse_big {[lit "big_mod"]}
                 library_disk (mod_path "big.honmod") = Parsed info_big)
    by (vm_compute; reflexivity).
  split; [exact Hp |].
  destruct (parse_mod_file_entry str_lower parse_big {[lit "big_mod"]}
              library_disk (mod_path "big.honmod") info_big Hp)
    as (_ & _ & Hsp & _ & _ & Hv & _).
  split; [exact Hsp | exact Hv].
Defined.

Lemma enabled_flag_restored_by_id_witness :
  let saved := (load_config (save_config [info_big] (PBool false) SaveOk
                                         NoConfig)).1 in
  parse_mod_file str_lower parse_big saved library_disk
                 (mod_path "big.honmod") = Parsed info_big
  /\ exists m, m ∈ [info_big] /\ info_id m = info_id info_big
               /\ info_enabled m = true.
Proof.
  intros saved.
  assert (Hp : parse_mod_file str_lower parse_big saved library_disk
                 (mod_path "big.honmod") = Parsed info_big)
    by (vm_compute; reflexivity).
  split; [exact Hp |].
  apply (enabled_flag_restored_by_id str_lower parse_big library_disk
           [info_big] (PBool false) NoConfig (mod_path "big.honmod")
           info_big Hp).
  reflexivity.
Defined.

Lemma toggle_saved_flag_witness :
  let r := toggle_mod [info_big; info_big_copy] 0 false (PBool true) SaveOk
                      NoConfig in
  [info_big; info_big_copy] !! 0%nat = Some info_big
  /\ info_enabled <$> r.1 !! 0%nat = Some false
  /\ in_set (lit "big_mod") (load_config r.2).1 = true.
Proof.
  intros r. split; [reflexivity |]. split; [reflexivity |].
  destruct (toggle_saved_flag [info_big; info_big_copy] 0 info_big false
              (PBool true) NoConfig eq_refl) as [[_ Hsaved] _].
  apply Hsaved. right. exists 1%nat, info_big_copy.
  split; [discriminate |]. split; [reflexivity |]. split; reflexivity.
Defined.
